(* ===== verification/_CoqProject ===== *)
-Q . S2P
Prelude.v
Exec.v
Graph.v
Prototype.v
LockedBox.v
Retry.v
Double.v
Nearest.v
Number.v
RetryDouble.v
RetryOdds.v
RetryTree.v
Regex.v
Backtrack.v
Pattern.v
Engine.v
NumbersAgain.v
Scanner.v
