(* ===== verification/Prelude.v ===== *)
(** * Eloquent JavaScript, chapters 8 to 10: a verification library

    The repository holds four small programs that share nothing but the
    language they are written in.  This library models each of them and
    proves the properties that make it correct.

    ** The programs and the files that model them

    - [chapter 10 exercises/roadModules/graph.js], in [Graph.v].
      [buildGraph(roads)] builds an object that maps every place to the array
      of its neighbours.  The object is a [gmap] from [string] to
      [list string]; the closure [addEdge], which mutates the object, takes
      and returns the map; [addRoad] is the body of the [for ... of] loop and
      [buildGraph] the left fold of [addRoad] over the roads.
      [buildGraphRaw] is the same program on any input: a road is an array
      of any length, [destructure] reads its first two elements, a missing
      one is [Undefined], and [toPropertyKey] turns a value into the name of
      a property.  [module_exports] is the object the last line of the file
      exports.  [Prototype.v] reads the same lines with the lookup of the
      language, which goes on in the prototype of an object: an [object]
      has its own properties and the names it inherits, [Object_create] is
      line 2, and [addEdgeOn], [addRoadOn] and [buildGraphOn] are the
      closure, the loop body and the function as statements of [Exec.v]
      that mutate the object and may throw a [TypeError].
    - [chapter 8 exercises/lockedBox.js], in [LockedBox.v].  The state
      [World] is the object [box] (its flag [locked] and the reference
      [_content] to its array), the heap of arrays, and the console.
      [unlock], [lock], the getter [content], [Array_push] and
      [withBoxUnlocked] are computations on that state;
      [lockedBoxScript] is the sequence of statements the file runs, and
      [lockedBoxProgram] the file with the two statements it holds as
      comments switched on or off.
    - [chapter 8 exercises/retry.js], in [Retry.v].  The state [Runtime] is
      the random source (the sequence of numbers [Math.random()] returns),
      the number of draws made, and the console.  [primitiveMultiply],
      [attempt] (the [try]/[catch] of one turn) and [trial] follow the source
      function by function; [retryScript] is the call [trial(12, 5)].
      [RetryTree.v] models the same three functions a second time, as an
      interaction tree over the events [Random] and [Print], where the loop
      is the unbounded [ITree.iter]: [primitiveMultiplyT], [attemptT] and
      [trialT], run on a [Runtime] by [runT].  [RetryOdds.v] takes
      [Math.random()] to be uniform on [N] values ([draws]) and counts, among
      the [N ^ n] sequences of [n] draws ([sources]), those on which the
      loop is still running after [n] turns ([stillRunning]).
      [Double.v], [Nearest.v], [Number.v] and [RetryDouble.v] model the
      program a third time, in the arithmetic of the language:
      [Double.roundDouble] rounds a rational to the nearest double, and
      [Nearest.v] states what the standard of the doubles asks of a rounding
      ([double], [evenNeighbour], [overflowThreshold]) and proves that
      [roundDouble] meets it; a [Number] is a double, the negative
      zero, an infinity or [NaN], and [Number_multiply], [Math_roundDouble]
      and [Number_le] are [*], [Math.round] and [<=] on them;
      [luckyDouble], [primitiveMultiplyDouble] and [trialDouble] are the
      test of line 4, the function and the loop on these numbers.  The loop
      is written once: [Retry.attempt] and [Retry.trialWith] take the
      multiplication routine and the type of the numbers as parameters.
    - [chapter 9 exercises/numbersAgain.js], in [Regex.v], [Backtrack.v],
      [Pattern.v], [Engine.v], [NumbersAgain.v] and [Scanner.v].
      [Pattern.v] reads the text of a pattern into a syntax tree
      ([parsePattern], with its inverse [printPattern]); the trees have the
      assertions [^] and [$], characters, escapes, classes, groups and the
      quantifiers [*], [+] and [?].  [Engine.v] runs a tree on an input as
      the language defines [test]: matchers with continuations for the four
      levels of the grammar ([atomMatcher] to [disjunctionMatcher]), the
      assertions checked where they stand, and the search from every index
      ([regExpBuiltinExec]); [RegExp_test] is [new RegExp(source).test(str)];
      [atomSpan] to [disjunctionSpan] say what a tree matches.
      [Regex.v] has the patterns without assertions ([regex]), their
      language [matches] and the matcher [accepts] by derivatives, which
      tests a whole string ([test]); [Backtrack.v] runs a [regex] with
      continuations and backtracking ([matcher], [repeatMatcher],
      [testBacktracking]); [Pattern.desugar] gives a tree without
      assertions its [regex], and [Pattern.compile] gives a pattern written
      between [^] and [$] the [regex] between the two.  [NumbersAgain.v]
      has the text of the literal of the program ([expressionSource]), the
      [regex] [expression] between its assertions, and [numbersAgainScript],
      the seven lines of the program as statements of [Exec.v] that print
      the answers of [RegExp_test] on a console of booleans; [Scanner.v]
      has the contract of the pattern as a function that walks over the
      string once ([isValidNumericLiteral]).
    - [Exec.v] gives a meaning to the statements the programs are made
      of: [throw], [try]/[catch], [try]/[finally], a local [let] variable,
      [for (;;)] with [break], and [console.log] through the class
      [Console], which each program's state implements; and to the
      [for ... of] loop of [graph.js] as [Prototype.v] reads it ([for_of]).
      It also has the rules by which a program [preserves] a property of
      its state, and the rule by which a loop simulates another
      ([forever_sim]).
    - [Prelude.v], this file: the hint database [js], the tactics and the
      list facts the other files share.

    The programs do not call each other.  [LockedBox.v], [Retry.v],
    [Prototype.v] and [NumbersAgain.v] use [Exec.v]; [Prototype.v] uses
    [Graph.v]; [Double.v], [RetryTree.v] and [RetryOdds.v] use [Retry.v],
    [Nearest.v] uses [Double.v], [Number.v] uses both, [RetryDouble.v] uses
    [Number.v] and [RetryOdds.v] uses [RetryDouble.v]; [Backtrack.v] and
    [Pattern.v] use [Regex.v], [Engine.v] uses both, [NumbersAgain.v] uses
    [Engine.v] and [Scanner.v] uses [NumbersAgain.v]; every file uses this
    one.

    ** What is proved

    - Graph: [buildGraph] implements the abstract adjacency mapping
      ([buildGraph_refines_adjacency]), which is stated as the class
      [GraphBuilder]; the facts a client needs (every road connects both its
      ends, no edge is invented, the keys are the ends of the roads,
      insertion order is stable, duplicates are kept) are proved for any
      builder that meets the class and then read off for [buildGraph].  The
      result is well formed ([wf_graph]: no empty array, and each place is
      listed by another as often as it lists it), its arrays hold two
      entries per road, and the class determines the builder:
      [buildGraphReversed], the loop body with its two [addEdge] calls
      swapped, meets the class as well, so the two calls commute.  On roads
      that are pairs of names [buildGraphRaw] is [buildGraph]
      ([buildGraphRaw_pairs]); on any input, arrays of any length, the
      array at a key lists the other of the first two elements of every
      road of which one of them has that key, [undefined] standing for a
      missing element, so longer roads are cut and shorter ones filled up
      ([buildGraphRaw_malformed]).  What the module exports meets the
      contract ([module_exports_contract]).  Read with the lookup of the
      language, the function on the object of line 2, which has no
      prototype, is [buildGraph] whatever the places are called
      ([buildGraphOn_null]); on an object with inherited names it completes
      exactly when no road ends at one of them and throws a [TypeError]
      otherwise ([buildGraphOn_completes]), so a place called [constructor]
      would break the function had line 2 been [let graph = {}].
    - LockedBox: [withBoxUnlocked] computes its specification [withUnlocked]
      for every body; it leaves a locked box locked on the normal and on the
      failing exit, passes the body's outcome on and grants access inside.
      A call in the body of another performs no transition: the outer call
      behaves as if the inner body stood in its place
      ([withBoxUnlocked_inner]).  What successive calls push through the
      getter stays in the array of the box, in order, with the lock as it
      was ([withBoxUnlocked_pushes_persist]).  By induction on
      [reachable], a script that uses the box through [withBoxUnlocked]
      finds it locked between its statements, where reading [content]
      throws.  The reference of the box always points to an array of the
      heap ([wf_world], kept by every operation), so the getter returns an
      array ([content_returns_array]).  The run of the program is
      computed, as written and with each of its two comments switched on
      ([lockedBoxProgram_run]).
    - Retry: [trial] ends as soon as a draw is lucky, having printed one
      failure per unlucky draw and then the product ([trial_succeeds]); it
      ends if some draw ahead is lucky ([trial_terminates]) and runs forever
      otherwise ([trial_diverges]); when it ends, it has printed the product
      and nothing wrong ([trial_sound]).  Exceptions of another kind leave
      the loop at once, and a [MultiplicatorUnitFailure] never does.
      Whatever the multiplication routine, the loop takes back no draw and
      erases no line ([trialWith_extends]).  A draw is lucky exactly below
      0.205 ([lucky_threshold]).  Computed on doubles, a draw is lucky
      exactly below [(20.5 - 2 ^ -49) / 100] ([luckyDouble_threshold]), which
      is the same on every double but the one nearest to 0.205
      ([luckyDouble_lucky]), and the product of two integers is their
      product while that is a safe integer ([Number_multiply_safe]).  On
      any two finite numbers the product is the one the standard of the
      doubles defines: a finite result is a double than which none is
      nearer to the exact product, the even one of two that are as near
      ([Number_multiply_nearest]), and the result is an infinity exactly
      from [2 ^ 1024 - 2 ^ 970] on in magnitude
      ([Number_multiply_overflow]).  So on a source of doubles that never
      draws the double nearest to 0.205, as the sources of the engines are,
      and on such integers the program on the numbers of the language goes
      through the states of [trial], printed numbers included
      ([trialDouble_trial]).  Whatever it multiplies, the program is still
      running exactly when [trial] is ([trialDouble_running]).  Whatever
      the source draws, when [trial(12, 5)] stops it has printed the
      number 60 ([retryScriptDouble_prints_60]), and every number the
      program prints is a double, an infinity, the negative zero or [NaN]
      ([trialDouble_printsNumbers]).  The loop without a bound on its turns
      returns exactly what [trial] returns with some fuel ([trialT_agrees]);
      when no draw ahead is lucky it is the tree that only makes silent
      steps ([trialT_diverges]).  On a uniform source of [N] values the
      loop is still running after [n] turns on [(N - L) ^ n] of the [N ^ n]
      runs, [L] being [41 N / 200] rounded up ([trial_odds]), so the share
      of the runs still going falls below any bound: the loop returns
      almost surely ([trial_almost_surely_returns]).
    - NumbersAgain: the parser and the printer of patterns are inverse to
      each other ([parsePattern_printPattern]).  The engine realises the
      meaning of a tree, assertions included, which [Engine.v] states as a
      relation between the rests of the input before and after a match
      ([disjunctionMatcher_realises]).  On a tree without
      assertions the engine is the backtracking matcher on the [regex] of
      the tree ([disjunctionMatcher_matcher]), and its search finds the
      substrings in the language of the pattern
      ([regExpBuiltinExec_occurs]); on a pattern written between [^] and
      [$] it answers what [test] answers for the [regex] between the two
      ([RegExp_test_compile]).  [test] answers by the language of the
      pattern ([test_decides_language]), and the backtracking matcher
      answers as [test] does ([testBacktracking_agrees]).  The literal of
      the program is such a pattern and the [regex] between its assertions
      is [expression] ([expression_compiled]); the strings on which the
      literal answers [true] are an optional sign, a mantissa and an
      optional exponent ([expression_language]), which a single pass over
      the string decides ([isValidNumericLiteral_test]); the program prints
      [true] six times and [false] for the single point.

    ** Bounds and fuel

    [trial] is an endless loop, so it is run with fuel: [Exec.forever fuel]
    makes at most [fuel] turns and answers [None] when the loop has not ended
    by then.  Fuel is never a hypothesis of a result: [trial_succeeds] gives
    the fuel that is enough ([k + 1] turns when the first lucky draw is the
    [k + 1]-th), more fuel changes nothing ([Exec.forever_mono]), and
    [trial_diverges] holds for every amount of fuel.  That the fuel model
    loses nothing is [trialT_agrees]: the interaction tree of [RetryTree.v]
    has no fuel, and it returns a result if and only if some amount of fuel
    makes [trial] return it.  The direction from the tree to the fuel reads
    the fuel off the run: a tree that returns does so after a number of
    silent steps, and every turn that asks for another one takes three of
    them.  The development uses no axiom.

    [RetryOdds.v] takes the random source to be uniform on the [N] numbers
    [k / N]; [N] is a parameter of its theorems.  The runtime draws a
    double, for which [N] is a power of two: for the divisors of [2 ^ 53],
    [trialDouble_odds] counts the runs of the loop that computes with
    doubles, and they are as many.

    Numbers are integers of [Z] and draws are rationals of [Q], computed
    exactly, in [Retry.v].  A number of the language is an IEEE double:
    [Double.v] rounds to 53 significant bits, ties to even, with the
    subnormal numbers from [2 ^ -1074] on and no double from [2 ^ 1024] on,
    and [Number.v] has the numbers that are no rationals.  [RetryDouble.v]
    relates the two models; its theorems take the draws to be doubles
    other than the double nearest to 0.205, on which the two tests differ:
    the language leaves the draws to the engine, and the multiples
    [k / 2 ^ 53] the engines in use return are such doubles
    ([engineSource_exact]); and the product [a * b] to be a safe integer,
    without which the two models print different numbers
    ([trialDouble_examples]).  The rounding is proved
    to be the rounding of the standard in [Nearest.v], for every rational,
    and compared with what an engine computes in [roundDouble_examples]
    and [Number_multiply_examples].

    The matcher of a repetition in [Backtrack.v] is bounded by the length
    of the input plus one: an iteration that consumes nothing is rejected,
    so every iteration shortens the input and the bound is never reached
    ([repeatMatcher_fuel]); [Engine.v] repeats with the same bound.  The
    parser of [Pattern.v] has the length of the text plus one as fuel:
    every call that recurses has consumed a character, and the round trip
    shows that this fuel reads every well-formed pattern back.

    Place names, array elements and messages are strings; characters are
    the 8-bit characters of [ascii].

    ** What is not modelled

    - The text the console shows for a value: a printed line is the list
      of the values passed.  The text of an exception (its stack trace) and
      of an array depends on the runtime, and the specification of the
      repository leaves console output out of scope; nothing more of the
      device can be modelled from the sources.
    - Operations on numbers other than those of the program ([*],
      [Math.round], [<=]), and the text of a number on the console.
    - The module loader ([require], its cache, the resolution of paths):
      [module_exports] is the object it hands to a client.
    - The whole of the regular expression engine of the runtime: patterns
      are those made of characters, classes, sequence, alternation, groups,
      greedy repetition and the assertions [^] and [$].  What a group
      captures, flags, lazy quantifiers, the wildcard, braces, ranges and
      negation in a class, look-around and back-references are not
      modelled, and the parser refuses their syntax; the program uses none
      of them.
    - The properties of [Object.prototype] other than their names, and
      prototypes other than [null] and [Object.prototype].
    - Values other than strings and [undefined] as place names (numbers,
      objects): the program would turn them into property names as well.
      A road is an array in [buildGraphRaw]: on a road that cannot be
      iterated ([undefined], a number) the loop of the program throws a
      [TypeError], which the model has no input for.
    - Assignments to the methods of the box: a body is any computation on
      the flag, the heap and the console, and cannot replace [box.lock] or
      [box.unlock], which are not part of the state. *)

From stdpp Require Import base tactics option list strings.

(** ** Hint database and tactics shared by the component files *)

Create HintDb js discriminated.

(** [inv H] inverts [H] and substitutes the equations it yields. *)
Ltac inv H := inversion H; subst; clear H.

(** [case_if] splits on the first [decide], boolean test or [match] scrutinee
    of the goal and simplifies both branches. *)
Ltac case_if :=
  first [ case_decide | case_bool_decide | case_match ]; simplify_eq/=.

(** ** Lists *)

Section lists.
Context {A : Type}.
Implicit Types (l k : list A) (x : A).

(** A list with an element appended is never empty: the arrays the programs
    build by [push] are non-empty. *)
Lemma snoc_not_nil l x : l ++ [x] ≠ [].
Proof. by destruct l. Qed.

End lists.

#[export] Hint Resolve snoc_not_nil : js.

(** ** Options *)

Section options.
Context {A B : Type}.
Implicit Types (x : option A) (y : option B).

(** Two options related element by element by a function. *)
Lemma option_Forall2_fmap (f : A → B) x y :
  option_Forall2 (λ a b, b = f a) x y → y = f <$> x.
Proof. by intros [a b ->|]. Qed.

(** Two related options are both present or both absent. *)
Lemma option_Forall2_is_Some (P : A → B → Prop) x y :
  option_Forall2 P x y → is_Some y ↔ is_Some x.
Proof. intros [a b _|]; [by split|by split; intros [? [=]]]. Qed.

End options.
