(* ===== verification/Exec.v ===== *)
(** * Exec: statements that change state and may throw

    The two chapter 8 programs are written with mutable objects, [throw],
    [try]/[catch], [try]/[finally] and an endless [for (;;)] loop.  This file
    gives those statements a meaning once, for both programs: a computation
    is a function from the state before to an [Outcome] and the state after.

    - [Normal a]: the statement completed with value [a];
    - [Throw e]: it threw [e] (the state changes made before the throw stay).

    [try_catch] and [try_finally] follow the completion rules of the
    language: a handler runs on the state the body left; a [finally] block
    runs on every exit and its own throw replaces the body's outcome.
    [with_local] introduces a [let] variable that the statements below it may
    assign.  [forever] is [for (;;)] with [break], run for at most [fuel]
    iterations: [None] means the loop is still running after that many.
    [for_of] is the loop over the elements of an array.
    [Console] is what a program's state must offer for [console.log] to be
    modelled: the lines printed so far and a way to add one.

    Computations are compared pointwise with [≡]; the combinators respect it
    and satisfy the monad laws.  [preserves I m] says that [m] leaves a state
    with the property [I] when it starts from one; there is a rule for each
    combinator, registered in the hint database [js]. *)

From stdpp Require Import ssreflect base tactics option list.
From S2P Require Import Prelude.

Inductive Outcome (E A : Type) : Type :=
  | Normal (a : A)
  | Throw (e : E).
Arguments Normal {E A} a.
Arguments Throw {E A} e.

Definition Exec (S E A : Type) : Type := S → Outcome E A * S.

(** How one iteration of [for (;;)] ends: [break], or on to the next one. *)
Inductive Control : Type := Break | Again.

(** A state with a console: [printed] is what was written so far, oldest
    line first, and [print] writes one more line. *)
Class Console (S V : Type) : Type := {
  printed : S → list V;
  print : V → S → S;
  printed_print v s : printed (print v s) = printed s ++ [v]
}.

Section exec.
Context {S E : Type}.
Implicit Types (s : S) (e : E).

Definition ret {A} (a : A) : Exec S E A := λ s, (Normal a, s).

Definition bind {A B} (m : Exec S E A) (k : A → Exec S E B) : Exec S E B :=
  λ s, match m s with
       | (Normal a, s') => k a s'
       | (Throw e, s') => (Throw e, s')
       end.

Definition throw {A} e : Exec S E A := λ s, (Throw e, s).

Definition gets {A} (f : S → A) : Exec S E A := λ s, (Normal (f s), s).

Definition modify (f : S → S) : Exec S E unit := λ s, (Normal tt, f s).

Definition try_catch {A} (body : Exec S E A) (handler : E → Exec S E A) : Exec S E A :=
  λ s, match body s with
       | (Normal a, s') => (Normal a, s')
       | (Throw e, s') => handler e s'
       end.

Definition try_finally {A} (body : Exec S E A) (final : Exec S E unit) : Exec S E A :=
  λ s, let '(o, s1) := body s in
       match final s1 with
       | (Normal _, s2) => (o, s2)
       | (Throw e, s2) => (Throw e, s2)
       end.

(** [console.log(v)] and [console.error(v)]: one more line. *)
Definition console_log {V} `{!Console S V} (v : V) : Exec S E unit := modify (print v).

(** [let x = init] in front of statements that read and assign [x]. *)
Definition with_local {L A} (init : L) (m : Exec (S * L) E A) : Exec S E A :=
  λ s, let '(o, (s', _)) := m (s, init) in (o, s').

(** A statement that does not mention the local variable. *)
Definition outer {L A} (m : Exec S E A) : Exec (S * L) E A :=
  λ '(s, l), let '(o, s') := m s in (o, (s', l)).

Definition get_local {L} : Exec (S * L) E L := λ sl, (Normal sl.2, sl).

Definition set_local {L} (l : L) : Exec (S * L) E unit := λ sl, (Normal tt, (sl.1, l)).

Fixpoint forever (fuel : nat) (body : Exec S E Control) s : option (Outcome E unit * S) :=
  match fuel with
  | 0 => None
  | Datatypes.S fuel =>
      match body s with
      | (Normal Break, s') => Some (Normal tt, s')
      | (Normal Again, s') => forever fuel body s'
      | (Throw e, s') => Some (Throw e, s')
      end
  end.

(** [for (const x of xs) body]: the body on every element in order; a
    throw of the body ends the loop. *)
Fixpoint for_of {A} (xs : list A) (body : A → Exec S E unit) : Exec S E unit :=
  match xs with
  | [] => ret tt
  | x :: xs => bind (body x) (λ _, for_of xs body)
  end.

(** A computation preserves a property of the state when the state it
    leaves has the property whenever the state it starts from has it,
    however it completes. *)
Definition preserves {A} (I : S → Prop) (m : Exec S E A) : Prop :=
  ∀ s, I s → I (m s).2.

End exec.

(** One turn of each of two loops, on states and exceptions of their own,
    completed alike: both ask for the next turn, and the states are related
    by [R]; or both leave the loop, by [break] or by a throw, and what the
    loops then return is related by [P]. *)
Definition alike {S1 S2 E1 E2} (R : S1 → S2 → Prop)
    (P : Outcome E1 unit * S1 → Outcome E2 unit * S2 → Prop)
    (r1 : Outcome E1 Control * S1) (r2 : Outcome E2 Control * S2) : Prop :=
  match r1.1, r2.1 with
  | Normal Again, Normal Again => R r1.2 r2.2
  | Normal Break, Normal Break => P (Normal tt, r1.2) (Normal tt, r2.2)
  | Throw e1, Throw e2 => P (Throw e1, r1.2) (Throw e2, r2.2)
  | _, _ => False
  end.

#[export] Instance exec_ret {S E} : MRet (Exec S E) := @ret S E.
#[export] Instance exec_bind {S E} : MBind (Exec S E) := λ A B k m, bind m k.
#[export] Instance exec_equiv {S E A} : Equiv (Exec S E A) := λ m1 m2, ∀ s, m1 s = m2 s.

(** [exec_unfold] exposes the functions behind the combinators; the goal then
    computes as far as the states and outcomes are known. *)
Ltac exec_unfold :=
  rw /mbind /mret /exec_bind /exec_ret /bind /ret /throw /gets /modify
          /try_catch /try_finally /with_local /outer /get_local /set_local
     /console_log /=.

Section laws.
Context {S E : Type}.
Implicit Types (s : S) (e : E).

#[export] Instance exec_equivalence {A} : Equivalence (≡@{Exec S E A}).
Proof.
  split; [by intros m s|by intros m1 m2 H s|].
  intros m1 m2 m3 H12 H23 s. by rw H12.
Qed.

#[export] Instance bind_proper {A B} :
  Proper ((≡) ==> pointwise_relation A (≡) ==> (≡)) (@bind S E A B).
Proof.
  intros m1 m2 Hm k1 k2 Hk s. rw /bind Hm.
  destruct (m2 s) as [[a|e] s']; [apply Hk|done].
Qed.

#[export] Instance try_catch_proper {A} :
  Proper ((≡) ==> pointwise_relation E (≡) ==> (≡)) (@try_catch S E A).
Proof.
  intros m1 m2 Hm h1 h2 Hh s. rw /try_catch Hm.
  destruct (m2 s) as [[a|e] s']; [done|apply Hh].
Qed.

#[export] Instance try_finally_proper {A} :
  Proper ((≡) ==> (≡) ==> (≡)) (@try_finally S E A).
Proof.
  intros m1 m2 Hm f1 f2 Hf s. rw /try_finally Hm.
  destruct (m2 s) as [o s']. by rw Hf.
Qed.

Lemma bind_ret_l {A B} (a : A) (k : A → Exec S E B) : bind (ret a) k ≡ k a.
Proof. by intros s. Qed.

Lemma bind_ret_r {A} (m : Exec S E A) : bind m ret ≡ m.
Proof. intros s. rw /bind. by destruct (m s) as [[a|e] s']. Qed.

Lemma bind_assoc {A B C} (m : Exec S E A) (k : A → Exec S E B) (h : B → Exec S E C) :
  bind (bind m k) h ≡ bind m (λ a, bind (k a) h).
Proof. intros s. rw /bind. by destruct (m s) as [[a|e] s']. Qed.

Lemma bind_throw {A B} e (k : A → Exec S E B) : bind (throw e) k ≡ throw e.
Proof. by intros s. Qed.

(** A [try] whose body does not throw never enters its handler. *)
Lemma try_catch_normal {A} (body : Exec S E A) handler s a s' :
  body s = (Normal a, s') → try_catch body handler s = (Normal a, s').
Proof. rw /try_catch. by intros ->. Qed.

Lemma try_catch_throw {A} (body : Exec S E A) handler s e s' :
  body s = (Throw e, s') → try_catch body handler s = handler e s'.
Proof. rw /try_catch. by intros ->. Qed.

(** A [finally] block that completes normally keeps the body's outcome. *)
Lemma try_finally_run {A} (body : Exec S E A) final s o s1 s2 :
  body s = (o, s1) → final s1 = (Normal tt, s2) → try_finally body final s = (o, s2).
Proof. rw /try_finally. by intros -> ->. Qed.

(** Handling every exception by rethrowing it is no handling at all. *)
Lemma try_catch_rethrow {A} (body : Exec S E A) : try_catch body throw ≡ body.
Proof. intros s. rw /try_catch. by destruct (body s) as [[a|e] s']. Qed.

(** ** The endless loop *)

Lemma forever_S fuel (body : Exec S E Control) s :
  forever (Datatypes.S fuel) body s =
  match body s with
  | (Normal Break, s') => Some (Normal tt, s')
  | (Normal Again, s') => forever fuel body s'
  | (Throw e, s') => Some (Throw e, s')
  end.
Proof. done. Qed.

(** More fuel never changes a result already reached. *)
Lemma forever_mono fuel extra (body : Exec S E Control) s r :
  forever fuel body s = Some r → forever (fuel + extra) body s = Some r.
Proof.
  revert s. induction fuel as [|fuel IH]; intros s; [done|]. simpl.
  destruct (body s) as [[[]|e] s']; auto.
Qed.

(** Two runs that both end agree, whatever their fuel. *)
Lemma forever_agree fuel1 fuel2 (body : Exec S E Control) s r1 r2 :
  forever fuel1 body s = Some r1 → forever fuel2 body s = Some r2 → r1 = r2.
Proof.
  intros H1%(forever_mono _ fuel2) H2%(forever_mono _ fuel1).
  rw (Nat.add_comm fuel2) in H2. congruence.
Qed.

(** An iteration that asks for the next one costs one unit of fuel. *)
Lemma forever_again fuel (body : Exec S E Control) s s' :
  body s = (Normal Again, s') →
  forever (Datatypes.S fuel) body s = forever fuel body s'.
Proof. simpl. by intros ->. Qed.

(** A loop whose every iteration, from the states of [I] on, asks for the
    next one and stays in [I], is still running after any number of
    iterations. *)
Lemma forever_diverges (I : S → Prop) fuel (body : Exec S E Control) s :
  (∀ s, I s → ∃ s', body s = (Normal Again, s') ∧ I s') →
  I s → forever fuel body s = None.
Proof.
  intros Hstep. revert s. induction fuel as [|fuel IH]; intros s Hs; [done|].
  destruct (Hstep s Hs) as (s' & Hbody & Hs'). rw (forever_again _ _ _ s') //. auto.
Qed.

(** ** The loop over an array *)

(** A body that never throws folds its effect over the array. *)
Lemma for_of_normal {A} (f : S → A → S) (xs : list A) (body : A → Exec S E unit) s :
  (∀ x s, x ∈ xs → body x s = (Normal tt, f s x)) →
  for_of xs body s = (Normal tt, foldl f s xs).
Proof.
  revert s. induction xs as [|x xs IH]; intros s Hbody; [done|].
  rw /= /bind Hbody; [|by left]. apply IH. intros y s' Hy. apply Hbody. by right.
Qed.

(** The first element on which the body throws ends the loop with what it
    threw, in the state it left. *)
Lemma for_of_throw {A} (xs1 xs2 : list A) x (body : A → Exec S E unit) s s1 s2 e :
  for_of xs1 body s = (Normal tt, s1) → body x s1 = (Throw e, s2) →
  for_of (xs1 ++ x :: xs2) body s = (Throw e, s2).
Proof.
  revert s. induction xs1 as [|y xs1 IH]; intros s; simpl.
  - intros [= <-] Hx. by rw /bind Hx.
  - rw /bind. destruct (body y s) as [[[]|e'] s'] eqn:Hy; [|done]. apply IH.
Qed.

(** ** Invariants

    One rule per combinator; with the hints of the database [js], that a
    program preserves a property follows from what its primitive steps do. *)

Lemma preserves_ret {A} (I : S → Prop) (a : A) : preserves I (mret a : Exec S E A).
Proof. by intros s. Qed.

Lemma preserves_throw {A} (I : S → Prop) e : preserves I (throw e : Exec S E A).
Proof. by intros s. Qed.

Lemma preserves_gets {A} (I : S → Prop) (f : S → A) : preserves I (gets f : Exec S E A).
Proof. by intros s. Qed.

Lemma preserves_modify (I : S → Prop) (f : S → S) :
  (∀ s, I s → I (f s)) → preserves I (modify f : Exec S E unit).
Proof. intros Hf s. apply Hf. Qed.

Lemma preserves_bind {A B} (I : S → Prop) (m : Exec S E A) (k : A → Exec S E B) :
  preserves I m → (∀ a, preserves I (k a)) → preserves I (m ≫= k).
Proof.
  intros Hm Hk s Hs. specialize (Hm s Hs). rw /mbind /exec_bind /bind.
  destruct (m s) as [[a|e] s']; [by apply Hk|done].
Qed.

Lemma preserves_try_catch {A} (I : S → Prop) (body : Exec S E A) handler :
  preserves I body → (∀ e, preserves I (handler e)) → preserves I (try_catch body handler).
Proof.
  intros Hbody Hhandler s Hs. specialize (Hbody s Hs). rw /try_catch.
  destruct (body s) as [[a|e] s']; [done|by apply Hhandler].
Qed.

Lemma preserves_try_finally {A} (I : S → Prop) (body : Exec S E A) final :
  preserves I body → preserves I final → preserves I (try_finally body final).
Proof.
  intros Hbody Hfinal s Hs. specialize (Hbody s Hs). rw /try_finally.
  destruct (body s) as [o s1]. specialize (Hfinal s1 Hbody).
  by destruct (final s1) as [[[]|e] s2].
Qed.

Lemma preserves_console_log {V} `{!Console S V} (I : S → Prop) (v : V) :
  (∀ s, I s → I (print v s)) → preserves I (console_log v : Exec S E unit).
Proof. apply preserves_modify. Qed.

(** Under [let], the property speaks of the state without the variable. *)
Lemma preserves_outer {L A} (I : S → Prop) (m : Exec S E A) :
  preserves I m → preserves (I ∘ fst) (outer m : Exec (S * L) E A).
Proof. intros Hm [s l] Hs. specialize (Hm s Hs). simpl. by destruct (m s). Qed.

Lemma preserves_get_local {L} (I : S → Prop) :
  preserves (I ∘ fst) (get_local : Exec (S * L) E L).
Proof. by intros s. Qed.

Lemma preserves_set_local {L} (I : S → Prop) (l : L) :
  preserves (I ∘ fst) (set_local l : Exec (S * L) E unit).
Proof. by intros s. Qed.

Lemma preserves_with_local {L A} (I : S → Prop) (init : L) (m : Exec (S * L) E A) :
  preserves (I ∘ fst) m → preserves I (with_local init m).
Proof.
  intros Hm s Hs. specialize (Hm (s, init) Hs). rw /with_local.
  by destruct (m (s, init)) as [o [s' l]].
Qed.

(** A loop whose body preserves a property ends, when it ends, in a state
    that has it. *)
Lemma preserves_for_of {A} (I : S → Prop) (xs : list A) (body : A → Exec S E unit) :
  (∀ x, preserves I (body x)) → preserves I (for_of xs body).
Proof.
  intros Hbody. induction xs as [|x xs IH]; [by apply preserves_ret|].
  by apply preserves_bind.
Qed.

Lemma preserves_forever (I : S → Prop) fuel (body : Exec S E Control) s r :
  preserves I body → I s → forever fuel body s = Some r → I r.2.
Proof.
  intros Hbody. revert s. induction fuel as [|fuel IH]; intros s Hs; [done|].
  specialize (Hbody s Hs). rw forever_S.
  destruct (body s) as [[[]|e] s']; [by intros [= <-]|by apply IH|by intros [= <-]].
Qed.

End laws.

(** ** Simulation of a loop by another *)

(** Two loops whose turns complete alike from related states run alike:
    with the same fuel both are still running, or both have returned, and
    what they return is related. *)
Lemma forever_sim {S1 S2 E1 E2} (R : S1 → S2 → Prop)
    (P : Outcome E1 unit * S1 → Outcome E2 unit * S2 → Prop)
    fuel (body1 : Exec S1 E1 Control) (body2 : Exec S2 E2 Control) s1 s2 :
  (∀ s1 s2, R s1 s2 → alike R P (body1 s1) (body2 s2)) →
  R s1 s2 → option_Forall2 P (forever fuel body1 s1) (forever fuel body2 s2).
Proof.
  intros Hbody. revert s1 s2. induction fuel as [|fuel IH]; intros s1 s2 Hs; [constructor|].
  specialize (Hbody s1 s2 Hs). rw !forever_S /alike in Hbody |- *.
  destruct (body1 s1) as [[[]|e1] s1'], (body2 s2) as [[[]|e2] s2'];
    try done; [by constructor|by apply IH|by constructor].
Qed.

#[export] Hint Resolve preserves_ret preserves_throw preserves_gets preserves_bind
  preserves_try_catch preserves_try_finally preserves_outer preserves_get_local
  preserves_set_local preserves_with_local preserves_for_of : js.
