(* ===== verification/Graph.v ===== *)
(** * Graph: the road-network builder of [roadModules/graph.js]

    [buildGraph] turns a list of roads (pairs of place names) into an object
    that maps every place to the array of places one road away.  The object
    is created with [Object.create(null)], so it has no inherited property:
    it is a finite map from strings to arrays, modelled as a [gmap] from
    [string] to [list string].  The closure [addEdge] mutates the object; here
    it takes and returns the map.

    The file states what the builder promises as the class [GraphBuilder]
    (the contract behind [module.exports.buildGraph]), proves the client
    facts against that class, and discharges it for [buildGraph].

    [buildGraphRaw] reads the same lines without assuming that a road is a
    pair of names, and [module_exports] is the object the file exports. *)

From stdpp Require Import ssreflect base tactics option list strings gmap.
From S2P Require Import Prelude.

Implicit Types (from to n a b : string) (graph : gmap string (list string)).
Implicit Types (road : string * string) (roads : list (string * string)).

(** ** The program *)

(** [addEdge(from, to)]: a place seen for the first time gets the array
    [[to]]; a place already present gets [to] pushed at the end of its array.
    The test [!graph[from]] is true exactly when the key is absent, since
    every value stored is an array and arrays are truthy. *)
Definition addEdge from to graph : gmap string (list string) :=
  match graph !! from with
  | None => <[from := [to]]> graph
  | Some l => <[from := l ++ [to]]> graph
  end.

(** The body of the [for (let [from, to] of roads)] loop: both directions. *)
Definition addRoad graph road : gmap string (list string) :=
  let '(from, to) := road in addEdge to from (addEdge from to graph).

(** [buildGraph(roads)]: start from the empty object, run the loop body on
    every road in order, return the object. *)
Definition buildGraph roads : gmap string (list string) :=
  foldl addRoad ∅ roads.

(** The loop body with its two calls in the other order, and the builder
    that runs it: a variant of the program, used to show that the order of
    the two calls cannot be observed. *)
Definition addRoadReversed graph road : gmap string (list string) :=
  let '(from, to) := road in addEdge from to (addEdge to from graph).

Definition buildGraphReversed roads : gmap string (list string) :=
  foldl addRoadReversed ∅ roads.

(** ** The program on any input

    [buildGraph] above takes roads that are pairs of place names.  The
    program takes what it is given: a road is an array, the loop reads its
    first two elements and ignores the others, a missing element is
    [undefined], and a value used as a property name is turned into a
    string.  [buildGraphRaw] models that; on roads that are pairs of names it
    is [buildGraph]. *)

Inductive value : Type :=
  | Undefined
  | Place (name : string).

(** The property name a value denotes. *)
Definition toPropertyKey (v : value) : string :=
  match v with
  | Undefined => "undefined"
  | Place name => name
  end.

(** [let [from, to] = road]. *)
Definition destructure (road : list value) : value * value :=
  (default Undefined (road !! 0), default Undefined (road !! 1)).

Definition addEdgeRaw (from to : value) (graph : gmap string (list value)) :
    gmap string (list value) :=
  match graph !! toPropertyKey from with
  | None => <[toPropertyKey from := [to]]> graph
  | Some l => <[toPropertyKey from := l ++ [to]]> graph
  end.

Definition addRoadRaw (graph : gmap string (list value)) (road : list value) :
    gmap string (list value) :=
  let '(from, to) := destructure road in addEdgeRaw to from (addEdgeRaw from to graph).

Definition buildGraphRaw (roads : list (list value)) : gmap string (list value) :=
  foldl addRoadRaw ∅ roads.

(** A road of two names as the array the program receives, and a graph of
    names as the object it returns. *)
Definition pairRoad (road : string * string) : list value := [Place road.1; Place road.2].
Definition placed (graph : gmap string (list string)) : gmap string (list value) :=
  (λ l : list string, Place <$> l) <$> graph.

(** What a road of any length contributes to the array at key [n]: the
    program reads its first two elements, [undefined] for one that is
    missing; the second goes to the array at the key of the first, then the
    first to the array at the key of the second. *)
Definition roadEndsRaw n (road : list value) : list value :=
  (if decide (toPropertyKey (nth 0 road Undefined) = n) then [nth 1 road Undefined] else []) ++
  (if decide (toPropertyKey (nth 1 road Undefined) = n) then [nth 0 road Undefined] else []).

(** The object the program builds from any input, key by key. *)
Definition adjacencyRaw (roads : list (list value)) n : option (list value) :=
  match roads ≫= roadEndsRaw n with [] => None | l => Some l end.

(** ** The contract *)

(** What a client reads at [graph[n]]: the array, or nothing ([undefined]),
    which we read as no neighbour. *)
Definition neighbours graph n : list string := default [] (graph !! n).

(** The ends a single road contributes to the array of place [n]: its
    destination when it starts at [n], then its origin when it ends at [n]
    (a road from [n] to [n] contributes [n] twice). *)
Definition roadEnds n road : list string :=
  (if decide (road.1 = n) then [road.2] else []) ++
  (if decide (road.2 = n) then [road.1] else []).

(** The neighbours of [n] in the order in which the roads list them. *)
Definition adjacent roads n : list string := roads ≫= roadEnds n.

(** The abstract adjacency mapping: a place is a key exactly when some road
    touches it. *)
Definition adjacency roads n : option (list string) :=
  match adjacent roads n with [] => None | l => Some l end.

(** The contract of a graph builder. *)
Class GraphBuilder (build : list (string * string) → gmap string (list string)) :=
  build_adjacency : ∀ roads n, build roads !! n = adjacency roads n.

(** How many times a place is listed in an array. *)
Definition occurrences b (l : list string) : nat := length (filter (λ x, x = b) l).

(** Well-formedness of a graph object: no key holds an empty array, the
    neighbour relation is symmetric, and [b] is listed in the array of [a] as
    many times as [a] in the array of [b]. *)
Definition populated graph : Prop := ∀ n, graph !! n ≠ Some [].

Record wf_graph graph : Prop := WfGraph {
  wf_populated : populated graph;
  wf_symmetric : ∀ a b, b ∈ neighbours graph a ↔ a ∈ neighbours graph b;
  wf_balanced : ∀ a b,
    occurrences b (neighbours graph a) = occurrences a (neighbours graph b)
}.

(** The sum of the lengths of all arrays (twice the number of roads). *)
Definition degreeSum graph : nat := map_fold (λ _ l k, length l + k) 0 graph.

(** ** The module *)

(** [module.exports.buildGraph = buildGraph]: the object a client obtains
    from [require], an empty object to which the last statement of the file
    adds one property. *)
Definition module_exports : gmap string (list (string * string) → gmap string (list string)) :=
  <["buildGraph" := buildGraph]> ∅.

(** ** Lemmas on [addEdge] and [addRoad] *)

Lemma addEdge_insert from to graph :
  addEdge from to graph = <[from := neighbours graph from ++ [to]]> graph.
Proof. rw /addEdge /neighbours. by destruct (graph !! from). Qed.

Lemma neighbours_addEdge from to graph n :
  neighbours (addEdge from to graph) n =
  neighbours graph n ++ (if decide (from = n) then [to] else []).
Proof.
  rw addEdge_insert {1}/neighbours lookup_insert.
  case_if; [done|]. by rw app_nil_r.
Qed.

Lemma neighbours_addRoad graph road n :
  neighbours (addRoad graph road) n = neighbours graph n ++ roadEnds n road.
Proof.
  destruct road as [from to].
  by rw /addRoad !neighbours_addEdge -app_assoc.
Qed.

(** The two calls of the loop body commute: they touch different arrays,
    or they are the same call. *)
Lemma addEdge_swap from to graph :
  addEdge to from (addEdge from to graph) = addEdge from to (addEdge to from graph).
Proof.
  destruct (decide (from = to)) as [->|Hne]; [done|].
  rw !addEdge_insert /neighbours !lookup_insert_ne //. by apply insert_insert_ne.
Qed.

Lemma addRoadReversed_addRoad graph road : addRoadReversed graph road = addRoad graph road.
Proof. destruct road as [from to]. by rw /addRoadReversed /addRoad addEdge_swap. Qed.

Lemma buildGraphReversed_buildGraph roads : buildGraphReversed roads = buildGraph roads.
Proof.
  rw /buildGraphReversed /buildGraph. generalize (∅ : gmap string (list string)).
  induction roads as [|road roads IH]; intros graph; [done|].
  by rw /= addRoadReversed_addRoad IH.
Qed.

Lemma neighbours_foldl roads graph n :
  neighbours (foldl addRoad graph roads) n = neighbours graph n ++ adjacent roads n.
Proof.
  revert graph. induction roads as [|road roads IH]; intros graph; simpl.
  - by rw app_nil_r.
  - by rw IH neighbours_addRoad -app_assoc.
Qed.

Lemma elem_of_roadEnds n road b :
  b ∈ roadEnds n road ↔ road = (n, b) ∨ road = (b, n).
Proof.
  destruct road as [from to]. rw /roadEnds /= elem_of_app.
  repeat case_decide; rw ?list_elem_of_singleton ?elem_of_nil; naive_solver.
Qed.

Lemma elem_of_adjacent roads n b :
  b ∈ adjacent roads n ↔ (n, b) ∈ roads ∨ (b, n) ∈ roads.
Proof.
  rw /adjacent list_elem_of_bind. setoid_rewrite elem_of_roadEnds. naive_solver.
Qed.

(** ** The program on any input, on roads that are pairs *)

Lemma addEdgeRaw_placed from to graph :
  addEdgeRaw (Place from) (Place to) (placed graph) = placed (addEdge from to graph).
Proof.
  rw /addEdgeRaw /addEdge /placed /= lookup_fmap.
  destruct (graph !! from) as [l|]; by rw /= fmap_insert ?fmap_app.
Qed.

Lemma addRoadRaw_placed graph road :
  addRoadRaw (placed graph) (pairRoad road) = placed (addRoad graph road).
Proof. destruct road as [from to]. by rw /addRoadRaw /addRoad /= !addEdgeRaw_placed. Qed.

Lemma foldl_addRoadRaw_placed roads graph :
  foldl addRoadRaw (placed graph) (pairRoad <$> roads) = placed (foldl addRoad graph roads).
Proof.
  revert graph. induction roads as [|road roads IH]; intros graph; [done|].
  by rw /= addRoadRaw_placed IH.
Qed.

(** ** The program on any input, key by key *)

Lemma destructure_nth (road : list value) :
  destructure road = (nth 0 road Undefined, nth 1 road Undefined).
Proof. by destruct road as [|x [|y road]]. Qed.

(** The array at a key after one road, and after all of them. *)
Lemma lookup_addEdgeRaw (from to : value) (graph : gmap string (list value)) n :
  default [] (addEdgeRaw from to graph !! n) =
  default [] (graph !! n) ++ (if decide (toPropertyKey from = n) then [to] else []).
Proof.
  rw /addEdgeRaw. case_decide as Hn.
  - rw -Hn. destruct (graph !! toPropertyKey from); by rw lookup_insert_eq.
  - rw app_nil_r. destruct (graph !! toPropertyKey from); by rw lookup_insert_ne.
Qed.

Lemma lookup_addRoadRaw (graph : gmap string (list value)) (road : list value) n :
  default [] (addRoadRaw graph road !! n) = default [] (graph !! n) ++ roadEndsRaw n road.
Proof. by rw /addRoadRaw destructure_nth !lookup_addEdgeRaw -app_assoc. Qed.

Lemma lookup_foldl_addRoadRaw (roads : list (list value)) (graph : gmap string (list value)) n :
  default [] (foldl addRoadRaw graph roads !! n) =
  default [] (graph !! n) ++ (roads ≫= roadEndsRaw n).
Proof.
  revert graph. induction roads as [|road roads IH]; intros graph; simpl.
  - by rw app_nil_r.
  - by rw IH lookup_addRoadRaw -app_assoc.
Qed.

(** No key holds an empty array: a key is created with one element. *)
Lemma addEdgeRaw_populated (from to : value) (graph : gmap string (list value)) :
  (∀ n, graph !! n ≠ Some []) → ∀ n, addEdgeRaw from to graph !! n ≠ Some [].
Proof.
  intros Hgraph n. rw /addEdgeRaw.
  destruct (decide (toPropertyKey from = n)) as [<-|Hn].
  - destruct (graph !! toPropertyKey from) as [[|x l]|]; by rw lookup_insert_eq.
  - destruct (graph !! toPropertyKey from); by rw lookup_insert_ne.
Qed.

Lemma foldl_addRoadRaw_populated (roads : list (list value)) (graph : gmap string (list value)) :
  (∀ n, graph !! n ≠ Some []) → ∀ n, foldl addRoadRaw graph roads !! n ≠ Some [].
Proof.
  revert graph. induction roads as [|road roads IH]; intros graph Hgraph; [done|].
  apply IH. rw /addRoadRaw. destruct (destructure road). by do 2 apply addEdgeRaw_populated.
Qed.

Lemma lookup_buildGraphRaw (roads : list (list value)) n :
  buildGraphRaw roads !! n = adjacencyRaw roads n.
Proof.
  pose proof (lookup_foldl_addRoadRaw roads ∅ n) as Hlookup.
  pose proof (foldl_addRoadRaw_populated roads ∅) as Hpopulated.
  rw lookup_empty /= -/(buildGraphRaw roads) in Hlookup. rw /adjacencyRaw -Hlookup.
  destruct (buildGraphRaw roads !! n) as [[|x l]|] eqn:Hn; [|done..].
  by destruct (Hpopulated ltac:(intros ?; by rw lookup_empty) n).
Qed.

(** Two inputs of which the program reads the same build the same object. *)
Lemma buildGraphRaw_ext (f : list value → list value) (roads : list (list value)) :
  (∀ road : list value, destructure (f road) = destructure road) →
  buildGraphRaw (f <$> roads) = buildGraphRaw roads.
Proof.
  intros Hf. rw /buildGraphRaw. generalize (∅ : gmap string (list value)).
  induction roads as [|road roads IH]; intros graph; [done|].
  by rw /= IH /addRoadRaw Hf.
Qed.

(** ** The invariant *)

Lemma populated_empty : populated ∅.
Proof. intros n. by rw lookup_empty. Qed.

Lemma populated_addEdge from to graph :
  populated graph → populated (addEdge from to graph).
Proof.
  intros Hg n. rw addEdge_insert lookup_insert.
  case_decide; [|done]. intros [=Hl]. by eapply snoc_not_nil.
Qed.

Lemma populated_lookup graph n :
  populated graph →
  graph !! n = match neighbours graph n with [] => None | l => Some l end.
Proof.
  intros Hg. specialize (Hg n). rw /neighbours.
  by destruct (graph !! n) as [[|??]|].
Qed.

Lemma occurrences_app b (l k : list string) :
  occurrences b (l ++ k) = occurrences b l + occurrences b k.
Proof. by rw /occurrences filter_app length_app. Qed.

(** A road gives [a] the neighbour [b] as often as it gives [b] the
    neighbour [a]. *)
Lemma occurrences_roadEnds a b road :
  occurrences b (roadEnds a road) = occurrences a (roadEnds b road).
Proof.
  destruct road as [from to]. rw /roadEnds !occurrences_app /occurrences /=.
  repeat (case_decide; simplify_eq/=); rw ?filter_cons ?filter_nil;
    repeat (case_decide; simplify_eq/=); lia.
Qed.

Lemma wf_graph_empty : wf_graph ∅.
Proof.
  split; [apply populated_empty| |]; intros a b; by rw /neighbours !lookup_empty /= ?elem_of_nil.
Qed.

Lemma wf_graph_addRoad graph road : wf_graph graph → wf_graph (addRoad graph road).
Proof.
  intros [Hp Hs Hb]. split.
  - destruct road. rw /addRoad. auto using populated_addEdge.
  - intros a b. rw !neighbours_addRoad !(elem_of_app (neighbours _ _)) !elem_of_roadEnds Hs.
    naive_solver.
  - intros a b.
    by rw !neighbours_addRoad !(occurrences_app _ (neighbours _ _)) Hb occurrences_roadEnds.
Qed.

Lemma wf_graph_foldl roads graph : wf_graph graph → wf_graph (foldl addRoad graph roads).
Proof. revert graph. induction roads; simpl; auto using wf_graph_addRoad. Qed.

(** In a well-formed graph every neighbour is itself a key. *)
Lemma wf_graph_closed graph a b :
  wf_graph graph → b ∈ neighbours graph a → is_Some (graph !! b).
Proof.
  intros [_ Hs _] Hb%Hs. rw /neighbours in Hb.
  destruct (graph !! b); [done|]. by apply elem_of_nil in Hb.
Qed.

(** ** The sum of the degrees *)

Lemma degreeSum_insert graph n l :
  degreeSum (<[n := l]> graph) + length (neighbours graph n) =
  degreeSum graph + length l.
Proof.
  rw /degreeSum /neighbours. destruct (graph !! n) as [l0|] eqn:Hn; simpl.
  - rw -insert_delete_eq (map_fold_delete_L _ _ n l0 graph); [|intros; lia|done].
    rw map_fold_insert_L; [lia|intros; lia|apply lookup_delete_eq].
  - rw map_fold_insert_L; [lia|intros; lia|done].
Qed.

Lemma degreeSum_addEdge from to graph :
  degreeSum (addEdge from to graph) = S (degreeSum graph).
Proof.
  pose proof (degreeSum_insert graph from (neighbours graph from ++ [to])) as H.
  rw addEdge_insert. rw length_app /= in H. lia.
Qed.

Lemma degreeSum_foldl roads graph :
  degreeSum (foldl addRoad graph roads) = degreeSum graph + 2 * length roads.
Proof.
  revert graph. induction roads as [|[from to] roads IH]; intros graph; simpl; [lia|].
  rw IH /addRoad !degreeSum_addEdge. lia.
Qed.

(** ** The builder meets its contract *)

Lemma lookup_buildGraph roads n : buildGraph roads !! n = adjacency roads n.
Proof.
  rw (populated_lookup (buildGraph roads)); [|apply wf_graph_foldl, wf_graph_empty].
  by rw /buildGraph neighbours_foldl.
Qed.

#[export] Instance buildGraph_builder : GraphBuilder buildGraph := lookup_buildGraph.

#[export] Instance buildGraphReversed_builder : GraphBuilder buildGraphReversed.
Proof. intros roads n. by rw buildGraphReversed_buildGraph lookup_buildGraph. Qed.

(** ** What clients of a builder can rely on *)

Section client.
Context (build : list (string * string) → gmap string (list string)).
Context `{!GraphBuilder build}.

Lemma build_neighbours roads n : neighbours (build roads) n = adjacent roads n.
Proof. rw /neighbours build_adjacency /adjacency. by destruct (adjacent roads n). Qed.

Lemma build_unique roads : build roads = buildGraph roads.
Proof. apply map_eq; intros n. by rw (build_adjacency (build:=build)) lookup_buildGraph. Qed.

Lemma build_elem_of roads a b :
  b ∈ neighbours (build roads) a ↔ (a, b) ∈ roads ∨ (b, a) ∈ roads.
Proof. by rw build_neighbours elem_of_adjacent. Qed.

Lemma build_is_Some roads n :
  is_Some (build roads !! n) ↔ n ∈ roads.*1 ∨ n ∈ roads.*2.
Proof.
  rw build_adjacency /adjacency !list_elem_of_fmap. split.
  - destruct (adjacent roads n) as [|b l] eqn:Hl; [by intros [??]|intros _].
    assert (b ∈ adjacent roads n) as Hb by (rw Hl; left).
    apply elem_of_adjacent in Hb as [?|?]; [left|right]; by eexists (_, _).
  - intros Hn. assert (∃ b, b ∈ adjacent roads n) as [b Hb].
    { setoid_rewrite elem_of_adjacent. destruct Hn as [[[a b] [-> ?]]|[[a b] [-> ?]]]; eauto. }
    destruct (adjacent roads n); [by apply elem_of_nil in Hb|done].
Qed.

Lemma build_stable roads more n :
  neighbours (build roads) n `prefix_of` neighbours (build (roads ++ more)) n.
Proof. rw !build_neighbours /adjacent bind_app. by apply prefix_app_r. Qed.

End client.

(** ** Properties of [buildGraph] *)

(** C1. [buildGraph] implements the abstract adjacency mapping: the value
    stored at a place is the list of the other ends of the roads that touch
    it, in the order of the roads, and a place no road touches is not a key. *)
Theorem buildGraph_refines_adjacency roads n :
  buildGraph roads !! n = adjacency roads n.
Proof. apply lookup_buildGraph. Qed.

(** C4. Undirected closure: for every road from [a] to [b] of the input, [b]
    is in the array of [a] and [a] is in the array of [b]. *)
Theorem buildGraph_connects roads a b :
  (a, b) ∈ roads →
  b ∈ neighbours (buildGraph roads) a ∧ a ∈ neighbours (buildGraph roads) b.
Proof. intros Hab. rw !(build_elem_of buildGraph). auto. Qed.

Lemma buildGraph_connects_witness :
  "Farm" ∈ neighbours (buildGraph [("Alice", "Bob"); ("Shop", "Farm")]) "Shop" ∧
  "Shop" ∈ neighbours (buildGraph [("Alice", "Bob"); ("Shop", "Farm")]) "Farm".
Proof. apply buildGraph_connects. right; left. Defined.

(** No spurious edge: a place [b] appears in the array of [a] only if the
    input holds a road between [a] and [b], in one direction or the other. *)
Theorem buildGraph_no_spurious roads a b :
  b ∈ neighbours (buildGraph roads) a → (a, b) ∈ roads ∨ (b, a) ∈ roads.
Proof. by rw (build_elem_of buildGraph). Qed.

Lemma buildGraph_no_spurious_witness :
  ("Bob", "Alice") ∈ [("Alice", "Bob")] ∨ ("Alice", "Bob") ∈ [("Alice", "Bob")].
Proof.
  apply (buildGraph_no_spurious [("Alice", "Bob")] "Bob" "Alice"). vm_compute. left.
Defined.

(** C36. The graph [buildGraph] returns is well formed: no key holds an empty
    array, [b] is a neighbour of [a] exactly when [a] is one of [b], and [b]
    is listed in the array of [a] as many times as [a] in the array of [b]. *)
Theorem buildGraph_wf roads : wf_graph (buildGraph roads).
Proof. apply wf_graph_foldl, wf_graph_empty. Qed.

(** A road from a place to itself is recorded twice in that place's
    array, once for each call of [addEdge]. *)
Theorem buildGraph_self_loop n : buildGraph [(n, n)] = {[n := [n; n]]}.
Proof.
  rw /buildGraph /= !addEdge_insert /neighbours lookup_empty /= lookup_insert_eq /=.
  by rw insert_insert_eq insert_empty.
Qed.

(** [buildGraph] returns the empty object exactly on the empty list of
    roads. *)
Lemma buildGraph_empty_iff roads : buildGraph roads = ∅ ↔ roads = [].
Proof.
  split; [|by intros ->]. destruct roads as [|[a b] roads]; [done|]. intros Hg.
  assert (is_Some (buildGraph ((a, b) :: roads) !! a)) as [l Hl].
  { apply (build_is_Some buildGraph). left; left. }
  by rw Hg lookup_empty in Hl.
Qed.

(** The keys of the graph are the places that occur as an end of some
    road, whichever end. *)
Theorem buildGraph_keys roads n :
  is_Some (buildGraph roads !! n) ↔ n ∈ roads.*1 ∨ n ∈ roads.*2.
Proof. apply (build_is_Some buildGraph). Qed.

(** Handshake: the arrays of the graph hold two entries per road. *)
Theorem buildGraph_degreeSum roads :
  degreeSum (buildGraph roads) = 2 * length roads.
Proof. by rw /buildGraph degreeSum_foldl /degreeSum map_fold_empty. Qed.

(** Insertion order is stable: the array of a place in the graph of a
    list of roads is a prefix of its array in the graph of any longer list. *)
Theorem buildGraph_stable roads more n :
  neighbours (buildGraph roads) n `prefix_of`
  neighbours (buildGraph (roads ++ more)) n.
Proof. apply (build_stable buildGraph). Qed.

(** No deduplication: supplying the same roads twice doubles every
    array. *)
Theorem buildGraph_no_dedup roads n :
  neighbours (buildGraph (roads ++ roads)) n =
  neighbours (buildGraph roads) n ++ neighbours (buildGraph roads) n.
Proof. by rw !(build_neighbours buildGraph) /adjacent bind_app. Qed.

(** The contract determines the builder: any function that meets
    [GraphBuilder] returns, on every input, the object [buildGraph] returns. *)
Theorem builder_unique build roads :
  GraphBuilder build → build roads = buildGraph roads.
Proof. intros Hbuild. by apply build_unique. Qed.

Lemma builder_unique_witness :
  buildGraphReversed [("Alice", "Bob"); ("Bob", "Bob")] =
  buildGraph [("Alice", "Bob"); ("Bob", "Bob")].
Proof. apply (builder_unique buildGraphReversed), buildGraphReversed_builder. Defined.

(** The order of the two calls of [addEdge] in the loop body cannot be
    observed: the builder with the calls swapped returns the same object on
    every list of roads. *)
Theorem buildGraph_calls_commute roads : buildGraphReversed roads = buildGraph roads.
Proof. apply buildGraphReversed_buildGraph. Qed.

(** The module exports one name, [buildGraph], and the function a client
    finds under it meets the contract of a graph builder. *)
Theorem module_exports_contract name build :
  module_exports !! name = Some build → name = "buildGraph" ∧ GraphBuilder build.
Proof.
  rw /module_exports lookup_insert_Some lookup_empty.
  intros [[<- <-]|[_ ?]]; [|done]. split; [done|apply _].
Qed.

Lemma module_exports_contract_witness : "buildGraph" = "buildGraph" ∧ GraphBuilder buildGraph.
Proof. by apply (module_exports_contract "buildGraph" buildGraph). Defined.

(** C37. On roads that are pairs of names, the program as it reads any input
    is [buildGraph]: it builds the same object. *)
Theorem buildGraphRaw_pairs roads :
  buildGraphRaw (pairRoad <$> roads) = placed (buildGraph roads).
Proof. rw /buildGraphRaw /buildGraph -foldl_addRoadRaw_placed. by rw /placed fmap_empty. Qed.

(** C38. The program on any input.  Whatever arrays the roads are, of any
    length and with elements that are missing, the array at a key lists, in
    the order of the roads, the second element of every road whose first
    has that key and the first element of every road whose second has that
    key, [undefined] standing for a missing element; a key is present
    exactly when that list has an element.  So the elements of a road after
    the second are ignored, and a road that is too short is read as the
    road filled up with [undefined]. *)
Theorem buildGraphRaw_malformed (roads : list (list value)) :
  (∀ n, buildGraphRaw roads !! n = adjacencyRaw roads n) ∧
  buildGraphRaw (take 2 <$> roads) = buildGraphRaw roads ∧
  buildGraphRaw ((λ road : list value, road ++ [Undefined; Undefined]) <$> roads) =
    buildGraphRaw roads.
Proof.
  split; [apply lookup_buildGraphRaw|].
  split; apply buildGraphRaw_ext; by intros [|x [|y road]].
Qed.

(** A road with one element connects its place to the key ["undefined"],
    the key a place of that name would have. *)
Example buildGraphRaw_undefined :
  buildGraphRaw [[Place "a"]] = {["a" := [Undefined]; "undefined" := [Place "a"]]} ∧
  dom (buildGraphRaw [[Place "a"]]) = dom (buildGraphRaw [[Place "a"; Place "undefined"]]).
Proof.
  by rw /buildGraphRaw /= /addRoadRaw /= /addEdgeRaw /= !lookup_empty !lookup_insert_ne.
Qed.
