(* ===== verification/Prototype.v ===== *)
(** * Prototype: the graph object and the names it inherits

    [Graph.v] reads [graph[from]] as a lookup in a finite map.  In the
    language the lookup goes on in the prototype of the object when the
    object has no property of that name, and every object written [{}]
    inherits the properties of [Object.prototype]: [constructor],
    [toString], [__proto__] and others.  Line 2 of [graph.js] creates the
    graph with [Object.create(null)], an object without a prototype.

    This file reads the program once more with the prototype as a parameter.
    An [object] has its own properties and a list of inherited names;
    [addEdgeOn] is [addEdge] as a statement that mutates the object:
    [!graph[from]] is false for an inherited name, whose value is a function
    or an object, and [graph[from].push(to)] then throws a [TypeError], as
    what is inherited has no [push].  [buildGraphOn proto roads] is the
    function run on an object created with the prototype [proto].

    On the object of the program, the one without a prototype, this is
    [Graph.buildGraph] for every input ([buildGraphOn_null]); on an object
    with inherited names the function throws exactly when a road has one of
    them as an end ([buildGraphOn_completes]). *)

From stdpp Require Import ssreflect base tactics option list strings gmap.
From S2P Require Import Prelude Exec Graph.

(** ** Objects *)

Inductive error : Type :=
  | TypeError (message : string).

(** An object whose properties are arrays: the names its prototype chain
    provides, and its own properties. *)
Record object : Type := Object {
  inherited : list string;
  own : gmap string (list string)
}.

(** What [graph[name]] evaluates to: an array of the object itself, a value
    found in the prototype chain, or [undefined]. *)
Inductive property : Type :=
  | Array (l : list string)
  | Inherited
  | Absent.

Implicit Types (from to name : string) (graph : object) (proto : list string).
Implicit Types (road : string * string) (roads : list (string * string)).

(** [Object.create(proto)]: a new object without properties of its own. *)
Definition Object_create proto : object := {| inherited := proto; own := ∅ |}.

(** The prototype [null] provides no name. *)
Definition null : list string := [].

(** The names [Object.prototype] provides. *)
Definition Object_prototype : list string :=
  ["constructor"; "__defineGetter__"; "__defineSetter__"; "hasOwnProperty";
   "__lookupGetter__"; "__lookupSetter__"; "isPrototypeOf"; "propertyIsEnumerable";
   "toString"; "valueOf"; "__proto__"; "toLocaleString"].

(** [graph[name]]. *)
Definition Get name graph : property :=
  match own graph !! name with
  | Some l => Array l
  | None => if decide (name ∈ inherited graph) then Inherited else Absent
  end.

(** [graph[name] = l] where the object inherits no setter for [name]. *)
Definition CreateDataProperty name (l : list string) graph : object :=
  {| inherited := inherited graph; own := <[name := l]> (own graph) |}.

(** ** The program *)

(** [addEdge(from, to)]: the test [!graph[from]] holds for [undefined]
    only; otherwise [push] is called on what was found. *)
Definition addEdgeOn from to : Exec object error unit :=
  v ← gets (Get from);
  match v with
  | Absent => modify (CreateDataProperty from [to])
  | Array l => modify (CreateDataProperty from (l ++ [to]))
  | Inherited => throw (TypeError "graph[from].push is not a function")
  end.

(** The body of the loop. *)
Definition addRoadOn road : Exec object error unit :=
  let '(from, to) := road in addEdgeOn from to;; addEdgeOn to from.

(** [buildGraph(roads)], the object being created with the prototype
    [proto]: the object when the loop completes, or what it threw. *)
Definition buildGraphOn proto roads : Outcome error object :=
  match for_of roads addRoadOn (Object_create proto) with
  | (Normal _, graph) => Normal graph
  | (Throw e, _) => Throw e
  end.

(** ** Specification *)

(** No end of the road is a name the prototype provides. *)
Definition safeRoad proto road : Prop := road.1 ∉ proto ∧ road.2 ∉ proto.

#[export] Instance safeRoad_dec proto road : Decision (safeRoad proto road).
Proof. apply _. Defined.

(** No property of the object has a name the prototype provides: what the
    program creates never shadows an inherited name. *)
Definition unshadowed graph : Prop :=
  ∀ name, name ∈ inherited graph → own graph !! name = None.

(** The message of the error. *)
Definition notAFunction : error := TypeError "graph[from].push is not a function".

(** ** Lemmas: one call of [addEdge] *)

Lemma unshadowed_create proto : unshadowed (Object_create proto).
Proof. by intros name _. Qed.

Lemma addEdgeOn_safe from to graph :
  from ∉ inherited graph →
  addEdgeOn from to graph =
  (Normal tt, Object (inherited graph) (addEdge from to (own graph))).
Proof.
  intros Hfrom. rw /addEdgeOn /addEdge /Get. exec_unfold.
  destruct (own graph !! from); [done|]. by rw decide_False.
Qed.

Lemma addEdgeOn_inherited from to graph :
  unshadowed graph → from ∈ inherited graph →
  addEdgeOn from to graph = (Throw notAFunction, graph).
Proof.
  intros Hgraph Hfrom. rw /addEdgeOn /Get. exec_unfold.
  by rw (Hgraph from Hfrom) decide_True.
Qed.

Lemma unshadowed_addEdge from to graph :
  unshadowed graph → from ∉ inherited graph →
  unshadowed (Object (inherited graph) (addEdge from to (own graph))).
Proof.
  intros Hgraph Hfrom name Hname.
  rw /= addEdge_insert lookup_insert_ne; [by apply Hgraph|by intros ->].
Qed.

Lemma unshadowed_addRoad road graph :
  unshadowed graph → safeRoad (inherited graph) road →
  unshadowed (Object (inherited graph) (addRoad (own graph) road)).
Proof.
  destruct road as [from to]. intros Hgraph [Hfrom Hto].
  apply (unshadowed_addEdge to from (Object (inherited graph) (addEdge from to (own graph))));
    [by apply unshadowed_addEdge|done].
Qed.

(** ** Lemmas: the loop *)

(** One road: both calls when no end is inherited, a [TypeError] from the
    first call that meets an inherited name otherwise. *)
Lemma addRoadOn_run road graph :
  unshadowed graph →
  if decide (safeRoad (inherited graph) road)
  then addRoadOn road graph = (Normal tt, Object (inherited graph) (addRoad (own graph) road))
  else (addRoadOn road graph).1 = Throw notAFunction.
Proof.
  intros Hgraph. destruct road as [from to]. rw /addRoadOn /addRoad.
  case_decide as Hroad.
  - destruct Hroad as [Hfrom Hto]. exec_unfold. by rw addEdgeOn_safe // addEdgeOn_safe.
  - exec_unfold. destruct (decide (from ∈ inherited graph)) as [Hfrom|Hfrom].
    + by rw addEdgeOn_inherited.
    + rw addEdgeOn_safe // addEdgeOn_inherited //; [by apply unshadowed_addEdge|].
      simpl. destruct (decide (to ∈ inherited graph)); [done|]. by destruct Hroad.
Qed.

Lemma for_of_addRoadOn roads : ∀ graph,
  unshadowed graph →
  (for_of roads addRoadOn graph).1 = Normal tt ∧
  (for_of roads addRoadOn graph).2 = Object (inherited graph) (foldl addRoad (own graph) roads) ∧
  Forall (safeRoad (inherited graph)) roads
  ∨
  (for_of roads addRoadOn graph).1 = Throw notAFunction ∧
  ¬ Forall (safeRoad (inherited graph)) roads.
Proof.
  induction roads as [|road roads IH]; intros graph Hgraph.
  { left. by destruct graph. }
  pose proof (addRoadOn_run road graph Hgraph) as Hroad. simpl. exec_unfold.
  case_decide as Hsafe.
  - rw Hroad. destruct (IH (Object (inherited graph) (addRoad (own graph) road))) as [H|H].
    + by apply unshadowed_addRoad.
    + left. destruct H as (? & ? & ?). by rw Forall_cons.
    + right. destruct H as (? & ?). rw Forall_cons. naive_solver.
  - right. destruct (addRoadOn road graph) as [[[]|e] graph']; simplify_eq/=.
    rw Forall_cons. naive_solver.
Qed.

Lemma buildGraphOn_run proto roads :
  buildGraphOn proto roads =
  if decide (Forall (safeRoad proto) roads)
  then Normal (Object proto (buildGraph roads))
  else Throw notAFunction.
Proof.
  rw /buildGraphOn /buildGraph.
  destruct (for_of_addRoadOn roads _ (unshadowed_create proto)) as [(H1 & H2 & H3)|[H1 H2]];
    destruct (for_of _ _ _) as [[[]|e] graph]; simplify_eq/=.
  - by rw decide_True.
  - by rw decide_False.
Qed.

(** ** Properties *)

(** The graph object has no prototype, so every name is a place name:
    read with the lookup of the language, which goes on in the prototype,
    the function run on an object created by [Object.create(null)] never
    throws and returns the object of [Graph.buildGraph], whatever the roads
    are called. *)
Theorem buildGraphOn_null roads :
  buildGraphOn null roads = Normal (Object null (buildGraph roads)).
Proof.
  rw buildGraphOn_run decide_True //. apply Forall_forall. intros road _.
  split; apply not_elem_of_nil.
Qed.

(** C32. On an object with a prototype the function completes exactly when
    no road has an end with an inherited name, and then with the object of
    [Graph.buildGraph]; otherwise the call of [push] on what is inherited
    throws a [TypeError]. *)
Theorem buildGraphOn_completes proto roads :
  buildGraphOn proto roads =
  if decide (Forall (λ road, road.1 ∉ proto ∧ road.2 ∉ proto) roads)
  then Normal (Object proto (buildGraph roads))
  else Throw (TypeError "graph[from].push is not a function").
Proof. apply buildGraphOn_run. Qed.

(** Had line 2 been [let graph = {}], a road to a place called
    [constructor] or [__proto__] would end the function with a
    [TypeError]. *)
Example buildGraphOn_Object_prototype :
  buildGraphOn Object_prototype [("Farm", "Shop"); ("constructor", "Shop")] = Throw notAFunction ∧
  buildGraphOn Object_prototype [("Farm", "__proto__")] = Throw notAFunction ∧
  buildGraphOn Object_prototype [("Farm", "Shop")] =
    Normal (Object Object_prototype (buildGraph [("Farm", "Shop")])).
Proof. by rw !buildGraphOn_run. Qed.
