(* ===== verification/LockedBox.v ===== *)
(** * LockedBox: the box with a lock of [lockedBox.js]

    The program keeps one object, [box], with a flag [locked], the methods
    [unlock] and [lock], a private array [_content] and a getter [content]
    that throws while the box is locked.  [withBoxUnlocked(body)] unlocks the
    box if it was locked, runs [body], and locks the box again on every exit
    if it was this call that unlocked it.

    State.  [World] holds the box, the heap of arrays and the lines written
    to the console.  The array of the box is a heap object and [_content] a
    reference to it, as in the program: the getter returns the reference, and
    [push] changes the object the reference points to.

    Operations are computations of [Exec World exn]; [body] is any such
    computation, so the theorems quantify over every body, the ones that
    throw, lock or unlock the box included.

    A world is well formed ([wf_world]) when the reference of the box points
    to an array of the heap, as it does at the start and after every
    operation of the program.

    Beside the lock ([withBoxUnlocked_relocks], [reachable_access_denied])
    the file proves how calls compose: a call inside the body of another
    is its body ([withBoxUnlocked_inner]), and what calls push one after
    the other stays in the array of the box
    ([withBoxUnlocked_pushes_persist]). *)

From stdpp Require Import ssreflect base tactics option list strings gmap.
From S2P Require Import Prelude Exec.

(** ** Data *)

(** The exceptions of the program: [new Error(message)]. *)
Inductive exn : Type := Error (message : string).

(** The values passed to [console.log]. *)
Inductive val : Type :=
  | VString (s : string)
  | VBool (b : bool)
  | VError (e : exn)
  | VArray (a : list string).

(** References to arrays. *)
Definition ref : Type := positive.

Record Box : Type := { locked : bool; _content : ref }.

Record World : Type := {
  box : Box;
  heap : gmap ref (list string);
  console : list (list val)
}.

Implicit Types (w : World) (r : ref) (v : string) (body : Exec World exn unit).

(** The world after the object literal of the program is evaluated: the box
    is locked and its array is empty. *)
Definition initial : World :=
  {| box := {| locked := true; _content := 1%positive |};
     heap := {[ 1%positive := [] ]};
     console := [] |}.

(** ** Operations *)

(** Assignment to [this.locked]. *)
Definition set_locked (b : bool) w : World :=
  {| box := {| locked := b; _content := _content (box w) |};
     heap := heap w; console := console w |}.

(** [box.unlock()] and [box.lock()]. *)
Definition unlock : Exec World exn unit := modify (set_locked false).
Definition lock : Exec World exn unit := modify (set_locked true).

(** The getter [box.content]. *)
Definition content : Exec World exn ref :=
  l ← gets (locked ∘ box);
  if l : bool then throw (Error "Locked!") else gets (_content ∘ box).

(** The array a reference points to. *)
Definition array w r : list string := default [] (heap w !! r).

(** [r.push(v)]: appends to the array in place and returns its new length. *)
Definition Array_push r v : Exec World exn nat :=
  l ← gets (λ w, array w r);
  modify (λ w, {| box := box w; heap := <[r := l ++ [v]]> (heap w);
                  console := console w |});;
  mret (S (length l)).

(** [console.log(args)] adds the line [args] to the console. *)
#[export] Program Instance world_console : Console World (list val) := {|
  printed := console;
  print args w := {| box := box w; heap := heap w; console := console w ++ [args] |}
|}.
Next Obligation. done. Qed.

(** [withBoxUnlocked(body)].  [progress] is the local variable of the
    function: 1 when this call unlocked the box. *)
Definition withBoxUnlocked body : Exec World exn unit :=
  with_local 0%Z (
    try_finally
      (l ← outer (gets (locked ∘ box));
       (if l : bool then outer unlock;; set_local 1%Z else mret tt);;
       outer body)
      (progress ← get_local;
       if bool_decide (progress = 1%Z) then outer lock else mret tt)).

(** The body of the first call: [box.content.push("gold piece")]. *)
Definition pushGold : Exec World exn unit :=
  c ← content; Array_push c "gold piece";; mret tt.

(** The body of the second call: it throws. *)
Definition pirates : Exec World exn unit :=
  throw (Error "Pirates on the horizon! Abort!").

(** The statements of the script, in order. *)
Definition lockedBoxScript : Exec World exn unit :=
  withBoxUnlocked pushGold;;
  try_catch (withBoxUnlocked pirates)
            (λ e, console_log [VString "Error raised:"; VError e]);;
  l ← gets (locked ∘ box);
  console_log [VBool l].

(** The program with the two statements it holds as comments: [box.unlock()]
    in front of the declaration of [withBoxUnlocked], run when [unlockFirst],
    and [console.log(box.content)] at the end, run when [readLast].  The
    program as written runs neither. *)
Definition lockedBoxProgram (unlockFirst readLast : bool) : Exec World exn unit :=
  (if unlockFirst then unlock else mret tt);;
  lockedBoxScript;;
  (if readLast then c ← content; a ← gets (λ w, array w c); console_log [VArray a]
   else mret tt).

(** ** Specification *)

(** What [withBoxUnlocked] promises, without the local variable and the
    [finally]: on a locked box, run the body on the unlocked box and lock
    whatever it leaves; on an unlocked box, just run the body. *)
Definition withUnlocked body : Exec World exn unit :=
  λ w, if locked (box w)
       then let '(o, w') := body (set_locked false w) in (o, set_locked true w')
       else body w.

(** The world after [c.push(v)] on the array of the box. *)
Definition pushed v w : World :=
  {| box := box w;
     heap := <[_content (box w) := array w (_content (box w)) ++ [v]]> (heap w);
     console := console w |}.

(** A world is well formed when the reference in [_content] points to an
    array of the heap: the box never holds a dangling reference. *)
Definition wf_world w : Prop := is_Some (heap w !! _content (box w)).

(** A body keeps the lock when it leaves the flag as it found it. *)
Definition keeps_lock body : Prop :=
  ∀ w, locked (box (body w).2) = locked (box w).

(** The worlds a script can be in between two of its statements, when its
    statements are calls of [withBoxUnlocked], with or without a handler
    around them, and calls of [console.log]. *)
Inductive reachable : World → Prop :=
  | reachable_initial : reachable initial
  | reachable_call body w : reachable w → reachable (withBoxUnlocked body w).2
  | reachable_catch body handler w :
      (∀ e, keeps_lock (handler e)) →
      reachable w → reachable (try_catch (withBoxUnlocked body) handler w).2
  | reachable_log (args : list val) w : reachable w → reachable (print args w).

(** ** Lemmas *)

Lemma set_locked_same b w : locked (box w) = b → set_locked b w = w.
Proof. intros <-. by destruct w as [[??]??]. Qed.

(** The definition with the local variable and the [finally] block computes
    what the specification says. *)
Lemma withBoxUnlocked_run body w : withBoxUnlocked body w = withUnlocked body w.
Proof.
  destruct w as [[l c] h out]. rw /withBoxUnlocked /withUnlocked. exec_unfold.
  destruct l; simpl; by destruct (body _) as [[[]|e] w'].
Qed.

Lemma withBoxUnlocked_equiv body : withBoxUnlocked body ≡ withUnlocked body.
Proof. intros w. apply withBoxUnlocked_run. Qed.

#[export] Instance withUnlocked_proper : Proper ((≡) ==> (≡)) withUnlocked.
Proof.
  intros body1 body2 Hbody w.
  by rw /withUnlocked (Hbody w) (Hbody (set_locked false w)).
Qed.

#[export] Instance withBoxUnlocked_proper : Proper ((≡) ==> (≡)) withBoxUnlocked.
Proof.
  intros body1 body2 Hbody w. rw !withBoxUnlocked_run. by apply withUnlocked_proper.
Qed.

(** On the unlocked box the specification is its body, so applying it twice
    is applying it once. *)
Lemma withUnlocked_idem body : withUnlocked (withUnlocked body) ≡ withUnlocked body.
Proof. intros w. rw /withUnlocked /=. by destruct (locked (box w)). Qed.

Lemma withBoxUnlocked_locked body w :
  locked (box w) = true →
  withBoxUnlocked body w =
  ((body (set_locked false w)).1, set_locked true (body (set_locked false w)).2).
Proof.
  intros Hl. rw withBoxUnlocked_run /withUnlocked Hl.
  by destruct (body _).
Qed.

Lemma withBoxUnlocked_unlocked body w :
  locked (box w) = false → withBoxUnlocked body w = body w.
Proof. intros Hl. by rw withBoxUnlocked_run /withUnlocked Hl. Qed.

Lemma content_run w :
  content w =
  if locked (box w) then (Throw (Error "Locked!"), w)
  else (Normal (_content (box w)), w).
Proof. rw /content. exec_unfold. by destruct (locked (box w)). Qed.

Lemma withBoxUnlocked_ends_locked body w :
  locked (box w) = true → locked (box (withBoxUnlocked body w).2) = true.
Proof. intros Hl. by rw withBoxUnlocked_locked. Qed.

Lemma try_catch_ends_locked body handler w :
  (∀ e, keeps_lock (handler e)) →
  locked (box w) = true →
  locked (box (try_catch (withBoxUnlocked body) handler w).2) = true.
Proof.
  intros Hh Hl. pose proof (withBoxUnlocked_ends_locked body w Hl) as Hw.
  rw /try_catch. destruct (withBoxUnlocked body w) as [[[]|e] w']; [done|].
  by rw Hh.
Qed.

Lemma reachable_is_locked w : reachable w → locked (box w) = true.
Proof.
  induction 1; eauto using withBoxUnlocked_ends_locked, try_catch_ends_locked.
Qed.

Lemma keeps_lock_console_log (args : list val) : keeps_lock (console_log args).
Proof. by intros w. Qed.

Lemma withBoxUnlocked_outcome body w :
  (withBoxUnlocked body w).1 = (body (set_locked false w)).1.
Proof.
  destruct (locked (box w)) eqn:Hl.
  - by rw withBoxUnlocked_locked.
  - by rw withBoxUnlocked_unlocked // set_locked_same.
Qed.

(** ** The heap invariant *)

Lemma wf_world_initial : wf_world initial.
Proof. by eexists. Qed.

Lemma wf_world_set_locked b w : wf_world w → wf_world (set_locked b w).
Proof. done. Qed.

Lemma unlock_wf : preserves wf_world unlock.
Proof. apply preserves_modify, wf_world_set_locked. Qed.

Lemma lock_wf : preserves wf_world lock.
Proof. apply preserves_modify, wf_world_set_locked. Qed.

Lemma content_wf : preserves wf_world content.
Proof. intros w. rw content_run. by destruct (locked (box w)). Qed.

(** A push allocates nothing and frees nothing the box refers to. *)
Lemma Array_push_wf r v : preserves wf_world (Array_push r v).
Proof.
  intros w Hw. rw /Array_push /wf_world. exec_unfold.
  rw lookup_insert_is_Some. destruct (decide (r = _content (box w))); auto.
Qed.

Lemma console_log_wf (args : list val) :
  preserves wf_world (console_log args : Exec World exn unit).
Proof. by apply preserves_console_log. Qed.

(** [withBoxUnlocked] preserves whatever its body and the lock preserve. *)
Lemma withBoxUnlocked_preserves (I : World → Prop) body :
  (∀ b w, I w → I (set_locked b w)) → preserves I body → preserves I (withBoxUnlocked body).
Proof.
  intros Hlock Hbody. assert (∀ b, preserves I (modify (set_locked b) : Exec World exn unit))
    as Hset by (intros b; apply preserves_modify, Hlock).
  rw /withBoxUnlocked /unlock /lock. apply preserves_with_local, preserves_try_finally.
  - apply preserves_bind; [eauto with js|]. intros []; eauto 6 with js.
  - apply preserves_bind; [eauto with js|]. intros l. case_bool_decide; eauto with js.
Qed.

Lemma withBoxUnlocked_wf body :
  preserves wf_world body → preserves wf_world (withBoxUnlocked body).
Proof. apply withBoxUnlocked_preserves. intros b w. apply wf_world_set_locked. Qed.

#[export] Hint Resolve unlock_wf lock_wf content_wf Array_push_wf console_log_wf
  withBoxUnlocked_wf : js.

Lemma lockedBoxScript_wf : preserves wf_world lockedBoxScript.
Proof. rw /lockedBoxScript /pushGold /pirates. eauto 10 with js. Qed.

(** ** Nested calls and repeated calls *)

(** In the body of a call the box is unlocked, so a call there is its
    body. *)
Lemma withBoxUnlocked_transparent body1 body2 :
  withBoxUnlocked (withBoxUnlocked body1;; body2) ≡ withBoxUnlocked (body1;; body2).
Proof.
  intros w. rw !withBoxUnlocked_run /withUnlocked. exec_unfold.
  destruct (locked (box w)) eqn:Hl; by rw withBoxUnlocked_unlocked.
Qed.

(** One push through the getter, in a call of its own. *)
Lemma withBoxUnlocked_pushed v w :
  withBoxUnlocked (c ← content; Array_push c v;; mret tt) w = (Normal tt, pushed v w).
Proof. rw withBoxUnlocked_run. by destruct w as [[[] c] h out]. Qed.

Lemma for_of_pushes (vs : list string) w :
  wf_world w →
  for_of vs (λ v, withBoxUnlocked (c ← content; Array_push c v;; mret tt)) w =
  (Normal tt,
   {| box := box w;
      heap := <[_content (box w) := array w (_content (box w)) ++ vs]> (heap w);
      console := console w |}).
Proof.
  revert w. induction vs as [|v vs IH]; intros w [l Hl].
  - rw app_nil_r /array Hl /= insert_id //. by destruct w.
  - rw /= /mbind /exec_bind /bind withBoxUnlocked_pushed IH;
      [|by rw /wf_world /pushed /= lookup_insert_eq].
    by rw /pushed /array /= lookup_insert_eq insert_insert_eq Hl /= -app_assoc.
Qed.

(** ** Properties of the box and of [withBoxUnlocked] *)

(** C2. Guaranteed release: called on a locked box, [withBoxUnlocked] leaves
    the box locked, whatever the body does and whether it returns or
    throws. *)
Theorem withBoxUnlocked_relocks body w :
  locked (box w) = true → locked (box (withBoxUnlocked body w).2) = true.
Proof. apply withBoxUnlocked_ends_locked. Qed.

Lemma withBoxUnlocked_relocks_witness :
  locked (box (withBoxUnlocked pirates initial).2) = true.
Proof. by apply withBoxUnlocked_relocks. Defined.

(** C5. [withBoxUnlocked], written with a local variable and a [finally]
    block, computes what its specification [withUnlocked] says, on every
    body and every world. *)
Theorem withBoxUnlocked_refines_withUnlocked body :
  withBoxUnlocked body ≡ withUnlocked body.
Proof. apply withBoxUnlocked_equiv. Qed.

(** C8. Failure is not swallowed: [withBoxUnlocked] ends the way its body
    ends on the unlocked box, with the same value or the same exception. *)
Theorem withBoxUnlocked_propagates body w :
  (withBoxUnlocked body w).1 = (body (set_locked false w)).1.
Proof. apply withBoxUnlocked_outcome. Qed.

(** The getter [content] is guarded by the lock: on a locked box it
    throws [Error("Locked!")], on an unlocked one it returns the reference to
    the array of the box, the array itself and not a copy; in both cases it
    changes nothing. *)
Theorem content_guarded w :
  content w =
  if locked (box w) then (Throw (Error "Locked!"), w)
  else (Normal (_content (box w)), w).
Proof. apply content_run. Qed.

(** Inside [withBoxUnlocked] the getter never throws: a body that starts
    by reading [box.content] gets the reference. *)
Theorem withBoxUnlocked_grants_access (k : ref → Exec World exn unit) :
  withBoxUnlocked (content ≫= k) ≡ withBoxUnlocked (gets (_content ∘ box) ≫= k).
Proof.
  intros w. rw !withBoxUnlocked_run /withUnlocked. exec_unfold.
  destruct (locked (box w)) eqn:Hl; by rw ?content_run /= ?Hl.
Qed.

(** C9. Between the statements of a script that touches the box only through
    [withBoxUnlocked], the box is locked and reading [box.content] throws
    [Error("Locked!")]. *)
Theorem reachable_access_denied w :
  reachable w →
  locked (box w) = true ∧ content w = (Throw (Error "Locked!"), w).
Proof. intros Hl%reachable_is_locked. by rw content_run Hl. Qed.

Lemma reachable_access_denied_witness :
  locked (box (withBoxUnlocked pushGold initial).2) = true ∧
  content (withBoxUnlocked pushGold initial).2 =
    (Throw (Error "Locked!"), (withBoxUnlocked pushGold initial).2).
Proof. apply reachable_access_denied. apply reachable_call, reachable_initial. Defined.

(** A call nested in the body of another performs no transition of its
    own: [withBoxUnlocked] of [withBoxUnlocked body] is [withBoxUnlocked body]. *)
Theorem withBoxUnlocked_nested body :
  withBoxUnlocked (withBoxUnlocked body) ≡ withBoxUnlocked body.
Proof.
  etrans; [apply withBoxUnlocked_equiv|]. setoid_rewrite withBoxUnlocked_equiv.
  apply withUnlocked_idem.
Qed.

(** Mutations persist: pushing [v] through the getter inside
    [withBoxUnlocked] appends [v] to the array of the box and changes nothing
    else; in particular the lock is as before. *)
Theorem withBoxUnlocked_push v w :
  withBoxUnlocked (c ← content; Array_push c v;; mret tt) w = (Normal tt, pushed v w).
Proof. apply withBoxUnlocked_pushed. Qed.

(** The run of the script: the gold piece is in the box, the exception
    of the second body was caught and printed, and the last line printed is
    [true]: the box is locked. *)
Theorem lockedBoxScript_run :
  lockedBoxScript initial =
  (Normal tt,
   {| box := {| locked := true; _content := 1%positive |};
      heap := {[ 1%positive := ["gold piece"] ]};
      console := [ [VString "Error raised:";
                    VError (Error "Pirates on the horizon! Abort!")];
                   [VBool true] ] |}).
Proof. reflexivity. Qed.

(** C33. The run of the program.  As written it ends with the gold piece in
    the box, the exception of the second body caught and printed, the box
    locked and [true] printed.  With the statement [box.unlock()] that it
    holds as a comment, no call of [withBoxUnlocked] locks the box: it ends
    unlocked and [false] is printed.  With [console.log(box.content)], its
    other comment, it ends with an uncaught [Error("Locked!")] as written,
    and prints the array with the gold piece after [box.unlock()]. *)
Theorem lockedBoxProgram_run :
  lockedBoxProgram false false initial =
    (Normal tt,
     {| box := {| locked := true; _content := 1%positive |};
        heap := {[ 1%positive := ["gold piece"] ]};
        console := [ [VString "Error raised:";
                      VError (Error "Pirates on the horizon! Abort!")];
                     [VBool true] ] |}) ∧
  lockedBoxProgram true false initial =
    (Normal tt,
     {| box := {| locked := false; _content := 1%positive |};
        heap := {[ 1%positive := ["gold piece"] ]};
        console := [ [VString "Error raised:";
                      VError (Error "Pirates on the horizon! Abort!")];
                     [VBool false] ] |}) ∧
  (lockedBoxProgram false true initial).1 = Throw (Error "Locked!") ∧
  printed (lockedBoxProgram true true initial).2 =
    [ [VString "Error raised:"; VError (Error "Pirates on the horizon! Abort!")];
      [VBool false]; [VArray ["gold piece"]] ].
Proof. by repeat split. Qed.

(** Restoring the prior state: when the body leaves the lock flag as it
    found it, so does [withBoxUnlocked]. *)
Theorem withBoxUnlocked_keeps_lock body :
  keeps_lock body → keeps_lock (withBoxUnlocked body).
Proof.
  intros Hbody w. destruct (locked (box w)) eqn:Hl.
  - by rw withBoxUnlocked_locked.
  - by rw withBoxUnlocked_unlocked // Hbody.
Qed.

Lemma withBoxUnlocked_keeps_lock_witness :
  keeps_lock (withBoxUnlocked (console_log [VBool true])).
Proof. apply withBoxUnlocked_keeps_lock, keeps_lock_console_log. Defined.

(** C34. Idempotent entry: a call of [withBoxUnlocked] in the body of another
    performs no transition of its own.  It finds the box unlocked, so it
    does not lock it when it ends, and what follows it in the outer body
    still runs on the unlocked box: the outer call behaves as if the inner
    body had been written in its place, whatever the two bodies do. *)
Theorem withBoxUnlocked_inner body1 body2 :
  withBoxUnlocked (withBoxUnlocked body1;; body2) ≡ withBoxUnlocked (body1;; body2).
Proof. apply withBoxUnlocked_transparent. Qed.

(** C39. Mutations persist after the box is locked again: what is pushed
    through the getter in calls of [withBoxUnlocked], one call for each
    element, is at the end of the array of the box, in the order of the
    calls, and nothing else has changed: the lock is as it was before the
    calls, whether locked or not, no other array is touched, and nothing
    is printed. *)
Theorem withBoxUnlocked_pushes_persist (vs : list string) w :
  wf_world w →
  for_of vs (λ v, withBoxUnlocked (c ← content; Array_push c v;; mret tt)) w =
  (Normal tt,
   {| box := box w;
      heap := <[_content (box w) := array w (_content (box w)) ++ vs]> (heap w);
      console := console w |}).
Proof. apply for_of_pushes. Qed.

Lemma withBoxUnlocked_pushes_persist_witness :
  for_of ["gold piece"; "silver"]
    (λ v, withBoxUnlocked (c ← content; Array_push c v;; mret tt)) initial =
  (Normal tt,
   {| box := box initial;
      heap := <[_content (box initial) :=
                  array initial (_content (box initial)) ++ ["gold piece"; "silver"]]>
                (heap initial);
      console := console initial |}).
Proof. apply withBoxUnlocked_pushes_persist, wf_world_initial. Defined.

(** What the getter returns is an array: in a well-formed world the
    reference [box.content] evaluates to points to an array of the heap. *)
Theorem content_returns_array w r w' :
  wf_world w → content w = (Normal r, w') → is_Some (heap w' !! r).
Proof. rw content_run. destruct (locked (box w)); [done|]. by intros Hw [= <- <-]. Qed.

Lemma content_returns_array_witness :
  is_Some (heap (set_locked false initial) !! 1%positive).
Proof.
  by apply (content_returns_array (set_locked false initial) 1%positive
              (set_locked false initial)); [apply wf_world_initial|].
Defined.
