(* ===== verification/Retry.v ===== *)
(** * Retry: the unreliable multiplication and its retry loop of [retry.js]

    [primitiveMultiply(a, b)] draws a random number and either returns
    [a * b] or throws a [MultiplicatorUnitFailure].  [trial(a, b)] calls it
    in an endless loop until it returns, prints the product and stops; a
    [MultiplicatorUnitFailure] is printed on the error stream and the call is
    tried again; any other exception leaves the loop at once.

    State.  [Runtime] holds the random source as the sequence of numbers
    [Math.random()] will return, the number of draws made so far, and the
    lines printed.  A draw is a rational of [[0, 1)]; [Math.round] and the
    comparison are computed exactly on rationals.  The operands and the
    product are integers: the model of [a * b] is exact as long as the
    product is a safe integer ([product_safe]).

    The loop is [Exec.forever], run with fuel: [trial fuel a b w = None]
    says the loop is still running after [fuel] attempts.

    [extends w w'] says that [w'] is a later state of [w]; the loop only
    moves to later states, whatever the multiplication routine. *)

From Stdlib Require Import QArith Qround Lqa.
From stdpp Require Import ssreflect base tactics option list strings.
From S2P Require Import Prelude Exec.

(** ** Data *)

(** What the program may see thrown: its own exception class, declared by
    [class MultiplicatorUnitFailure extends Error], or any other value. *)
Inductive failure : Type :=
  | MultiplicatorUnitFailure (message : string)
  | OtherError (message : string).

(** A line of output: [console.log] of a number, [console.error] of an
    exception.  [V] is the type of the numbers: [Z] in this file, the
    numbers of the language in [Double.v]. *)
Inductive line (V : Type) : Type :=
  | Stdout (n : V)
  | Stderr (e : failure).

Arguments Stdout {V} n%_Z.
Arguments Stderr {V} e.

Record Runtime (V : Type) : Type := {
  random : nat → Q;
  drawn : nat;
  output : list (line V)
}.

Arguments Build_Runtime {V} _ _ _.
Arguments random {V} _ _.
Arguments drawn {V} _.
Arguments output {V} _.

#[export] Program Instance runtime_console {V} : Console (Runtime V) (line V) := {|
  printed := output;
  print l w := {| random := random w; drawn := drawn w; output := output w ++ [l] |}
|}.
Next Obligation. done. Qed.

Implicit Types (w : Runtime Z) (a b : Z) (r : Q) (e : failure) (fuel k : nat).
Implicit Types (primitive : Z → Z → Exec (Runtime Z) failure Z).

(** ** Operations *)

(** [e instanceof MultiplicatorUnitFailure]. *)
Definition instanceof_MultiplicatorUnitFailure e : bool :=
  match e with MultiplicatorUnitFailure _ => true | OtherError _ => false end.

(** [Math.random()]: the next number of the source. *)
Definition Math_random {V} : Exec (Runtime V) failure Q :=
  λ w : Runtime V, (Normal (random w (drawn w)),
        {| random := random w; drawn := S (drawn w); output := output w |}).

(** [Math.round(x)]: the nearest integer, halves rounded up. *)
Definition Math_round (x : Q) : Z := Qfloor (x + (1 # 2))%Q.

(** The test of [primitiveMultiply] on a draw [r]. *)
Definition lucky r : bool := bool_decide (Math_round (r * 100)%Q ≤ 20)%Z.

(** [primitiveMultiply(a, b)]. *)
Definition primitiveMultiply a b : Exec (Runtime Z) failure Z :=
  r ← Math_random;
  if lucky r then mret (a * b)%Z
  else throw (MultiplicatorUnitFailure "Failed to multiply").

(** One turn of the loop of [trial]: the [try] block with its handler.  The
    loop does not look at its arguments or at the product: they are of any
    types [A] and [V]. *)
Definition attempt {A V} (primitive : A → A → Exec (Runtime V) failure V) (a b : A) :
    Exec (Runtime V) failure Control :=
  try_catch
    (result ← primitive a b;
     console_log (Stdout result);;
     mret Break)
    (λ e, if instanceof_MultiplicatorUnitFailure e
          then console_log (Stderr e);; mret Again
          else throw e).

(** [trial(a, b)], over any multiplication routine, for at most [fuel] turns. *)
Definition trialWith {A V} (primitive : A → A → Exec (Runtime V) failure V) fuel (a b : A)
    (w : Runtime V) : option (Outcome failure unit * Runtime V) :=
  forever fuel (attempt primitive a b) w.

Arguments attempt {A V} primitive (a b)%_Z.
Arguments trialWith {A V} primitive fuel (a b)%_Z w.

(** [trial(a, b)] as the program has it. *)
Definition trial fuel a b w : option (Outcome failure unit * Runtime Z) :=
  trialWith primitiveMultiply fuel a b w.

(** The last statement of the program: [trial(12, 5)]. *)
Definition retryScript fuel w : option (Outcome failure unit * Runtime Z) :=
  trial fuel 12 5 w.

(** ** Specification *)

(** The runtime after [k] more draws and the lines [ls] printed. *)
Definition advance {V} k (ls : list (line V)) (w : Runtime V) : Runtime V :=
  {| random := random w; drawn := drawn w + k; output := output w ++ ls |}.

(** The line a failed attempt prints. *)
Definition failed {V} : line V := Stderr (MultiplicatorUnitFailure "Failed to multiply").

(** The first lucky draw from now on is the one after [k] unlucky ones. *)
Definition firstLucky w k : Prop :=
  (∀ i, i < k → lucky (random w (drawn w + i)) = false) ∧
  lucky (random w (drawn w + k)) = true.

(** A source that is unlucky twice and lucky from then on, and one that is
    never lucky. *)
Definition thirdTimeLucky : Runtime Z :=
  {| random := λ n, if (n <? 2)%nat then 9 # 10 else 1 # 10; drawn := 0; output := [] |}.
Definition neverLucky : Runtime Z :=
  {| random := λ _, 1 # 2; drawn := 0; output := [] |}.

(** The runtime [w'] is a later state of [w]: the same random source, no
    draw taken back, no printed line erased. *)
Definition extends w w' : Prop :=
  random w' = random w ∧ drawn w ≤ drawn w' ∧ output w `prefix_of` output w'.

(** Integers that a JavaScript number represents exactly. *)
Definition MAX_SAFE_INTEGER : Z := 2 ^ 53 - 1.
Definition safeInteger (n : Z) : Prop := (- MAX_SAFE_INTEGER ≤ n ≤ MAX_SAFE_INTEGER)%Z.

(** ** Lemmas: rounding *)

Lemma Math_round_le (x : Q) (n : Z) :
  (Math_round x ≤ n)%Z ↔ (x < inject_Z n + (1 # 2))%Q.
Proof.
  rw /Math_round. split.
  - intros H. pose proof (Qlt_floor (x + (1 # 2))) as H1.
    assert (inject_Z (Qfloor (x + (1 # 2)) + 1) <= inject_Z (n + 1))%Q as H2.
    { rw -Zle_Qle. lia. }
    rw !inject_Z_plus in H1 H2. change (inject_Z 1) with 1%Q in H1, H2. lra.
  - intros H. apply Z.lt_succ_r. rw Zlt_Qlt.
    eapply Qle_lt_trans; [apply Qfloor_le|].
    rw /Z.succ inject_Z_plus. change (inject_Z 1) with 1%Q. lra.
Qed.

Lemma lucky_below r : lucky r = true ↔ (r < 41 # 200)%Q.
Proof.
  rw /lucky bool_decide_eq_true Math_round_le.
  change (inject_Z 20) with 20%Q. lra.
Qed.

(** ** Lemmas: one call, one turn *)

Lemma advance_0 w : advance 0 [] w = w.
Proof. destruct w. by rw /advance /= Nat.add_0_r app_nil_r. Qed.

Lemma advance_advance {V} (k1 k2 : nat) (ls1 ls2 : list (line V)) (w : Runtime V) :
  advance k2 ls2 (advance k1 ls1 w) = advance (k1 + k2) (ls1 ++ ls2) w.
Proof. by rw /advance /= Nat.add_assoc -app_assoc. Qed.

Lemma primitiveMultiply_run a b w :
  primitiveMultiply a b w =
  (if lucky (random w (drawn w)) then Normal (a * b)%Z
   else Throw (MultiplicatorUnitFailure "Failed to multiply"),
   advance 1 [] w).
Proof.
  rw /primitiveMultiply /advance. exec_unfold.
  rw Nat.add_1_r app_nil_r. by destruct (lucky _).
Qed.

(** One turn over a multiplication routine that draws a number and, by a
    test of the draw, returns [v] or throws the failure: the turn prints [v]
    and leaves the loop, or prints the failure and asks for the next turn. *)
Lemma attempt_tested {A V} (primitive : A → A → Exec (Runtime V) failure V)
    (test : Q → bool) (x y : A) (v : V) (u : Runtime V) :
  primitive x y u =
    (if test (random u (drawn u)) then Normal v
     else Throw (MultiplicatorUnitFailure "Failed to multiply"), advance 1 [] u) →
  attempt primitive x y u =
    if test (random u (drawn u)) then (Normal Break, advance 1 [Stdout v] u)
    else (Normal Again, advance 1 [failed] u).
Proof.
  intros Hrun. rw /attempt. exec_unfold. rw Hrun /advance /= app_nil_r.
  by destruct (test _).
Qed.

Lemma attempt_lucky a b w :
  lucky (random w (drawn w)) = true →
  attempt primitiveMultiply a b w = (Normal Break, advance 1 [Stdout (a * b)] w).
Proof.
  intros Hr. rw (attempt_tested _ lucky _ _ (a * b)%Z); [by rw Hr|apply primitiveMultiply_run].
Qed.

Lemma attempt_unlucky a b w :
  lucky (random w (drawn w)) = false →
  attempt primitiveMultiply a b w = (Normal Again, advance 1 [failed] w).
Proof.
  intros Hr. rw (attempt_tested _ lucky _ _ (a * b)%Z); [by rw Hr|apply primitiveMultiply_run].
Qed.

(** A turn whose multiplication throws something else than a
    [MultiplicatorUnitFailure] throws it on, and prints nothing. *)
Lemma attempt_other primitive a b w m w' :
  primitive a b w = (Throw (OtherError m), w') →
  attempt primitive a b w = (Throw (OtherError m), w').
Proof. intros Hp. rw /attempt. exec_unfold. by rw Hp. Qed.

(** What a turn throws is never a [MultiplicatorUnitFailure]. *)
Lemma attempt_throw primitive a b w e w' :
  attempt primitive a b w = (Throw e, w') →
  instanceof_MultiplicatorUnitFailure e = false.
Proof.
  rw /attempt. exec_unfold. destruct (primitive a b w) as [[n|[m|m]] w1]; naive_solver.
Qed.

Lemma firstLucky_0 w : lucky (random w (drawn w)) = true → firstLucky w 0.
Proof. intros Hr. split; [lia|by rw Nat.add_0_r]. Qed.

Lemma firstLucky_S w k ls :
  firstLucky w (S k) ↔
  lucky (random w (drawn w)) = false ∧ firstLucky (advance 1 ls w) k.
Proof.
  rw /firstLucky /=. split.
  - intros [Hlt Hk]. split; [rw -(Nat.add_0_r (drawn w)); apply Hlt; lia|].
    split; [intros i Hi|]; rw -Nat.add_assoc; [apply Hlt; lia|done].
  - intros [H0 [Hlt Hk]]. split.
    + intros [|i] Hi; [by rw Nat.add_0_r|].
      replace (drawn w + S i) with (drawn w + 1 + i) by lia. apply Hlt. lia.
    + by replace (drawn w + S k) with (drawn w + 1 + k) by lia.
Qed.

(** A lucky draw somewhere ahead means a first one. *)
Lemma firstLucky_exists w k :
  lucky (random w (drawn w + k)) = true → ∃ k', k' ≤ k ∧ firstLucky w k'.
Proof.
  revert w. induction k as [|k IH]; intros w Hk.
  { exists 0. split; [done|]. apply firstLucky_0. by rw Nat.add_0_r in Hk. }
  destruct (lucky (random w (drawn w))) eqn:H0.
  { exists 0. split; [lia|]. by apply firstLucky_0. }
  destruct (IH (advance 1 [] w)) as (k' & Hle & Hk').
  { simpl. by replace (drawn w + 1 + k) with (drawn w + S k) by lia. }
  exists (S k'). split; [lia|]. by apply (firstLucky_S _ _ []).
Qed.

(** ** Lemmas: the loop *)

Lemma trial_firstLucky k fuel a b w :
  firstLucky w k → k < fuel →
  trial fuel a b w =
  Some (Normal tt, advance (S k) (replicate k failed ++ [Stdout (a * b)]) w).
Proof.
  rw /trial /trialWith. revert fuel w.
  induction k as [|k IH]; intros [|fuel] w Hk Hfuel; try lia.
  - destruct Hk as [_ Hr]. rw Nat.add_0_r in Hr. by rw /= attempt_lucky.
  - apply (firstLucky_S _ _ [failed]) in Hk as [Hr Hk].
    rw (forever_again _ _ _ _ (attempt_unlucky a b w Hr)) (IH fuel _ Hk); [|lia].
    by rw advance_advance.
Qed.

Lemma trial_unlucky fuel a b w :
  (∀ i, lucky (random w (drawn w + i)) = false) → trial fuel a b w = None.
Proof.
  intros Hr. rw /trial /trialWith.
  apply (forever_diverges (λ w', random w' = random w ∧ drawn w ≤ drawn w')); [|done].
  intros w' [Hrandom Hdrawn]. exists (advance 1 [failed] w'). split; [|simpl; split; [done|lia]].
  apply attempt_unlucky. rw Hrandom.
  replace (drawn w') with (drawn w + (drawn w' - drawn w)) by lia. apply Hr.
Qed.

Lemma trial_ends fuel a b w o w' :
  trial fuel a b w = Some (o, w') →
  ∃ k, firstLucky w k ∧ k < fuel ∧
       o = Normal tt ∧ w' = advance (S k) (replicate k failed ++ [Stdout (a * b)]) w.
Proof.
  rw /trial /trialWith. revert w. induction fuel as [|fuel IH]; intros w; [done|].
  rw forever_S. destruct (lucky (random w (drawn w))) eqn:Hr.
  - rw attempt_lucky //. intros [= <- <-]. exists 0.
    split; [by apply firstLucky_0|]. split; [lia|done].
  - rw attempt_unlucky //. intros (k & Hk & Hfuel & -> & ->)%IH.
    exists (S k). split; [by apply (firstLucky_S _ _ [failed])|].
    split; [lia|]. by rw advance_advance.
Qed.

(** ** Lemmas: what the loop never undoes *)

#[export] Instance extends_preorder : PreOrder extends.
Proof.
  split; [by intros w|]. intros w1 w2 w3 (Hr1 & Hd1 & Ho1) (Hr2 & Hd2 & Ho2).
  split; [congruence|]. split; [lia|by etrans].
Qed.

Lemma extends_print w0 (l : line Z) w : extends w0 w → extends w0 (print l w).
Proof.
  intros Hw. etrans; [done|]. split; [done|]. split; [done|]. by apply prefix_app_r.
Qed.

Lemma Math_random_extends w0 : preserves (extends w0) Math_random.
Proof. intros w Hw. etrans; [done|]. split; [done|]. split; [simpl; lia|done]. Qed.

Lemma primitiveMultiply_extends w0 a b : preserves (extends w0) (primitiveMultiply a b).
Proof.
  apply preserves_bind; [apply Math_random_extends|]. intros r.
  destruct (lucky r); eauto with js.
Qed.

(** One turn preserves what its multiplication routine and the console
    preserve. *)
Lemma attempt_preserves (I : Runtime Z → Prop) primitive a b :
  (∀ l w, I w → I (print l w)) → preserves I (primitive a b) →
  preserves I (attempt primitive a b).
Proof.
  intros Hprint Hprimitive.
  assert (∀ l, preserves I (console_log l : Exec (Runtime Z) failure unit)) as Hlog
    by (intros l; apply preserves_console_log, Hprint).
  apply preserves_try_catch; [eauto with js|].
  intros e. destruct (instanceof_MultiplicatorUnitFailure e); eauto with js.
Qed.

Lemma trialWith_preserves (I : Runtime Z → Prop) primitive fuel a b w res :
  (∀ l w, I w → I (print l w)) → preserves I (primitive a b) →
  I w → trialWith primitive fuel a b w = Some res → I res.2.
Proof. intros Hprint Hprimitive. by apply preserves_forever, attempt_preserves. Qed.

(** ** Properties of [primitiveMultiply] and [trial] *)

(** C3. If the first lucky draw comes after [k] unlucky ones, [trial] ends
    within [k + 1] turns: it has printed [k] failures and then the product,
    and has drawn [k + 1] numbers. *)
Theorem trial_succeeds k fuel a b w :
  firstLucky w k → k < fuel →
  trial fuel a b w =
  Some (Normal tt, advance (S k) (replicate k failed ++ [Stdout (a * b)]) w).
Proof. apply trial_firstLucky. Qed.

Lemma trial_succeeds_witness :
  trial 5 12 5 thirdTimeLucky =
  Some (Normal tt, advance 3 [failed; failed; Stdout 60] thirdTimeLucky).
Proof.
  apply (trial_succeeds 2 5 12 5 thirdTimeLucky); [|lia].
  split; [|done]. intros [|[|i]] Hi; [done|done|lia].
Defined.

(** C7. Enough fuel gives the result: if some draw ahead is lucky, there is
    a number of turns after which [trial] has returned, and the last line it
    printed is the product. *)
Theorem trial_terminates a b w :
  (∃ i, lucky (random w (drawn w + i)) = true) →
  ∃ fuel w', trial fuel a b w = Some (Normal tt, w') ∧
             last (output w') = Some (Stdout (a * b)).
Proof.
  intros [i (k & _ & Hk)%firstLucky_exists].
  eexists (S k), _. split; [apply trial_firstLucky; [done|lia]|].
  by rw /= app_assoc last_snoc.
Qed.

Lemma trial_terminates_witness :
  ∃ fuel w', trial fuel 12 5 thirdTimeLucky = Some (Normal tt, w') ∧
             last (output w') = Some (Stdout (12 * 5)).
Proof. apply trial_terminates. by exists 2. Defined.

(** C6. Unbounded retry: on a source that is never lucky again, [trial] is
    still running after any number of turns. *)
Theorem trial_diverges fuel a b w :
  (∀ i, lucky (random w (drawn w + i)) = false) → trial fuel a b w = None.
Proof. apply trial_unlucky. Qed.

Lemma trial_diverges_witness : trial 1000 12 5 neverLucky = None.
Proof. by apply trial_diverges. Defined.

(** C10. [trial] never stops early with a wrong value: when it stops, it
    stops normally, and what it printed is some failures followed by the
    product of its arguments, one line per number drawn. *)
Theorem trial_sound fuel a b w o w' :
  trial fuel a b w = Some (o, w') →
  o = Normal tt ∧
  ∃ k, k < fuel ∧ drawn w' = drawn w + S k ∧
       output w' = output w ++ replicate k failed ++ [Stdout (a * b)].
Proof. intros (k & _ & Hfuel & -> & ->)%trial_ends. eauto. Qed.

Lemma trial_sound_witness :
  @Normal failure unit tt = Normal tt ∧
  ∃ k, k < 3 ∧ drawn (advance 3 [failed; failed; Stdout 60] thirdTimeLucky) = 0 + S k ∧
       output (advance 3 [failed; failed; Stdout 60] thirdTimeLucky) =
       [] ++ replicate k failed ++ [Stdout (12 * 5)].
Proof. by apply (trial_sound 3 12 5 thirdTimeLucky). Defined.

(** The success window: a draw [r] makes [primitiveMultiply] succeed
    exactly when [r < 0.205], since [Math.round] rounds [100 r] to at most 20
    exactly then.  On a uniform source the fault rate is 79.5%. *)
Theorem lucky_threshold r : lucky r = true ↔ (r < 41 # 200)%Q.
Proof. apply lucky_below. Qed.

(** An exception that is not a [MultiplicatorUnitFailure] is not
    retried: it leaves the loop in the turn that met it, and that turn prints
    nothing. *)
Theorem trialWith_propagates primitive fuel a b w m w' :
  primitive a b w = (Throw (OtherError m), w') →
  trialWith primitive (S fuel) a b w = Some (Throw (OtherError m), w').
Proof. intros Hp. by rw /trialWith forever_S (attempt_other _ _ _ _ _ _ Hp). Qed.

Lemma trialWith_propagates_witness :
  trialWith (λ _ _, throw (OtherError "TypeError")) 1 12 5 neverLucky =
  Some (Throw (OtherError "TypeError"), neverLucky).
Proof. by apply trialWith_propagates. Defined.

(** A [MultiplicatorUnitFailure] never escapes the loop, whatever the
    multiplication routine. *)
Theorem trialWith_contains_failure primitive fuel a b w e w' :
  trialWith primitive fuel a b w = Some (Throw e, w') →
  instanceof_MultiplicatorUnitFailure e = false.
Proof.
  rw /trialWith. revert w. induction fuel as [|fuel IH]; intros w; [done|].
  rw forever_S. destruct (attempt primitive a b w) as [[[]|e1] w1] eqn:Ha;
    [done|apply IH|].
  intros ?; simplify_eq. by eapply attempt_throw.
Qed.

Lemma trialWith_contains_failure_witness :
  instanceof_MultiplicatorUnitFailure (OtherError "TypeError") = false.
Proof.
  by apply (trialWith_contains_failure (λ _ _, throw (OtherError "TypeError"))
              1 12 5 neverLucky _ neverLucky).
Defined.

(** Whatever the random source, when the program stops it has printed
    60 last, after one failure line per earlier draw. *)
Theorem retryScript_prints_60 fuel w o w' :
  retryScript fuel w = Some (o, w') →
  o = Normal tt ∧ last (output w') = Some (Stdout 60) ∧
  Forall (λ l, l = failed) (drop (length (output w)) (removelast (output w'))).
Proof.
  intros (k & _ & _ & -> & ->)%trial_ends. split; [done|].
  rw /= app_assoc last_snoc removelast_last drop_app_length. split; [done|].
  by apply Forall_replicate.
Qed.

Lemma retryScript_prints_60_witness :
  @Normal failure unit tt = Normal tt ∧
  last (output (advance 3 [failed; failed; Stdout 60] thirdTimeLucky)) = Some (Stdout 60) ∧
  Forall (λ l, l = failed)
    (drop (length (output thirdTimeLucky))
       (removelast (output (advance 3 [failed; failed; Stdout 60] thirdTimeLucky)))).
Proof. by apply (retryScript_prints_60 4 thirdTimeLucky). Defined.

(** [primitiveMultiply] draws exactly one number and either returns the
    product of its arguments or throws [MultiplicatorUnitFailure("Failed to
    multiply")]; it never returns another value. *)
Theorem primitiveMultiply_correct a b w o w' :
  primitiveMultiply a b w = (o, w') →
  w' = advance 1 [] w ∧
  (o = Normal (a * b)%Z ∧ lucky (random w (drawn w)) = true ∨
   o = Throw (MultiplicatorUnitFailure "Failed to multiply") ∧
   lucky (random w (drawn w)) = false).
Proof. rw primitiveMultiply_run. destruct (lucky _); naive_solver. Qed.

Lemma primitiveMultiply_correct_witness :
  advance 1 [] neverLucky = advance 1 [] neverLucky ∧
  (@Throw failure Z (MultiplicatorUnitFailure "Failed to multiply") = Normal (12 * 5)%Z ∧
   lucky (random neverLucky (drawn neverLucky)) = true ∨
   @Throw failure Z (MultiplicatorUnitFailure "Failed to multiply") =
     Throw (MultiplicatorUnitFailure "Failed to multiply") ∧
   lucky (random neverLucky (drawn neverLucky)) = false).
Proof. by apply (primitiveMultiply_correct 12 5 neverLucky). Defined.

(** The product [primitiveMultiply] returns is a safe integer, hence the
    very number the program computes, when both operands are below [2^26] in
    absolute value. *)
Theorem product_safe a b w n w' :
  primitiveMultiply a b w = (Normal n, w') →
  (Z.abs a < 2 ^ 26)%Z → (Z.abs b < 2 ^ 26)%Z → safeInteger n.
Proof.
  rw primitiveMultiply_run /safeInteger /MAX_SAFE_INTEGER.
  destruct (lucky _); intros [= <- _] Ha Hb; [|done..]. nia.
Qed.

Lemma product_safe_witness : safeInteger 60.
Proof.
  apply (product_safe 12 5 (advance 2 [] thirdTimeLucky) 60
           (advance 3 [] thirdTimeLucky)); [done|lia..].
Defined.

(** Nothing is undone: whatever the multiplication routine, as long as
    it only draws numbers and prints, a run of [trial] that ends leaves the
    random source as it was, no draw taken back and every line printed
    before still there. *)
Theorem trialWith_extends primitive fuel a b w res :
  (∀ w0, preserves (extends w0) (primitive a b)) →
  trialWith primitive fuel a b w = Some res → extends w res.2.
Proof.
  intros Hprimitive. apply (trialWith_preserves (extends w)); [|done..].
  apply extends_print.
Qed.

Lemma trialWith_extends_witness :
  extends thirdTimeLucky (advance 3 [failed; failed; Stdout 60] thirdTimeLucky).
Proof.
  apply (trialWith_extends primitiveMultiply 3 12 5 thirdTimeLucky
           (Normal tt, advance 3 [failed; failed; Stdout 60] thirdTimeLucky)); [|done].
  intros w0. apply primitiveMultiply_extends.
Defined.
