(* ===== verification/Double.v ===== *)
(** * Double: rounding to the numbers of the language

    A number of the language is an IEEE double.  An operation on doubles
    gives the double nearest to the exact result, ties going to the double
    whose last place is even.  This file models that rounding on rationals.

    - [nearestEven] rounds a rational to an integer, ties to even;
    - [binade x] is the exponent [e] with [2 ^ e <= x < 2 ^ (e + 1)], and
      [ulpExponent x] the exponent of the unit in the last place of the
      doubles around [x]: 52 places below the binade, and -1074 for the
      subnormal numbers;
    - [roundDouble x] is the double nearest to [x], as a fraction in lowest
      terms, or nothing when it is too large to be a double.

    The lemmas say what the rounding of a number of a known binade is
    ([roundDouble_binade]) and when it stays below a number of units
    ([roundDouble_below]); that equal rationals round to the same double,
    whatever fractions they are written as (rounding is [Proper] for
    [Qeq]); that the doubles are symmetric around 0 ([roundDouble_opp]);
    and that every safe integer is a double ([roundDouble_safeInteger]).
    [Number.v] builds the numbers of the language and their product on this
    rounding. *)

From Stdlib Require Import QArith Qround Qabs Qpower Lqa.
From Stdlib Require Qcanon.
From stdpp Require Import ssreflect base tactics option list strings.
From S2P Require Import Prelude Retry.

Implicit Types (x y : Q) (e : Z).

(** ** Rounding *)

(** The integer nearest to [y]; halfway between two, the even one. *)
Definition nearestEven y : Z :=
  let f := Qfloor y in
  match (y - inject_Z f ?= 1 # 2)%Q with
  | Lt => f
  | Gt => (f + 1)%Z
  | Eq => if Z.even f then f else (f + 1)%Z
  end.

(** The power of two of exponent [e]. *)
Definition pow2 e : Q := (2 ^ e)%Q.

(** The exponent of the binade of a positive [x]. *)
Definition binade x : Z :=
  if Qle_bool 1 x then Z.log2 (Qfloor x) else (- Z.log2_up (Qceiling (/ x)))%Z.

(** The exponent of the unit in the last place of the doubles next to [x]:
    doubles have 53 significant bits, and the smallest positive one is
    [2 ^ -1074]. *)
Definition ulpExponent x : Z := (Z.max (binade x) (-1022) - 52)%Z.

(** The double nearest to a positive [x], as if exponents had no upper
    bound. *)
Definition roundPositive x : Q :=
  (inject_Z (nearestEven (x / pow2 (ulpExponent x))) * pow2 (ulpExponent x))%Q.

(** The double nearest to [x], as a fraction in lowest terms; [None] when
    it would be [2 ^ 1024] or more in magnitude, where the language has an
    infinity. *)
Definition roundDouble x : option Q :=
  let y := match (x ?= 0)%Q with
           | Eq => 0%Q
           | Gt => roundPositive x
           | Lt => (- roundPositive (- x))%Q
           end in
  if Qle_bool (pow2 1024) (Qabs y) then None else Some (Qred y).

(** [a * b] on doubles. *)

(** ** Tactics *)

(** An inequality between integers from the inequality between them as
    rationals. *)
Ltac rationals := change (inject_Z 1) with 1%Q in *; lra.

Ltac by_rationals :=
  first [rw Zle_Qle|rw Zlt_Qlt]; rw ?inject_Z_plus; rationals.

(** ** Lemmas: powers of two *)

Lemma pow2_pos e : (0 < pow2 e)%Q.
Proof. by apply Qpower_0_lt. Qed.

Lemma pow2_lt e1 e2 : (pow2 e1 < pow2 e2)%Q ↔ (e1 < e2)%Z.
Proof.
  split; [intros H; by apply (Qpower_lt_compat_l_inv 2)|intros H; by apply Qpower_lt_compat_l].
Qed.

Lemma pow2_le e1 e2 : (e1 ≤ e2)%Z → (pow2 e1 <= pow2 e2)%Q.
Proof. intros H. by apply Qpower_le_compat_l. Qed.

Lemma pow2_add e1 e2 : (pow2 (e1 + e2) == pow2 e1 * pow2 e2)%Q.
Proof. by apply Qpower_plus. Qed.

Lemma pow2_Z e : (0 ≤ e)%Z → (pow2 e == inject_Z (2 ^ e))%Q.
Proof. intros H. by rw /pow2 Zpower_Qpower. Qed.

Lemma pow2_opp e : (pow2 (- e) == / pow2 e)%Q.
Proof. apply Qpower_opp. Qed.

(** ** Lemmas: the binade *)

Lemma binade_large x :
  (1 <= x)%Q → (pow2 (Z.log2 (Qfloor x)) <= x < pow2 (Z.log2 (Qfloor x) + 1))%Q.
Proof.
  intros H1.
  assert (1 ≤ Qfloor x)%Z as Hf by (change 1%Z with (Qfloor 1); by apply Qfloor_resp_le).
  destruct (Z.log2_spec (Qfloor x)) as [Hlo Hhi]; [lia|].
  pose proof (Z.log2_nonneg (Qfloor x)) as Hnn.
  rw !pow2_Z; [|lia|lia]. split.
  - eapply Qle_trans; [|apply Qfloor_le]. by rw -Zle_Qle.
  - eapply Qlt_le_trans; [apply Qlt_floor|]. rw -Zle_Qle. lia.
Qed.

Lemma binade_small x :
  (0 < x)%Q → (x < 1)%Q →
  (pow2 (- Z.log2_up (Qceiling (/ x))) <= x < pow2 (- Z.log2_up (Qceiling (/ x)) + 1))%Q.
Proof.
  intros H0 H1. set (c := Qceiling (/ x)). set (m := Z.log2_up c).
  assert (x * / x == 1)%Q as Hinv by (apply Qmult_inv_r; intros Hx; rw Hx in H0; by apply Qlt_irrefl in H0).
  assert (1 < / x)%Q as Hix.
  { apply (Qmult_lt_l _ _ x H0). by rw Hinv Qmult_1_r. }
  pose proof (Qle_ceiling (/ x)) as Hc1. pose proof (Qceiling_lt (/ x)) as Hc2.
  fold c in Hc1, Hc2.
  assert (2 ≤ c)%Z as Hc.
  { apply Z.lt_pred_le. simpl. rw Zlt_Qlt. eapply Qlt_le_trans; [apply Hix|apply Hc1]. }
  destruct (Z.log2_up_spec c) as [Hlo Hhi]; [lia|]. fold m in Hlo, Hhi.
  assert (1 ≤ m)%Z as Hm by (pose proof (Z.log2_up_pos c); lia).
  assert (pow2 (m - 1) < / x)%Q as Hbelow.
  { rw pow2_Z; [|lia]. eapply Qle_lt_trans; [|apply Hc2]. rw -Zle_Qle. rw -Z.sub_1_r in Hlo. lia. }
  assert (/ x <= pow2 m)%Q as Habove.
  { rw pow2_Z; [|lia]. eapply Qle_trans; [apply Hc1|]. by rw -Zle_Qle. }
  replace (- m + 1)%Z with (- (m - 1))%Z by lia. rw !pow2_opp. split.
  - apply Qle_shift_inv_r; [apply pow2_pos|].
    apply (Qle_trans _ (x * / x)); [by rw Hinv|by apply Qmult_le_l].
  - apply Qlt_shift_inv_l; [apply pow2_pos|].
    apply (Qlt_le_trans _ (x * / x)); [by apply Qmult_lt_l|by rw Hinv].
Qed.

Lemma binade_spec x : (0 < x)%Q → (pow2 (binade x) <= x < pow2 (binade x + 1))%Q.
Proof.
  intros H0. rw /binade. destruct (Qle_bool 1 x) eqn:H1.
  - by apply binade_large, Qle_bool_iff.
  - apply binade_small; [done|]. apply Qnot_le_lt. intros ?%Qle_bool_iff. congruence.
Qed.

(** The binade of [x] is the only one that has [x]. *)
Lemma binade_unique x e : (pow2 e <= x < pow2 (e + 1))%Q → binade x = e.
Proof.
  intros [Hlo Hhi].
  assert (0 < x)%Q as H0 by (eapply Qlt_le_trans; [apply (pow2_pos e)|done]).
  destruct (binade_spec x H0) as [Hlo' Hhi'].
  assert (binade x < e + 1)%Z by (apply pow2_lt; eapply Qle_lt_trans; done).
  assert (e < binade x + 1)%Z by (apply pow2_lt; eapply Qle_lt_trans; done).
  lia.
Qed.

(** ** Lemmas: rounding to an integer *)

Lemma nearestEven_bounds y : (Qfloor y ≤ nearestEven y ≤ Qfloor y + 1)%Z.
Proof. rw /nearestEven. destruct (_ ?= _)%Q; [destruct (Z.even _)|..]; lia. Qed.

(** Rounding reaches an even integer [T] from half a unit below it on. *)
Lemma nearestEven_ge y (T : Z) :
  Z.even T = true → (T ≤ nearestEven y)%Z ↔ (inject_Z T - (1 # 2) <= y)%Q.
Proof.
  intros HT. pose proof (Qfloor_le y) as Hlo. pose proof (Qlt_floor y) as Hhi.
  rw inject_Z_plus in Hhi. rw /nearestEven.
  destruct (Qcompare_spec (y - inject_Z (Qfloor y)) (1 # 2)) as [Heq|Hlt|Hgt].
  - destruct (Z.even (Qfloor y)) eqn:Hf; split; intros H; try by_rationals.
    + rw Zle_Qle in H. rationals.
    + apply Z.even_spec in HT as [a Ha]. apply Z.even_spec in Hf as [b Hb].
      assert (T ≤ Qfloor y + 1)%Z by by_rationals. lia.
    + rw Zle_Qle inject_Z_plus in H. rationals.
  - split; intros H; [rw Zle_Qle in H; rationals|].
    assert (T < Qfloor y + 1)%Z by by_rationals. lia.
  - split; intros H; [rw Zle_Qle inject_Z_plus in H; rationals|].
    assert (T < Qfloor y + 1 + 1)%Z by by_rationals. lia.
Qed.

Lemma Qlt_nle x y : (x < y)%Q ↔ ¬ (y <= x)%Q.
Proof. split; [apply Qlt_not_le|apply Qnot_le_lt]. Qed.

(** ** Lemmas: rounding to a double *)

(** A number of the binade [e], in units of the last place of the binade,
    lies between [2 ^ 52] and [2 ^ 53]. *)
Lemma binade_units x e :
  (pow2 e <= x < pow2 (e + 1))%Q →
  (inject_Z (2 ^ 52) <= x / pow2 (e - 52) < inject_Z (2 ^ 53))%Q.
Proof.
  intros [Hlo Hhi]. pose proof (pow2_pos (e - 52)) as Hu.
  rw -!pow2_Z //. split.
  - apply Qle_shift_div_l; [done|]. rw -pow2_add. by replace (52 + (e - 52))%Z with e by lia.
  - apply Qlt_shift_div_r; [done|]. rw -pow2_add. by replace (53 + (e - 52))%Z with (e + 1)%Z by lia.
Qed.

Lemma nearestEven_units y :
  (inject_Z (2 ^ 52) <= y < inject_Z (2 ^ 53))%Q → (2 ^ 52 ≤ nearestEven y ≤ 2 ^ 53)%Z.
Proof.
  intros [Hlo Hhi]. pose proof (nearestEven_bounds y) as [Hn1 Hn2].
  apply Qfloor_resp_le in Hlo. rw Qfloor_Z in Hlo.
  assert (Qfloor y < 2 ^ 53)%Z.
  { rw Zlt_Qlt. eapply Qle_lt_trans; [apply Qfloor_le|done]. }
  lia.
Qed.

(** The double nearest to a number of the binade [e]: the number of units
    in the last place is rounded to an integer. *)
Lemma roundDouble_binade x e :
  (-1022 ≤ e < 1023)%Z → (pow2 e <= x < pow2 (e + 1))%Q →
  roundDouble x = Some (Qred (inject_Z (nearestEven (x / pow2 (e - 52))) * pow2 (e - 52))).
Proof.
  intros He Hx. pose proof (binade_units x e Hx) as Hy.
  apply nearestEven_units in Hy as [Hn1 Hn2].
  assert (0 < x)%Q as H0 by (eapply Qlt_le_trans; [apply (pow2_pos e)|apply Hx]).
  apply Qgt_alt in H0.
  rw /roundDouble H0 /roundPositive /ulpExponent (binade_unique x e) // Z.max_l; [|lia].
  set (n := nearestEven _) in *. pose proof (pow2_pos (e - 52)) as Hu.
  assert (0 <= inject_Z n * pow2 (e - 52))%Q as Hpos.
  { apply Qmult_le_0_compat; [|apply Qlt_le_weak, pow2_pos]. change 0%Q with (inject_Z 0). rw -Zle_Qle. lia. }
  destruct (Qle_bool _ _) eqn:Hbig; [|done]. exfalso.
  apply Qle_bool_iff in Hbig. rw Qabs_pos // in Hbig.
  assert (inject_Z n * pow2 (e - 52) <= pow2 (e + 1))%Q as Hle.
  { replace (e + 1)%Z with (53 + (e - 52))%Z by lia. rw pow2_add (pow2_Z 53) //.
    apply Qmult_le_compat_r; [by rw -Zle_Qle|apply Qlt_le_weak, pow2_pos]. }
  assert (pow2 (e + 1) < pow2 1024)%Q by (apply pow2_lt; lia).
  lra.
Qed.

(** The double nearest to a number of the binade [e] lies in the closed
    binade, and it is below an even number [T] of units in the last place
    exactly when the number is more than half a unit below [T] units. *)
Lemma roundDouble_below x e (T : Z) :
  (-1022 ≤ e < 1023)%Z → (pow2 e <= x < pow2 (e + 1))%Q → Z.even T = true →
  ∃ R, roundDouble x = Some R ∧ (pow2 e <= R <= pow2 (e + 1))%Q ∧
       ((R < inject_Z T * pow2 (e - 52))%Q ↔
        (x < (inject_Z T - (1 # 2)) * pow2 (e - 52))%Q).
Proof.
  intros He Hx HT. pose proof (pow2_pos (e - 52)) as Hu.
  pose proof (binade_units x e Hx) as Hy. apply nearestEven_units in Hy as [Hn1 Hn2].
  eexists. split; [by apply roundDouble_binade|]. set (n := nearestEven _) in *.
  rw !Qred_correct. split; [split|].
  - replace e with (52 + (e - 52))%Z at 1 by lia. rw pow2_add (pow2_Z 52) //.
    apply Qmult_le_compat_r; [by rw -Zle_Qle|by apply Qlt_le_weak].
  - replace (e + 1)%Z with (53 + (e - 52))%Z by lia. rw pow2_add (pow2_Z 53) //.
    apply Qmult_le_compat_r; [by rw -Zle_Qle|by apply Qlt_le_weak].
  - rw Qmult_lt_r // -Zlt_Qlt Z.lt_nge (nearestEven_ge _ T) // -Qlt_nle. split.
    + intros H. apply (Qmult_lt_r _ _ _ Hu) in H.
      by rw /Qdiv -Qmult_assoc (Qmult_comm (/ _)) Qmult_inv_r ?Qmult_1_r in H; [|lra].
    + intros H. apply (Qmult_lt_r _ _ _ Hu).
      by rw /Qdiv -Qmult_assoc (Qmult_comm (/ _)) Qmult_inv_r ?Qmult_1_r; [|lra].
Qed.

(** ** Lemmas: equal rationals round alike *)

(** A rational has many fractions; the double nearest to it does not
    depend on the one it is written as, and is the same fraction for all. *)
#[export] Instance nearestEven_proper : Proper (Qeq ==> eq) nearestEven.
Proof.
  intros y1 y2 Hy. rw /nearestEven (Qfloor_comp _ _ Hy).
  by rw (Qcompare_comp (y1 - inject_Z (Qfloor y2))%Q (y2 - inject_Z (Qfloor y2))%Q
           (Qplus_comp _ _ Hy _ _ (Qeq_refl _)) _ _ (Qeq_refl (1 # 2))).
Qed.

#[export] Instance binade_proper : Proper (Qeq ==> eq) binade.
Proof.
  intros x1 x2 Hx. rw /binade (Qleb_comp _ _ (Qeq_refl 1) _ _ Hx).
  by rw (Qfloor_comp _ _ Hx) (Qceiling_comp _ _ (Qinv_comp _ _ Hx)).
Qed.

#[export] Instance roundPositive_proper : Proper (Qeq ==> eq) roundPositive.
Proof.
  intros x1 x2 Hx. rw /roundPositive /ulpExponent (binade_proper _ _ Hx).
  by rw (nearestEven_proper _ _ (Qmult_comp _ _ Hx _ _ (Qeq_refl _))).
Qed.

#[export] Instance roundDouble_proper : Proper (Qeq ==> eq) roundDouble.
Proof.
  intros x1 x2 Hx. rw /roundDouble (Qcompare_comp _ _ Hx _ _ (Qeq_refl 0)).
  by rw (roundPositive_proper _ _ Hx) (roundPositive_proper _ _ (Qopp_comp _ _ Hx)).
Qed.

(** ** Lemmas: integers *)

Lemma nearestEven_integer (n : Z) : nearestEven (inject_Z n) = n.
Proof.
  rw /nearestEven Qfloor_Z. by destruct (Qcompare_spec (inject_Z n - inject_Z n) (1 # 2)); [lra| |lra].
Qed.

(** The doubles are symmetric around 0. *)
Lemma roundDouble_opp x : (0 < x)%Q → roundDouble (- x) = Qopp <$> roundDouble x.
Proof.
  intros H0. rw /roundDouble.
  destruct (Qcompare_spec (- x) 0); [lra| |lra]. destruct (Qcompare_spec x 0); [lra..|].
  rw (roundPositive_proper _ _ (Qopp_involutive x)).
  rw (Qleb_comp _ _ (Qeq_refl _) _ _ (Qabs_opp (roundPositive x))).
  destruct (Qle_bool _ _); [done|]. by rw /= Qred_opp.
Qed.

Lemma Qred_integer (n : Z) : Qred (inject_Z n) = inject_Z n.
Proof. apply Qcanon.Qred_identity, Z.gcd_1_r. Qed.

(** A positive integer below [2 ^ 53] is a double. *)
Lemma roundDouble_integer (n : Z) :
  (0 < n < 2 ^ 53)%Z → roundDouble (inject_Z n) = Some (inject_Z n).
Proof.
  intros Hn. destruct (Z.log2_spec n) as [Hlo Hhi]; [lia|].
  pose proof (Z.log2_nonneg n) as He. set (e := Z.log2 n) in *.
  assert (e < 53)%Z as He' by (apply (Z.pow_lt_mono_r_iff 2); lia).
  assert (inject_Z n / pow2 (e - 52) == inject_Z (n * 2 ^ (52 - e)))%Q as Hunits.
  { rw inject_Z_mult -pow2_Z; [|lia]. replace (52 - e)%Z with (- (e - 52))%Z by lia. by rw pow2_opp. }
  trans (Some (Qred (inject_Z n))); [|by rw Qred_integer]. rw (roundDouble_binade _ e).
  - f_equal. apply Qred_complete.
    rw Hunits nearestEven_integer inject_Z_mult -Qmult_assoc -(pow2_Z (52 - e)); [|lia].
    rw -pow2_add. replace (52 - e + (e - 52))%Z with 0%Z by lia. apply Qmult_1_r.
  - lia.
  - rw !pow2_Z; [|lia..]. by rw -Zle_Qle -Zlt_Qlt Z.add_1_r.
Qed.

Lemma roundDouble_zero : roundDouble 0 = Some 0%Q.
Proof. by vm_compute. Qed.

(** Every safe integer is a double. *)
Lemma roundDouble_safeInteger (n : Z) :
  safeInteger n → roundDouble (inject_Z n) = Some (inject_Z n).
Proof.
  rw /safeInteger /MAX_SAFE_INTEGER. intros Hn. destruct (Z.lt_total n 0) as [Hneg|[->|Hpos]].
  - rw (roundDouble_proper (inject_Z n) (- inject_Z (- n))%Q);
      [|rw /Qeq /=; lia].
    rw roundDouble_opp; [|change 0%Q with (inject_Z 0); rw -Zlt_Qlt; lia].
    rw roundDouble_integer; [|lia]. by rw /= /Qopp /= Z.opp_involutive.
  - apply roundDouble_zero.
  - apply roundDouble_integer. lia.
Qed.

(** ** The rounding on numbers of every size *)

(** The roundings an engine computes: a product that is not a double
    (0.1 times 3), an integer beyond the safe ones, the largest double
    times 100, half the smallest double, and a tie among the subnormal
    numbers. *)
Example roundDouble_examples :
  roundDouble ((3602879701896397 # 2 ^ 55) * 3) = Some (1351079888211149 # 2 ^ 52)%Q ∧
  roundDouble (inject_Z (2 ^ 53 + 1)) = Some (inject_Z (2 ^ 53)) ∧
  roundDouble (inject_Z ((2 ^ 53 - 1) * 2 ^ 971) * 100) = None ∧
  roundDouble ((1 # 2 ^ 1074) * (1 # 2)) = Some 0%Q ∧
  roundDouble ((3 # 2 ^ 1074) * (1 # 2)) = Some (1 # 2 ^ 1073)%Q.
Proof. by vm_compute. Qed.
