(* ===== verification/Nearest.v ===== *)
(** * Nearest: the rounding of [Double.v] is the rounding of the standard

    [Double.roundDouble] computes a double from a rational by rounding a
    number of units in the last place.  The standard of the doubles says
    what the result of an operation is without saying how to compute it: of
    the doubles, the one nearest to the exact result; of two that are as
    near, the one whose last bit is 0; and an infinity when the exact
    result, rounded as if exponents had no bound, is [2 ^ 1024] or more.

    [double d] says that the rational [d] is a double: an integer of less
    than 53 bits times a power of two between [2 ^ -1074] and [2 ^ 971].
    This file proves that [roundDouble] meets the standard: what it returns
    is a double ([roundDouble_double]), no double is nearer
    ([roundDouble_nearest]), a double that is as near is the next one on
    the grid of the result, which is the even one of the two
    ([roundDouble_even]), and it returns nothing exactly from
    [2 ^ 1024 - 2 ^ 970] on in magnitude ([roundDouble_overflow]).  So the
    rounding is monotone: the rounding of a number at or below a double is
    at or below that double, and as much above ([roundDouble_le_double],
    [roundDouble_ge_double]).

    The proofs work in units of the last place: a double is a whole number
    of units of a number next to it, or it is so small that [2 ^ 52] units
    lie between the two ([double_units]); among the whole numbers of units
    [Double.nearestEven] picks a nearest one ([nearestEven_nearest]), and
    the even one of two ([nearestEven_tie]). *)

From Stdlib Require Import QArith Qround Qabs Qpower Lqa.
From stdpp Require Import ssreflect base tactics option list strings.
From S2P Require Import Prelude Double.

Implicit Types (x y d p : Q) (e u k m n : Z).

(** ** Specification *)

(** The rationals that are doubles. *)
Definition double d : Prop :=
  ∃ m e, (Z.abs m < 2 ^ 53)%Z ∧ (-1074 ≤ e ≤ 971)%Z ∧ (d == inject_Z m * pow2 e)%Q.

(** [y] and [d] are next to each other on a grid of doubles, and [y] is the
    even one of the two. *)
Definition evenNeighbour y d : Prop :=
  ∃ m e, Z.even m = true ∧ (-1074 ≤ e)%Z ∧ (y == inject_Z m * pow2 e)%Q ∧
         (d == inject_Z (m + 1) * pow2 e ∨ d == inject_Z (m - 1) * pow2 e)%Q.

(** The number from which on the nearest double would be [2 ^ 1024]: half
    a unit below it, [2 ^ 1024 - 2 ^ 970]. *)
Definition overflowThreshold : Q := inject_Z (2 ^ 54 - 1) * pow2 970.

(** ** Lemmas: absolute values *)

Lemma Qabs_le_above a b : (- b <= a)%Q → (a <= b)%Q → (Qabs a <= Qabs b)%Q.
Proof.
  intros H1 H2. apply Qabs_Qle_condition. pose proof (Qle_Qabs b). split; lra.
Qed.

Lemma Qabs_le_below a b : (b <= a)%Q → (a <= - b)%Q → (Qabs a <= Qabs b)%Q.
Proof. intros H1 H2. rw -(Qabs_opp b). apply Qabs_le_above; lra. Qed.

(** Distances in units of [p]. *)
Lemma Qabs_units x k p :
  (0 < p)%Q → (Qabs (x - inject_Z k * p) == Qabs (x / p - inject_Z k) * p)%Q.
Proof.
  intros Hp. trans (Qabs ((x / p - inject_Z k) * p)); [apply Qabs_wd; field; lra|].
  rw Qabs_Qmult (Qabs_pos p); [done|lra].
Qed.

(** ** Tactics *)

(** An equality between integers from the equality between them as
    rationals. *)
Ltac integers :=
  apply inject_Z_injective; rw ?inject_Z_plus ?inject_Z_opp; rationals.

(** ** Lemmas: the nearest integer *)

(** An integer is at or below the floor of a number, or above the number. *)
Lemma Qfloor_cases y k : (inject_Z k <= inject_Z (Qfloor y))%Q ∨ (inject_Z (Qfloor y) + 1 <= inject_Z k)%Q.
Proof.
  destruct (Z.le_gt_cases k (Qfloor y)) as [Hk|Hk]; [left; by rw -Zle_Qle|right].
  change 1%Q with (inject_Z 1). rw -inject_Z_plus -Zle_Qle. lia.
Qed.

Lemma nearestEven_nearest y k :
  (Qabs (y - inject_Z (nearestEven y)) <= Qabs (y - inject_Z k))%Q.
Proof.
  pose proof (Qfloor_le y) as Hlo. pose proof (Qlt_floor y) as Hhi.
  rw inject_Z_plus in Hhi. change (inject_Z 1) with 1%Q in Hhi.
  assert (inject_Z (Qfloor y + 1) == inject_Z (Qfloor y) + 1)%Q as Hup by by rw inject_Z_plus.
  rw /nearestEven.
  destruct (Qcompare_spec (y - inject_Z (Qfloor y)) (1 # 2)) as [Heq|Hlt|Hgt];
    [destruct (Z.even _)|..]; rw ?Hup;
    (destruct (Qfloor_cases y k); [apply Qabs_le_above|apply Qabs_le_below]); lra.
Qed.

Lemma Qabs_eq_cases a b : (Qabs a == Qabs b)%Q → (a == b ∨ a == - b)%Q.
Proof.
  apply (Qabs_case a); apply (Qabs_case b); intros; [left|right|right|left]; lra.
Qed.

(** An integer as near to a number as the one the number rounds to: the
    number is half way between them, and it rounds to the even one. *)
Lemma nearestEven_tie y k :
  (Qabs (y - inject_Z k) == Qabs (y - inject_Z (nearestEven y)))%Q → k ≠ nearestEven y →
  Z.even (nearestEven y) = true ∧ (k = nearestEven y + 1 ∨ k + 1 = nearestEven y)%Z.
Proof.
  intros [Hk|Hk]%Qabs_eq_cases Hne; [destruct Hne; integers|].
  pose proof (Qfloor_le y) as Hlo. pose proof (Qlt_floor y) as Hhi.
  rw inject_Z_plus in Hhi. revert Hk Hne. rw /nearestEven.
  destruct (Qcompare_spec (y - inject_Z (Qfloor y)) (1 # 2)) as [Heq|Hlt|Hgt];
    [destruct (Z.even (Qfloor y)) eqn:Hf|..]; rw ?inject_Z_plus; intros Hk Hne.
  - split; [done|]. left. integers.
  - split; [by rw Z.even_add Hf|]. right. integers.
  - assert (Qfloor y ≤ k)%Z by by_rationals. assert (k < Qfloor y + 1)%Z by by_rationals. lia.
  - assert (Qfloor y < k)%Z by by_rationals. assert (k < Qfloor y + 1)%Z by by_rationals. lia.
Qed.

(** ** Lemmas: doubles *)

Lemma double_zero : double 0.
Proof. exists 0%Z, 0%Z. split; [done|]. split; [lia|]. by rw Qmult_0_l. Qed.

Lemma double_integer m : (Z.abs m < 2 ^ 53)%Z → double (inject_Z m).
Proof. intros Hm. exists m, 0%Z. split; [done|]. split; [lia|]. by rw Qmult_1_r. Qed.

Lemma double_opp d : double d → double (- d).
Proof.
  intros (m & e & Hm & He & Hd). exists (- m)%Z, e. split; [lia|]. split; [done|].
  rw Hd inject_Z_opp. ring.
Qed.

#[export] Instance double_proper : Proper (Qeq ==> iff) double.
Proof.
  intros d1 d2 Hd. rw /double. by setoid_rewrite Hd.
Qed.

(** A double is a whole number of units of exponent [u], or it is below
    [2 ^ (u + 52)] in magnitude: then its last place is finer than [u]. *)
Lemma double_units d u :
  double d → (∃ k, d == inject_Z k * pow2 u)%Q ∨ ((-1074 < u)%Z ∧ (Qabs d < pow2 (u + 52))%Q).
Proof.
  intros (m & e & Hm & He & Hd). destruct (Z.le_gt_cases u e) as [Hu|Hu].
  - left. exists (m * 2 ^ (e - u))%Z.
    rw Hd inject_Z_mult -(pow2_Z (e - u)); [|lia]. rw -Qmult_assoc -pow2_add.
    by replace (e - u + u)%Z with e by lia.
  - right. split; [lia|]. rw Hd Qabs_Qmult (Qabs_pos (pow2 e)); [|apply Qlt_le_weak, pow2_pos].
    apply (Qlt_le_trans _ (inject_Z (2 ^ 53) * pow2 e)).
    + apply Qmult_lt_compat_r; [apply pow2_pos|].
      rw Qabs_Qlt_condition -inject_Z_opp -!Zlt_Qlt. lia.
    + rw -(pow2_Z 53) // -pow2_add. apply pow2_le. lia.
Qed.

Lemma evenNeighbour_opp y d : evenNeighbour y d → evenNeighbour (- y) (- d).
Proof.
  intros (m & e & Hm & He & Hy & Hd). exists (- m)%Z, e.
  split; [by rw Z.even_opp|]. split; [done|]. split; [rw Hy inject_Z_opp; ring|].
  replace (- m + 1)%Z with (- (m - 1))%Z by lia. replace (- m - 1)%Z with (- (m + 1))%Z by lia.
  rw !inject_Z_opp. destruct Hd as [Hd|Hd]; [right|left]; rw Hd; ring.
Qed.

#[export] Instance evenNeighbour_proper : Proper (Qeq ==> Qeq ==> iff) evenNeighbour.
Proof.
  intros y1 y2 Hy d1 d2 Hd. rw /evenNeighbour. setoid_rewrite Hy. by setoid_rewrite Hd.
Qed.

(** ** Lemmas: the unit in the last place *)

Lemma pow2_units j u : (0 ≤ j)%Z → (inject_Z (2 ^ j) * pow2 u == pow2 (j + u))%Q.
Proof. intros Hj. by rw pow2_add (pow2_Z j). Qed.


(** The unit of a positive number: no finer than [2 ^ -1074], the number
    has less than 53 bits in units, and 53 of them unless the unit is the
    finest. *)
Lemma ulpExponent_spec x :
  (0 < x)%Q →
  (-1074 ≤ ulpExponent x)%Z ∧ (x < pow2 (ulpExponent x + 53))%Q ∧
  ((ulpExponent x = -1074)%Z ∨ (pow2 (ulpExponent x + 52) <= x)%Q).
Proof.
  intros H0. destruct (binade_spec x H0) as [Hlo Hhi]. rw /ulpExponent.
  destruct (Z.le_gt_cases (-1022) (binade x)) as [He|He].
  - rw Z.max_l //. split; [lia|]. split; [|right].
    + by replace (binade x - 52 + 53)%Z with (binade x + 1)%Z by lia.
    + by replace (binade x - 52 + 52)%Z with (binade x) by lia.
  - rw Z.max_r; [|lia]. split; [done|]. split; [|by left].
    eapply Qlt_le_trans; [done|]. apply pow2_le. lia.
Qed.

(** The number of units of the rounding of a positive number. *)
Lemma units_bounds x :
  (0 < x)%Q →
  (0 ≤ nearestEven (x / pow2 (ulpExponent x)) ≤ 2 ^ 53)%Z ∧
  (ulpExponent x ≠ -1074 → 2 ^ 52 ≤ nearestEven (x / pow2 (ulpExponent x)))%Z.
Proof.
  intros H0. destruct (ulpExponent_spec x H0) as (Hu & Hhi & Hlo).
  set (u := ulpExponent x) in *. pose proof (pow2_pos u) as Hp.
  pose proof (nearestEven_bounds (x / pow2 u)) as [Hn1 Hn2].
  assert (x / pow2 u < inject_Z (2 ^ 53))%Q as Hy.
  { apply Qlt_shift_div_r; [done|]. rw -(pow2_Z 53) // -pow2_add. by rw Z.add_comm. }
  assert (0 <= x / pow2 u)%Q as Hy0 by (apply Qle_shift_div_l; [done|lra]).
  apply Qfloor_resp_le in Hy0. change (Qfloor 0) with 0%Z in Hy0.
  assert (Qfloor (x / pow2 u) < 2 ^ 53)%Z.
  { rw Zlt_Qlt. eapply Qle_lt_trans; [apply Qfloor_le|done]. }
  split; [lia|]. intros Hfine. destruct Hlo as [?|Hlo]; [done|].
  assert (inject_Z (2 ^ 52) <= x / pow2 u)%Q as Hy52.
  { apply Qle_shift_div_l; [done|]. rw -(pow2_Z 52) // -pow2_add. by rw Z.add_comm. }
  apply Qfloor_resp_le in Hy52. rw Qfloor_Z in Hy52. lia.
Qed.

(** ** Lemmas: the nearest double to a positive number *)

(** No multiple of the unit is nearer to a positive number than its
    rounding. *)
Lemma roundPositive_units x k :
  (0 < x)%Q →
  (Qabs (x - roundPositive x) <= Qabs (x - inject_Z k * pow2 (ulpExponent x)))%Q.
Proof.
  intros H0. pose proof (pow2_pos (ulpExponent x)) as Hp. rw /roundPositive !Qabs_units //.
  apply Qmult_le_compat_r; [apply nearestEven_nearest|lra].
Qed.

(** A double that is no multiple of the unit is farther from the number
    than [2 ^ 52] units are. *)
Lemma finer_farther x d :
  (0 < x)%Q → (-1074 < ulpExponent x)%Z → (Qabs d < pow2 (ulpExponent x + 52))%Q →
  (Qabs (x - roundPositive x) < Qabs (x - d))%Q.
Proof.
  intros H0 Hfine Hsmall. destruct (ulpExponent_spec x H0) as (_ & _ & [?|Hlo]); [lia|].
  pose proof (roundPositive_units x (2 ^ 52) H0) as Hnear.
  pose proof (pow2_units 52 (ulpExponent x) ltac:(done)) as H52. rw Z.add_comm in H52.
  pose proof (Qle_Qabs d). pose proof (Qle_Qabs (x - d)).
  rw (Qabs_pos (x - _ * _)) in Hnear; lra.
Qed.

Lemma roundPositive_nearest x d :
  (0 < x)%Q → double d → (Qabs (x - roundPositive x) <= Qabs (x - d))%Q.
Proof.
  intros H0 Hd. destruct (double_units d (ulpExponent x) Hd) as [[k Hk]|[Hfine Hsmall]].
  - rw Hk. by apply roundPositive_units.
  - by apply Qlt_le_weak, finer_farther.
Qed.

(** A double as near to a positive number as its rounding is the next
    multiple of the unit, and the rounding is an even multiple. *)
Lemma roundPositive_even x d :
  (0 < x)%Q → double d → ¬ (d == roundPositive x)%Q →
  (Qabs (x - d) == Qabs (x - roundPositive x))%Q → evenNeighbour (roundPositive x) d.
Proof.
  intros H0 Hd Hne Htie. destruct (ulpExponent_spec x H0) as (Hu & _ & _).
  destruct (double_units d (ulpExponent x) Hd) as [[k Hk]|[Hfine Hsmall]]; last first.
  { pose proof (finer_farther x d H0 Hfine Hsmall). lra. }
  pose proof (pow2_pos (ulpExponent x)) as Hp. rw /roundPositive in Hne Htie |- *.
  rw Hk in Hne. rw Hk !Qabs_units // Qmult_inj_r in Htie; [|lra].
  destruct (nearestEven_tie _ k Htie) as [Heven Hnext]; [by intros ->|].
  exists (nearestEven (x / pow2 (ulpExponent x))), (ulpExponent x).
  split; [done|]. split; [done|]. split; [done|]. rw Hk.
  destruct Hnext as [->| <-]; [by left|right]. by replace (k + 1 - 1)%Z with k by lia.
Qed.

Lemma roundPositive_double x :
  (0 < x)%Q → (roundPositive x < pow2 1024)%Q → double (roundPositive x).
Proof.
  intros H0 Hsmall. destruct (ulpExponent_spec x H0) as (Hu & _ & _).
  destruct (units_bounds x H0) as [[Hn0 Hn] Hn52]. rw /roundPositive in Hsmall |- *.
  set (u := ulpExponent x) in *. set (n := nearestEven _) in *.
  pose proof (pow2_pos u) as Hp. destruct (decide (n = 2 ^ 53)%Z) as [Hmax|Hmax].
  - exists (2 ^ 52)%Z, (u + 1)%Z. rw Hmax -!pow2_Z // -!pow2_add in Hsmall |- *.
    apply -> pow2_lt in Hsmall. split; [done|]. split; [lia|]. by replace (52 + (u + 1))%Z with (53 + u)%Z by lia.
  - exists n, u. split; [lia|]. split; [|done]. split; [done|].
    destruct (decide (u = -1074)%Z) as [->|Hfine]; [done|].
    assert (pow2 (52 + u) < pow2 1024)%Q as Hlt; [|apply -> pow2_lt in Hlt; lia].
    eapply Qle_lt_trans; [|done]. rw pow2_add (pow2_Z 52) //.
    apply Qmult_le_compat_r; [rw -Zle_Qle; auto|lra].
Qed.

(** ** Lemmas: what [roundDouble] returns *)

Lemma roundDouble_Some x y :
  roundDouble x = Some y →
  (x == 0 ∧ y == 0)%Q ∨
  ((0 < x)%Q ∧ (y == roundPositive x)%Q ∧ (roundPositive x < pow2 1024)%Q) ∨
  ((0 < - x)%Q ∧ (y == - roundPositive (- x))%Q ∧ (roundPositive (- x) < pow2 1024)%Q).
Proof.
  rw /roundDouble. destruct (Qcompare_spec x 0) as [Hx|Hx|Hx].
  - destruct (Qle_bool _ _); [done|]. intros [= <-]. by left.
  - destruct (Qle_bool _ _) eqn:Hbig; [done|]. intros [= <-]. right; right.
    split; [lra|]. split; [apply Qred_correct|]. apply Qnot_le_lt. intros Hle.
    rw Qabs_opp in Hbig. pose proof (Qle_Qabs (roundPositive (- x))) as Habs.
    assert (Qle_bool (pow2 1024) (Qabs (roundPositive (- x))) = true); [|congruence].
    apply Qle_bool_iff. lra.
  - destruct (Qle_bool _ _) eqn:Hbig; [done|]. intros [= <-]. right; left.
    split; [done|]. split; [apply Qred_correct|]. apply Qnot_le_lt. intros Hle.
    pose proof (Qle_Qabs (roundPositive x)) as Habs.
    assert (Qle_bool (pow2 1024) (Qabs (roundPositive x)) = true); [|congruence].
    apply Qle_bool_iff. lra.
Qed.

(** ** The rounding meets the standard *)

(** What [roundDouble] returns is a double. *)
Theorem roundDouble_double x y : roundDouble x = Some y → double y.
Proof.
  intros [[_ ->]|[(H0 & -> & Hsmall)|(H0 & -> & Hsmall)]]%roundDouble_Some.
  - apply double_zero.
  - by apply roundPositive_double.
  - by apply double_opp, roundPositive_double.
Qed.

(** No double is nearer to [x] than the one [roundDouble] returns. *)
Theorem roundDouble_nearest x y d :
  roundDouble x = Some y → double d → (Qabs (x - y) <= Qabs (x - d))%Q.
Proof.
  intros [[-> ->]|[(H0 & -> & _)|(H0 & -> & _)]]%roundDouble_Some Hd.
  - apply Qabs_nonneg.
  - by apply roundPositive_nearest.
  - apply double_opp in Hd. pose proof (roundPositive_nearest (- x) (- d) H0 Hd) as Hnear.
    rw -(Qabs_opp (x - _)) -(Qabs_opp (x - d)).
    by rw (Qabs_wd (- (x - - roundPositive (- x))) (- x - roundPositive (- x)))
          ?(Qabs_wd (- (x - d)) (- x - - d)); [|ring..].
Qed.

(** A double as near to [x] as the one [roundDouble] returns is next to it,
    and [roundDouble] has returned the even one of the two. *)
Theorem roundDouble_even x y d :
  roundDouble x = Some y → double d → ¬ (d == y)%Q →
  (Qabs (x - d) == Qabs (x - y))%Q → evenNeighbour y d.
Proof.
  intros [[Hx Hy]|[(H0 & Hy & _)|(H0 & Hy & _)]]%roundDouble_Some Hd Hne Htie.
  - destruct Hne. apply Qabs_eq_cases in Htie as [?|?]; lra.
  - rw Hy in Hne Htie |- *. by apply roundPositive_even.
  - apply (evenNeighbour_proper _ _ Hy _ _ (Qeq_sym _ _ (Qopp_involutive d))).
    apply evenNeighbour_opp, roundPositive_even; [done|by apply double_opp|..].
    + intros Hd'. apply Hne. rw Hy -Hd'. ring.
    + trans (Qabs (x - d)); [rw -(Qabs_opp (x - d)); apply Qabs_wd; ring|].
      rw Htie -(Qabs_opp (x - y)). apply Qabs_wd. rw Hy. ring.
Qed.

(** Rounding is monotone: it does not cross a double. *)
Theorem roundDouble_le_double x y d :
  roundDouble x = Some y → double d → (x <= d)%Q → (y <= d)%Q.
Proof.
  intros Hround Hd Hx. pose proof (roundDouble_nearest x y d Hround Hd) as Hnear.
  apply Qnot_lt_le. intros Hlt. rw !Qabs_neg in Hnear; lra.
Qed.

Theorem roundDouble_ge_double x y d :
  roundDouble x = Some y → double d → (d <= x)%Q → (d <= y)%Q.
Proof.
  intros Hround Hd Hx. pose proof (roundDouble_nearest x y d Hround Hd) as Hnear.
  apply Qnot_lt_le. intros Hlt. rw !Qabs_pos in Hnear; lra.
Qed.

(** ** Lemmas: where the rounding overflows *)

Lemma overflowThreshold_units :
  (overflowThreshold == (inject_Z (2 ^ 53) - (1 # 2)) * pow2 971)%Q.
Proof. by vm_compute. Qed.

Lemma overflowThreshold_bounds : (pow2 1023 <= overflowThreshold < pow2 1024)%Q.
Proof. by vm_compute. Qed.

(** Numbers of units compare as the numbers do. *)
Lemma units_le k n p : (0 < p)%Q → (inject_Z k * p <= inject_Z n * p)%Q ↔ (k ≤ n)%Z.
Proof. intros Hp. by rw Qmult_le_r // -Zle_Qle. Qed.

Lemma units_shift x y p : (0 < p)%Q → (y <= x / p)%Q ↔ (y * p <= x)%Q.
Proof.
  intros Hp. rw -(Qmult_le_r y (x / p) p) //.
  by rw (Qle_comp _ _ (Qeq_refl (y * p)%Q) (x / p * p)%Q x); [|field; lra].
Qed.

Lemma roundPositive_nonneg x : (0 < x)%Q → (0 <= roundPositive x)%Q.
Proof.
  intros H0. destruct (units_bounds x H0) as [[Hn0 _] _].
  apply Qmult_le_0_compat; [by rw -(Zle_Qle 0)|apply Qlt_le_weak, pow2_pos].
Qed.

Lemma roundPositive_overflow x :
  (0 < x)%Q → (pow2 1024 <= roundPositive x)%Q ↔ (overflowThreshold <= x)%Q.
Proof.
  intros H0. destruct (ulpExponent_spec x H0) as (Hu & Hhi & Hlo).
  destruct (units_bounds x H0) as [[Hn0 Hn] Hn52]. rw /roundPositive.
  pose proof overflowThreshold_bounds as [Ht1 Ht2].
  set (u := ulpExponent x) in *. pose proof (pow2_pos u) as Hp.
  destruct (Z.lt_trichotomy u 971) as [Hlt|[Heq|Hgt]].
  - assert (pow2 (53 + u) <= pow2 1023)%Q as H1 by (apply pow2_le; lia).
    apply (proj2 (units_le _ _ (pow2 u) Hp)) in Hn.
    pose proof (pow2_units 53 u ltac:(done)) as H53. rw Z.add_comm in Hhi. split; lra.
  - rw Heq in Hp |- *.
    rw (Qle_comp _ _ (Qeq_sym _ _ (pow2_units 53 971 ltac:(done))) _ _ (Qeq_refl _)).
    rw (Qle_comp _ _ overflowThreshold_units _ _ (Qeq_refl x)).
    rw (units_le _ _ _ Hp) -(units_shift x _ _ Hp). by apply nearestEven_ge.
  - destruct Hlo as [?|Hlo]; [lia|]. rw Z.add_comm in Hlo.
    assert (pow2 1024 <= pow2 (52 + u))%Q as H1 by (apply pow2_le; lia).
    assert (2 ^ 52 ≤ nearestEven (x / pow2 u))%Z as H52 by (apply Hn52; lia).
    apply (proj2 (units_le _ _ (pow2 u) Hp)) in H52.
    pose proof (pow2_units 52 u ltac:(done)) as E52. split; lra.
Qed.

Lemma roundPositive_abs x : (0 < x)%Q → (Qabs (roundPositive x) == roundPositive x)%Q.
Proof. intros H0. by apply Qabs_pos, roundPositive_nonneg. Qed.

Lemma roundDouble_None x :
  roundDouble x = None ↔
  (pow2 1024 <= Qabs match (x ?= 0)%Q with
                     | Eq => 0
                     | Gt => roundPositive x
                     | Lt => - roundPositive (- x)
                     end)%Q.
Proof. rw /roundDouble -Qle_bool_iff. destruct (Qle_bool _ _); naive_solver. Qed.

(** ** The rounding overflows from the threshold on *)

Theorem roundDouble_overflow x :
  roundDouble x = None ↔ (overflowThreshold <= Qabs x)%Q.
Proof.
  pose proof overflowThreshold_bounds as [Ht1 Ht2]. pose proof (pow2_pos 1023) as Hp.
  rw roundDouble_None. destruct (Qcompare_spec x 0) as [Hx|Hx|Hx].
  - change (Qabs 0) with 0%Q. rw (Qle_comp _ _ (Qeq_refl _) _ _ (Qabs_wd x 0 Hx)).
    change (Qabs 0) with 0%Q. split; lra.
  - assert (0 < - x)%Q as H0 by lra.
    rw (Qle_comp _ _ (Qeq_refl overflowThreshold) _ _ (Qabs_neg x (Qlt_le_weak _ _ Hx))).
    etrans; [|apply (roundPositive_overflow _ H0)]. apply Qle_comp; [apply Qeq_refl|].
    rw Qabs_opp. by apply roundPositive_abs.
  - rw (Qle_comp _ _ (Qeq_refl overflowThreshold) _ _ (Qabs_pos x (Qlt_le_weak _ _ Hx))).
    etrans; [|apply (roundPositive_overflow _ Hx)]. apply Qle_comp; [apply Qeq_refl|].
    by apply roundPositive_abs.
Qed.
