(* ===== verification/Number.v ===== *)
(** * Number: the numbers of the language and the operations of [retry.js] on them

    [retry.js] computes with numbers in three places, all on line 4 and 5:
    the products [Math.random() * 100] and [a * b], the call of
    [Math.round], and the comparison [<= 20].  [Retry.v] computes them on
    integers and rationals.  This file has them as the language defines
    them.

    A [Number] is a double, written as the rational it is ([Finite]), or one
    of the four numbers that are no rationals: the negative zero, the two
    infinities, and [NaN].  The type lets [Finite] carry any rational; the
    values of the language are those that carry a double ([isNumber]), and
    the operations return such values ([Number_multiply_isNumber], on any
    operands, and [Math_roundDouble_isNumber]).

    - [Number_multiply] is [*]: the sign of the result is the exclusive or
      of the signs, an infinity times a zero is [NaN], a product of finite
      numbers is rounded to the nearest double ([Double.roundDouble]) and
      is an infinity when it is too large;
    - [Math_roundDouble] is [Math.round], which keeps the sign of a number
      that it rounds to zero;
    - [Number_le] is [<=], false as soon as an operand is [NaN].

    On integers whose product is a safe integer, [*] is the product of
    integers, up to the sign of a zero ([Number_multiply_safe]): the
    arithmetic of [Retry.v] is the arithmetic of the language there, and it
    is not beyond ([Number_multiply_examples]).

    On any two finite numbers [*] is the product as the standard of the
    doubles defines it ([Nearest.v]): a finite result is the double nearest
    to the exact product, the even one of two that are as near
    ([Number_multiply_nearest]), and the result is an infinity exactly when
    the exact product is [2 ^ 1024 - 2 ^ 970] or more in magnitude
    ([Number_multiply_overflow]). *)

From Stdlib Require Import QArith Qround Qabs Lqa.
From stdpp Require Import ssreflect base tactics option list strings.
From S2P Require Import Prelude Exec Retry Double Nearest.

(** ** Data *)

Inductive Number : Type :=
  | Finite (x : Q)
  | NegativeZero
  | Infinity
  | NegativeInfinity
  | NaN.

Implicit Types (a b : Number) (x y : Q) (m n : Z).

(** The number an integer is, when it is a double. *)
Definition number n : Number := Finite (inject_Z n).

(** ** Operations *)

(** The sign of a number: [true] when it is negative. *)
Definition negative a : bool :=
  match a with
  | Finite x => match (x ?= 0)%Q with Lt => true | _ => false end
  | NegativeZero | NegativeInfinity => true
  | Infinity | NaN => false
  end.

Definition isZero a : bool :=
  match a with
  | Finite x => Qeq_bool x 0
  | NegativeZero => true
  | _ => false
  end.

(** The rational a finite number is. *)
Definition realValue a : Q :=
  match a with
  | Finite x => x
  | _ => 0
  end.

Definition signedInfinity (sign : bool) : Number :=
  if sign then NegativeInfinity else Infinity.

Definition signedZero (sign : bool) : Number :=
  if sign then NegativeZero else Finite 0.

(** [a * b]. *)
Definition Number_multiply a b : Number :=
  let sign := xorb (negative a) (negative b) in
  match a, b with
  | NaN, _ | _, NaN => NaN
  | (Infinity | NegativeInfinity), _ | _, (Infinity | NegativeInfinity) =>
      if isZero a || isZero b then NaN else signedInfinity sign
  | _, _ =>
      match roundDouble (realValue a * realValue b) with
      | None => signedInfinity sign
      | Some y => if Qeq_bool y 0 then signedZero sign else Finite y
      end
  end.

(** [Math.round(a)]: the nearest integer, halves rounded up; a negative
    number that rounds to zero rounds to the negative zero. *)
Definition Math_roundDouble a : Number :=
  match a with
  | Finite x =>
      if bool_decide (Math_round x = 0)%Z && negative a then NegativeZero
      else number (Math_round x)
  | _ => a
  end.

(** [a <= b]. *)
Definition Number_le a b : bool :=
  match a, b with
  | NaN, _ | _, NaN => false
  | NegativeInfinity, _ | _, Infinity => true
  | Infinity, _ | _, NegativeInfinity => false
  | _, _ => Qle_bool (realValue a) (realValue b)
  end.

(** ** Specification *)

(** The values of the type: a finite number is a double. *)
Definition isNumber a : Prop :=
  match a with
  | Finite x => double x
  | _ => True
  end.

(** ** Lemmas: integers as numbers *)

Lemma negative_number n : negative (number n) = bool_decide (n < 0)%Z.
Proof.
  rw /negative /number /Qcompare /= Z.mul_1_r. change (0 * 1)%Z with 0%Z.
  case_bool_decide; destruct (Z.compare_spec n 0); done || lia.
Qed.

Lemma Qeq_bool_integer n : Qeq_bool (inject_Z n) 0 = bool_decide (n = 0)%Z.
Proof.
  apply eq_true_iff_eq. rw Qeq_bool_iff bool_decide_eq_true /Qeq /=. lia.
Qed.

Lemma Number_le_number m n : Number_le (number m) (number n) = bool_decide (m ≤ n)%Z.
Proof. apply eq_true_iff_eq. by rw /= Qle_bool_iff bool_decide_eq_true -Zle_Qle. Qed.

(** What [Math.round] gives on a finite number compares with an integer as
    the integer it is, the negative zero included. *)
Lemma Number_le_round y n :
  Number_le (Math_roundDouble (Finite y)) (number n) = bool_decide (Math_round y ≤ n)%Z.
Proof.
  rw /Math_roundDouble. destruct (bool_decide (Math_round y = 0)%Z && _) eqn:Hzero.
  - apply andb_true_iff in Hzero as [->%bool_decide_eq_true _].
    apply (Number_le_number 0).
  - apply Number_le_number.
Qed.

Lemma Math_round_zero y : Qeq_bool y 0 = true → Math_round y = 0%Z.
Proof. intros Hy%Qeq_bool_iff. by rw /Math_round (Qfloor_comp _ (0 + (1 # 2))) ?Hy. Qed.

(** The product of two finite numbers. *)
Lemma Number_multiply_finite x y :
  Number_multiply (Finite x) (Finite y) =
  match roundDouble (x * y) with
  | None => signedInfinity (xorb (negative (Finite x)) (negative (Finite y)))
  | Some z =>
      if Qeq_bool z 0 then signedZero (xorb (negative (Finite x)) (negative (Finite y)))
      else Finite z
  end.
Proof. done. Qed.

(** The product of two integers whose product is a safe integer. *)
Lemma Number_multiply_integers m n :
  safeInteger (m * n) →
  Number_multiply (number m) (number n) =
  if bool_decide (m * n = 0)%Z
  then signedZero (xorb (bool_decide (m < 0)%Z) (bool_decide (n < 0)%Z))
  else number (m * n).
Proof.
  intros Hsafe. rw /number Number_multiply_finite -!/(number _) !negative_number.
  rw (roundDouble_proper _ (inject_Z (m * n))); [|by rw inject_Z_mult].
  by rw roundDouble_safeInteger // Qeq_bool_integer.
Qed.

(** The product of the language is the product of integers, when that is a
    safe integer and no negative zero. *)
Lemma Number_multiply_exact m n :
  safeInteger (m * n) → (m * n = 0 → 0 ≤ m ∧ 0 ≤ n)%Z →
  Number_multiply (number m) (number n) = number (m * n).
Proof.
  intros Hsafe Hzero. rw Number_multiply_integers //. case_bool_decide as Hmn; [|done].
  destruct (Hzero Hmn). by rw Hmn !bool_decide_eq_false_2; [|lia..].
Qed.

(** ** Lemmas: the operations return numbers *)

Lemma isNumber_number n : (Z.abs n < 2 ^ 53)%Z → isNumber (number n).
Proof. apply double_integer. Qed.

(** The product is a number, whatever is multiplied. *)
Lemma Number_multiply_isNumber a b : isNumber (Number_multiply a b).
Proof.
  assert (∀ sign, isNumber (signedInfinity sign)) as Hinfinity by by intros [].
  assert (∀ sign, isNumber (signedZero sign)) as Hzero by (intros []; [done|apply double_zero]).
  assert (∀ sign x, isNumber match roundDouble x with
                             | None => signedInfinity sign
                             | Some y => if Qeq_bool y 0 then signedZero sign else Finite y
                             end) as Hfinite.
  { intros sign x. destruct (roundDouble x) as [y|] eqn:Hround; [|apply Hinfinity].
    destruct (Qeq_bool y 0); [apply Hzero|]. by eapply roundDouble_double. }
  destruct a, b; rw /Number_multiply; try exact I;
    try (destruct (isZero _ || isZero _); [exact I|apply Hinfinity]); apply Hfinite.
Qed.

Lemma Math_round_integer n : Math_round (inject_Z n) = n.
Proof.
  rw /Math_round. apply Z.le_antisymm.
  - apply Z.lt_succ_r. rw Zlt_Qlt inject_Z_plus. pose proof (Qfloor_le (inject_Z n + (1 # 2))).
    rationals.
  - rw -{1}(Qfloor_Z n). apply Qfloor_resp_le. lra.
Qed.

(** A double from [2 ^ 52] on in magnitude is an integer, and a double
    below rounds to an integer below [2 ^ 53]. *)
Lemma Math_round_double x : double x → double (inject_Z (Math_round x)).
Proof.
  intros (m & e & Hm & He & Hx). destruct (Z.le_gt_cases 0 e) as [He0|He0].
  - assert (x == inject_Z (m * 2 ^ e))%Q as Hinteger by by rw Hx inject_Z_mult pow2_Z.
    rw /Math_round (Qfloor_comp _ _ (Qplus_comp _ _ Hinteger _ _ (Qeq_refl (1 # 2)))).
    rw -/(Math_round _) Math_round_integer. exists m, e. by rw inject_Z_mult pow2_Z.
  - apply double_integer. pose proof (pow2_pos e) as Hp.
    assert (pow2 (53 + e) <= pow2 52)%Q as Hle by (apply pow2_le; lia).
    pose proof (pow2_units 53 e ltac:(done)) as H53. pose proof (pow2_Z 52 ltac:(done)) as H52.
    assert (inject_Z (- 2 ^ 53) * pow2 e < x < inject_Z (2 ^ 53) * pow2 e)%Q as [Hlo Hhi].
    { rw Hx. split; apply Qmult_lt_compat_r; try done; rw -Zlt_Qlt; lia. }
    rw inject_Z_opp in Hlo.
    assert (Math_round x ≤ 2 ^ 52)%Z by (apply Math_round_le; lra).
    assert (¬ (Math_round x ≤ - (2 ^ 52 + 1)))%Z; [|lia].
    rw Math_round_le inject_Z_opp inject_Z_plus. rationals.
Qed.

Lemma Math_roundDouble_isNumber a : isNumber a → isNumber (Math_roundDouble a).
Proof.
  destruct a as [x| | | |]; try done. intros Hx. rw /Math_roundDouble.
  destruct (_ && _); [done|]. by apply Math_round_double.
Qed.

(** A finite product is the rounding of the exact product. *)
Lemma Number_multiply_rounded x y z :
  Number_multiply (Finite x) (Finite y) = Finite z →
  ∃ z', roundDouble (x * y) = Some z' ∧ (z == z')%Q.
Proof.
  rw Number_multiply_finite. destruct (roundDouble (x * y)) as [z'|]; [|by destruct (xorb _ _)].
  destruct (Qeq_bool z' 0) eqn:Hzero; [|intros [= <-]; by exists z'].
  destruct (xorb _ _); [done|]. intros [= <-]. exists z'. split; [done|].
  by apply Qeq_sym, Qeq_bool_iff.
Qed.

(** ** Properties *)

(** C26. On integers the product of the language is the product: when
    [m * n] is a safe integer, at most [2 ^ 53 - 1] in magnitude, [m * n]
    computed on doubles is that integer, and a zero with the sign the two
    operands give it when the product is zero. *)
Theorem Number_multiply_safe m n :
  safeInteger (m * n) →
  Number_multiply (number m) (number n) =
  if bool_decide (m * n = 0)%Z
  then signedZero (xorb (bool_decide (m < 0)%Z) (bool_decide (n < 0)%Z))
  else number (m * n).
Proof. apply Number_multiply_integers. Qed.

Lemma Number_multiply_safe_witness :
  Number_multiply (number 12) (number 5) =
  if bool_decide (12 * 5 = 0)%Z
  then signedZero (xorb (bool_decide (12 < 0)%Z) (bool_decide (5 < 0)%Z))
  else number (12 * 5).
Proof. apply Number_multiply_safe. rw /safeInteger /MAX_SAFE_INTEGER. lia. Defined.

(** C27. The operator [*] is correctly rounded: a finite product of two
    finite numbers is a double; no double is nearer to the exact product;
    and a double that is as near is the neighbour of the result on its
    grid, the result being the even one of the two. *)
Theorem Number_multiply_nearest x y z :
  Number_multiply (Finite x) (Finite y) = Finite z →
  double z ∧
  ∀ d, double d →
    (Qabs (x * y - z) <= Qabs (x * y - d))%Q ∧
    ((Qabs (x * y - d) == Qabs (x * y - z))%Q → ¬ (d == z)%Q → evenNeighbour z d).
Proof.
  intros (z' & Hround & Hz)%Number_multiply_rounded.
  split; [rw Hz; by eapply roundDouble_double|]. intros d Hd. rw !Hz.
  split; [by apply roundDouble_nearest|]. intros Htie Hne. by eapply roundDouble_even.
Qed.

Lemma Number_multiply_nearest_witness :
  double (inject_Z (2 ^ 54 + 2 ^ 28)) ∧
  ∀ d, double d →
    (Qabs (inject_Z (2 ^ 27 + 1) * inject_Z (2 ^ 27 + 1) - inject_Z (2 ^ 54 + 2 ^ 28)) <=
     Qabs (inject_Z (2 ^ 27 + 1) * inject_Z (2 ^ 27 + 1) - d))%Q ∧
    ((Qabs (inject_Z (2 ^ 27 + 1) * inject_Z (2 ^ 27 + 1) - d) ==
      Qabs (inject_Z (2 ^ 27 + 1) * inject_Z (2 ^ 27 + 1) - inject_Z (2 ^ 54 + 2 ^ 28)))%Q →
     ¬ (d == inject_Z (2 ^ 54 + 2 ^ 28))%Q → evenNeighbour (inject_Z (2 ^ 54 + 2 ^ 28)) d).
Proof. apply Number_multiply_nearest. by vm_compute. Defined.

(** C28. The operator [*] overflows at the threshold of the standard: the
    product of two finite numbers is the infinity of its sign exactly when
    the exact product is [2 ^ 1024 - 2 ^ 970] or more in magnitude, half a
    unit in the last place above the largest double. *)
Theorem Number_multiply_overflow x y :
  Number_multiply (Finite x) (Finite y) =
    signedInfinity (xorb (negative (Finite x)) (negative (Finite y))) ↔
  (overflowThreshold <= Qabs (x * y))%Q.
Proof.
  rw -roundDouble_overflow Number_multiply_finite.
  destruct (roundDouble (x * y)) as [z|]; [|done]. split; [|done].
  by destruct (Qeq_bool z 0), (xorb _ _).
Qed.

(** The product where it is not the product of integers: [-1 * 0] is the
    negative zero; the square of [2 ^ 27 + 1], which is [2 ^ 54 + 2 ^ 28 + 1],
    loses its last bit; the square of [2 ^ 512] is too large for a double;
    an infinity times zero is no number. *)
Example Number_multiply_examples :
  Number_multiply (number (-1)) (number 0) = NegativeZero ∧
  Number_multiply (number (2 ^ 27 + 1)) (number (2 ^ 27 + 1)) = number (2 ^ 54 + 2 ^ 28) ∧
  Number_multiply (number (2 ^ 512)) (number (- 2 ^ 512)) = NegativeInfinity ∧
  Number_multiply Infinity (number 0) = NaN.
Proof. by vm_compute. Qed.

(** [Math.round] and [<=] on numbers that are no rationals. *)
Example Math_roundDouble_examples :
  Math_roundDouble (Finite (- (3 # 10))) = NegativeZero ∧
  Math_roundDouble (Finite (5 # 2)) = number 3 ∧
  Math_roundDouble (Finite (- (5 # 2))) = number (-2) ∧
  Number_le NegativeZero (number 0) = true ∧
  Number_le NaN NaN = false ∧
  Number_le Infinity (number 20) = false.
Proof. by vm_compute. Qed.
