(* ===== verification/RetryDouble.v ===== *)
(** * RetryDouble: [retry.js] in the arithmetic of the language

    [Retry.v] runs the program on integers and rationals, computed exactly.
    This file runs it on the numbers of the language ([Number.v]): the draw
    is multiplied by 100 and the product rounded to a double before
    [Math.round] sees it, and [a * b] is the product of two doubles.

    - [luckyDouble] is the test of line 4, [primitiveMultiplyDouble] the
      function and [trialDouble] the loop, which is the loop of [Retry.v]
      ([Retry.trialWith]) over that function; the state is a
      [Runtime Number], whose console holds numbers of the language;
    - [rounded] takes a state of [Retry.v] to the state of this file that
      holds the same numbers.

    The test of the program succeeds exactly below [doubleThreshold],
    which is [(20.5 - 2 ^ -49) / 100]: a product from half a unit in the
    last place below 20.5 on rounds to 20.5, and [Math.round] takes that to
    21.  So the test of the program and the exact test differ on the draws
    from that number up to 0.205 ([luckyDouble_threshold]).  One double
    lies there, the double nearest to 0.205 ([nearestThreshold],
    [luckyDouble_nearestThreshold]): on every other double the test of the
    program is the exact one ([luckyDouble_lucky]).

    The language leaves the numbers [Math.random()] returns to the engine.
    The theorems of this file ask of a random source that its draws are
    doubles and that none is the double nearest to 0.205 ([exactSource]).
    The engines in use return multiples of [2 ^ -53] ([engineSource]),
    which are such doubles ([engineSource_exact]).  On such a source, and
    on integers whose product is a safe integer, the program run on doubles
    is the program of [Retry.v], state by state ([trialDouble_trial]), and
    the theorems of [Retry.v] are theorems about the program as it
    computes.  Whatever its arguments, the program is still running when
    the loop of [Retry.v] is ([trialDouble_running]).  Whatever the source
    draws, when [trial(12, 5)] stops it has printed 60
    ([retryScriptDouble_prints_60]), and what the program prints is a
    value of the type ([trialDouble_printsNumbers]).
    Beyond the safe integers the two programs print different numbers
    ([trialDouble_examples]). *)

From Stdlib Require Import QArith Qround Qabs Qpower Lqa.
From stdpp Require Import ssreflect base tactics option list strings.
From S2P Require Import Prelude Exec Retry Double Nearest Number.

Implicit Types (x y r : Q) (e k m n : Z) (a b : Number) (fuel : nat).
Implicit Types (w : Runtime Z) (u : Runtime Number).

(** ** The program *)

(** [Math.round(r * 100) <= 20]. *)
Definition luckyDouble r : bool :=
  Number_le (Math_roundDouble (Number_multiply (Finite r) (number 100))) (number 20).

(** [primitiveMultiply(a, b)]. *)
Definition primitiveMultiplyDouble a b : Exec (Runtime Number) failure Number :=
  r ← Math_random;
  if luckyDouble r then mret (Number_multiply a b)
  else throw (MultiplicatorUnitFailure "Failed to multiply").

(** [trial(a, b)], for at most [fuel] turns. *)
Definition trialDouble fuel a b u : option (Outcome failure unit * Runtime Number) :=
  trialWith primitiveMultiplyDouble fuel a b u.

(** The last statement of the program: [trial(12, 5)]. *)
Definition retryScriptDouble fuel u : option (Outcome failure unit * Runtime Number) :=
  trialDouble fuel (number 12) (number 5) u.

(** ** Specification *)

(** The double nearest to 0.205. *)
Definition nearestThreshold : Q := 7385903388887613 # 2 ^ 55.

(** A random source of the engines: every draw is [k / 2 ^ 53] for a [k]
    below [2 ^ 53]. *)
Definition engineDraw r : Prop := ∃ k, (0 ≤ k < 2 ^ 53)%Z ∧ (r == k # 2 ^ 53)%Q.
Definition engineSource {V} (v : Runtime V) : Prop := ∀ i, engineDraw (random v i).

(** A random source on which the test of the program is the exact test:
    every draw is a double, and none is the double nearest to 0.205. *)
Definition exactDraw r : Prop := double r ∧ ¬ (r == nearestThreshold)%Q.
Definition exactSource {V} (v : Runtime V) : Prop := ∀ i, exactDraw (random v i).

(** The state of this file that a state of [Retry.v] stands for: the same
    source and draws, and the integers printed as numbers. *)
Definition roundedLine (l : line Z) : line Number :=
  match l with
  | Stdout n => Stdout (number n)
  | Stderr e => Stderr e
  end.

Definition rounded w : Runtime Number :=
  {| random := random w; drawn := drawn w; output := roundedLine <$> output w |}.

(** The two loops go on alike: from states with the same source and the
    same number of draws made. *)
Definition sameDraws w u : Prop :=
  exactSource w ∧ random u = random w ∧ drawn u = drawn w.

(** The console holds numbers: what is printed on the output is a value
    of the type. *)
Definition numberLine (l : line Number) : Prop :=
  match l with
  | Stdout a => isNumber a
  | Stderr _ => True
  end.

Definition printsNumbers u : Prop := Forall numberLine (output u).

(** A source of the engines that is unlucky twice and lucky from then on. *)
Definition thirdTimeLuckyDouble : Runtime Z :=
  {| random := λ i, if (i <? 2)%nat then 3 # 4 else 1 # 8; drawn := 0; output := [] |}.

(** The draw from which on the test of the program fails: its product with
    100 is half a unit in the last place below 20.5, [20.5 - 2 ^ -49]. *)
Definition doubleThreshold : Q := (41 * 2 ^ 48 - 1) # (100 * 2 ^ 49).

(** ** Tactics *)

(** Inequalities between rationals with numerals, as inequalities between
    integers. *)
Ltac numerals :=
  change (2 ^ 53)%positive with 9007199254740992%positive in *;
  repeat match goal with
  | |- context [pow2 ?e] =>
      let c := eval vm_compute in (pow2 e) in change (pow2 e) with c
  | |- context [inject_Z ?z] =>
      let c := eval vm_compute in (inject_Z z) in progress change (inject_Z z) with c
  end;
  rw /Qlt /Qle /Qminus /Qplus /Qmult /Qopp /=.

(** ** Lemmas: the test on a double *)

(** The test of the program from the double the product rounds to. *)
Lemma luckyDouble_round r :
  luckyDouble r =
  match roundDouble (r * 100) with
  | Some y => bool_decide (Math_round y ≤ 20)%Z
  | None => negative (Finite r)
  end.
Proof.
  rw /luckyDouble /number Number_multiply_finite -!/(number _).
  change (inject_Z 100) with 100%Q. change (negative (Finite 100)) with false.
  rw xorb_false_r. destruct (roundDouble (r * 100)) as [y|]; [|by destruct (negative _)].
  destruct (Qeq_bool y 0) eqn:Hy; [|apply Number_le_round].
  rw (Math_round_zero y) //. by destruct (negative _).
Qed.

(** ** Lemmas: the threshold of the test *)

Lemma threshold_units : (inject_Z (41 * 2 ^ 47) * pow2 (4 - 52) == 41 # 2)%Q.
Proof. by vm_compute. Qed.

Lemma doubleThreshold_units :
  ((inject_Z (41 * 2 ^ 47) - (1 # 2)) * pow2 (4 - 52) == doubleThreshold * 100)%Q.
Proof. by vm_compute. Qed.

Lemma doubleThreshold_bounds : (16 < doubleThreshold * 100 < 41 # 2)%Q.
Proof. by vm_compute. Qed.

Lemma luckyDouble_zero r : (r == 0)%Q → luckyDouble r = lucky r.
Proof.
  intros Hr. rw luckyDouble_round (roundDouble_proper (r * 100)%Q 0%Q); [|by rw Hr].
  rw roundDouble_zero. symmetry. apply lucky_below. by rw Hr.
Qed.

(** The test where the product rounds to a double [y]. *)
Lemma luckyDouble_rounded r y :
  roundDouble (r * 100) = Some y →
  luckyDouble r = true ↔ (y < 41 # 2)%Q.
Proof.
  intros Hround. rw luckyDouble_round Hround bool_decide_eq_true Math_round_le.
  by change (inject_Z 20 + (1 # 2))%Q with (41 # 2)%Q.
Qed.

(** The test where the product is too large for a double. *)
Lemma luckyDouble_overflow r :
  roundDouble (r * 100) = None → luckyDouble r = true ↔ (r < 0)%Q.
Proof.
  intros Hround. rw luckyDouble_round Hround /negative.
  destruct (Qcompare_spec r 0); split; done || lra.
Qed.

(** A product out of the binade of 16 rounds to the side of 20.5 it is
    on. *)
Lemma luckyDouble_far r :
  (r * 100 <= 16 ∨ 32 <= r * 100)%Q → luckyDouble r = true ↔ (r < doubleThreshold)%Q.
Proof.
  pose proof doubleThreshold_bounds as [Ht1 Ht2]. intros Hfar.
  destruct (roundDouble (r * 100)) as [y|] eqn:Hround.
  - rw (luckyDouble_rounded r y) //. destruct Hfar as [Hx|Hx].
    + pose proof (roundDouble_le_double _ y 16 Hround (double_integer 16 eq_refl) Hx).
      split; lra.
    + pose proof (roundDouble_ge_double _ y 32 Hround (double_integer 32 eq_refl) Hx).
      split; lra.
  - rw luckyDouble_overflow //. apply roundDouble_overflow in Hround.
    pose proof overflowThreshold_bounds as [Hbig _].
    pose proof (pow2_le 5 1023 ltac:(done)) as H32. change (pow2 5) with 32%Q in H32.
    revert Hround. apply Qabs_case; split; lra.
Qed.

(** A product in the binade of 16 rounds below 20.5 when it is more than
    half a unit in the last place below it. *)
Lemma luckyDouble_near r :
  (16 <= r * 100 < 32)%Q → luckyDouble r = true ↔ (r < doubleThreshold)%Q.
Proof.
  intros Hx.
  destruct (roundDouble_below (r * 100) 4 (41 * 2 ^ 47)) as (y & Hround & _ & Hiff); [done..|].
  rw (luckyDouble_rounded r y) // -threshold_units Hiff doubleThreshold_units. split; lra.
Qed.

Lemma luckyDouble_below r : luckyDouble r = true ↔ (r < doubleThreshold)%Q.
Proof.
  destruct (Qlt_le_dec 16 (r * 100)) as [H16|H16]; [|apply luckyDouble_far; by left].
  destruct (Qlt_le_dec (r * 100) 32) as [H32|H32]; [|apply luckyDouble_far; by right].
  apply luckyDouble_near. lra.
Qed.

(** ** Lemmas: where the two tests differ *)

Lemma luckyDouble_differs r :
  luckyDouble r ≠ lucky r ↔ (doubleThreshold <= r < 41 # 200)%Q.
Proof.
  pose proof (luckyDouble_below r) as Hdouble. pose proof (lucky_below r) as Hexact.
  assert (doubleThreshold < 41 # 200)%Q as Hgap by done.
  destruct (luckyDouble r), (lucky r); split; try done.
  - intros [Hlo _]. apply Qle_not_lt in Hlo. destruct Hlo. by apply Hdouble.
  - intros _. assert (r < doubleThreshold)%Q by by apply Hdouble.
    assert (false = true) by (apply Hexact; lra). done.
  - intros _. split; [apply Qnot_lt_le; by intros ?%Hdouble|by apply Hexact].
  - intros [_ Hhi]. by apply Hexact in Hhi.
Qed.

(** ** Lemmas: the doubles between the thresholds *)

Lemma nearestThreshold_gap : (doubleThreshold <= nearestThreshold < 41 # 200)%Q.
Proof. by vm_compute. Qed.

(** From [2 ^ -3] on the doubles are [2 ^ -55] apart, and one multiple of
    [2 ^ -55] lies between the thresholds. *)
Lemma gap_units k :
  (doubleThreshold <= inject_Z k * pow2 (-55) < 41 # 200)%Q → k = 7385903388887613%Z.
Proof. rw /doubleThreshold. numerals. lia. Qed.

Lemma gap_double r :
  double r → (doubleThreshold <= r < 41 # 200)%Q → (r == nearestThreshold)%Q.
Proof.
  intros [[k Hk]|[_ Hsmall]]%(double_units _ (-55)) Hgap.
  - rw Hk in Hgap |- *. by rw (gap_units k Hgap).
  - pose proof (Qle_Qabs r). pose proof doubleThreshold_bounds.
    change (pow2 (-55 + 52)) with (1 # 8)%Q in Hsmall. lra.
Qed.

(** Among the doubles the two tests differ on one, the double nearest to
    0.205. *)
Lemma luckyDouble_double r :
  double r → luckyDouble r = lucky r ↔ ¬ (r == nearestThreshold)%Q.
Proof.
  intros Hr. pose proof (luckyDouble_differs r) as Hdiffers. split.
  - intros Hsame Hnear. apply Hdiffers; [|done]. rw Hnear. apply nearestThreshold_gap.
  - intros Hfar. destruct (decide (luckyDouble r = lucky r)) as [|Hne]; [done|].
    destruct Hfar. by apply gap_double, Hdiffers.
Qed.

Lemma luckyDouble_exactSource {V} (v : Runtime V) i :
  exactSource v → luckyDouble (random v i) = lucky (random v i).
Proof. intros Hv. destruct (Hv i) as [Hdouble Hfar]. by apply luckyDouble_double. Qed.

(** The draws of the engines are such doubles. *)
Lemma engineDraw_exact r : engineDraw r → exactDraw r.
Proof.
  intros (k & Hk & Hr). split.
  - exists k, (-53)%Z. split; [lia|]. split; [done|]. rw Hr /Qeq /=. lia.
  - rw Hr /nearestThreshold /Qeq /=. lia.
Qed.

Lemma engineSource_exact {V} (v : Runtime V) : engineSource v → exactSource v.
Proof. intros Hv i. apply engineDraw_exact, Hv. Qed.

Lemma thirdTimeLuckyDouble_exact : exactSource thirdTimeLuckyDouble.
Proof.
  apply engineSource_exact. intros i. rw /thirdTimeLuckyDouble /=. destruct (i <? 2).
  - by exists (3 * 2 ^ 51)%Z.
  - by exists (2 ^ 50)%Z.
Qed.

(** ** Lemmas: one turn *)

Lemma attempt_run n1 n2 w :
  attempt primitiveMultiply n1 n2 w =
  if lucky (random w (drawn w)) then (Normal Break, advance 1 [Stdout (n1 * n2)] w)
  else (Normal Again, advance 1 [failed] w).
Proof. apply attempt_tested, primitiveMultiply_run. Qed.

Lemma attemptDouble_run a b u :
  attempt primitiveMultiplyDouble a b u =
  if luckyDouble (random u (drawn u)) then (Normal Break, advance 1 [Stdout (Number_multiply a b)] u)
  else (Normal Again, advance 1 [failed] u).
Proof.
  apply attempt_tested. rw /primitiveMultiplyDouble /advance. exec_unfold.
  rw Nat.add_1_r app_nil_r. by destruct (luckyDouble _).
Qed.

Lemma rounded_advance (j : nat) (ls : list (line Z)) w :
  rounded (advance j ls w) = advance j (roundedLine <$> ls) (rounded w).
Proof. by rw /rounded /advance /= fmap_app. Qed.

Lemma exactSource_advance {V} (j : nat) (ls : list (line V)) (v : Runtime V) :
  exactSource v → exactSource (advance j ls v).
Proof. done. Qed.

(** One turn on doubles and one turn of [Retry.v], from states that stand
    for each other, on integers whose product is the product of the
    language. *)
Lemma attemptDouble_rounded n1 n2 w u :
  Number_multiply (number n1) (number n2) = number (n1 * n2) →
  exactSource w ∧ u = rounded w →
  alike (λ w u, exactSource w ∧ u = rounded w) (λ p1 p2, p2 = prod_map id rounded p1)
    (attempt primitiveMultiply n1 n2 w)
    (attempt primitiveMultiplyDouble (number n1) (number n2) u).
Proof.
  intros Hproduct [Hw ->]. rw attempt_run attemptDouble_run Hproduct /=.
  rw luckyDouble_exactSource //. destruct (lucky _); rw /alike /= rounded_advance //.
Qed.

(** One turn on doubles, on any two numbers, and one turn of [Retry.v], on
    any two integers, from states with the same draws ahead. *)
Lemma attemptDouble_sameDraws n1 n2 a b w u :
  sameDraws w u →
  alike sameDraws (λ _ _, True)
    (attempt primitiveMultiply n1 n2 w) (attempt primitiveMultiplyDouble a b u).
Proof.
  intros (Hw & Hrandom & Hdrawn). rw attempt_run attemptDouble_run Hrandom Hdrawn.
  rw luckyDouble_exactSource //. destruct (lucky _); rw /alike /sameDraws //=.
  by rw Hrandom Hdrawn.
Qed.

(** One turn prints a number or a failure. *)
Lemma attemptDouble_printsNumbers a b :
  preserves printsNumbers (attempt primitiveMultiplyDouble a b).
Proof.
  intros u Hu. rw attemptDouble_run.
  destruct (luckyDouble _); apply Forall_app; (split; [done|]); apply Forall_singleton; [|done].
  apply Number_multiply_isNumber.
Qed.

(** ** Lemmas: the loop *)

Lemma trialDouble_rounded fuel n1 n2 w :
  Number_multiply (number n1) (number n2) = number (n1 * n2) → exactSource w →
  trialDouble fuel (number n1) (number n2) (rounded w) =
  prod_map id rounded <$> trial fuel n1 n2 w.
Proof.
  intros Hproduct Hw. apply option_Forall2_fmap.
  apply (forever_sim (λ w u, exactSource w ∧ u = rounded w)); [|done].
  intros w' u'. by apply attemptDouble_rounded.
Qed.

Lemma trialDouble_sameDraws fuel n1 n2 a b w u :
  sameDraws w u → is_Some (trialDouble fuel a b u) ↔ is_Some (trial fuel n1 n2 w).
Proof.
  intros Hwu. apply (option_Forall2_is_Some (λ _ _, True)).
  apply (forever_sim sameDraws); [|done]. intros w' u'. apply attemptDouble_sameDraws.
Qed.

(** The loop on doubles, when it stops, has printed a failure for every
    turn but the last and then the product, whatever the draws were. *)
Lemma trialDouble_ends fuel a b u o u' :
  trialDouble fuel a b u = Some (o, u') →
  ∃ j, j < fuel ∧ o = Normal tt ∧
       u' = advance (S j) (replicate j failed ++ [Stdout (Number_multiply a b)]) u.
Proof.
  revert u. induction fuel as [|fuel IH]; intros u; [done|].
  rw /trialDouble /trialWith forever_S attemptDouble_run. destruct (luckyDouble _).
  - intros [= <- <-]. exists 0. split; [lia|done].
  - intros (j & Hj & -> & ->)%IH. exists (S j). split; [lia|]. by rw advance_advance.
Qed.

(** ** Properties *)

(** C24. The test of the program in the arithmetic of the language is the
    exact test on every double but one: for a draw that is a double,
    rounding the product [r * 100] to a double does not change whether
    [Math.round] gives at most 20, unless the draw is the double nearest
    to 0.205, and there it does. *)
Theorem luckyDouble_lucky r :
  double r → luckyDouble r = lucky r ↔ ¬ (r == nearestThreshold)%Q.
Proof. apply luckyDouble_double. Qed.

Lemma luckyDouble_lucky_witness :
  luckyDouble (1 # 4) = lucky (1 # 4) ↔ ¬ (1 # 4 == nearestThreshold)%Q.
Proof. apply luckyDouble_lucky. by exists 1%Z, (-2)%Z. Defined.

(** C12. The program run on doubles is the program of [Retry.v].  On a random
    source of doubles that never draws the double nearest to 0.205, as the
    sources of the engines are, and on two integers whose product is a safe
    integer (and that are not negative when the product is zero, where the
    language has a negative zero), [trial] on the numbers of the language
    goes through the states that stand for the states of [trial] on
    integers: for every fuel both are still running, or both have returned
    the same, having printed the same. *)
Theorem trialDouble_trial fuel m n w :
  (∀ i, double (random w i) ∧ ¬ (random w i == nearestThreshold)%Q) →
  safeInteger (m * n) → (m * n = 0 → 0 ≤ m ∧ 0 ≤ n)%Z →
  trialDouble fuel (number m) (number n) (rounded w) =
  prod_map id rounded <$> trial fuel m n w.
Proof.
  intros Hw Hsafe Hzero. by apply trialDouble_rounded; [apply Number_multiply_exact|].
Qed.

Lemma trialDouble_trial_witness :
  trialDouble 5 (number 12) (number 5) (rounded thirdTimeLuckyDouble) =
  prod_map id rounded <$> trial 5 12 5 thirdTimeLuckyDouble.
Proof.
  apply trialDouble_trial; [|rw /safeInteger /MAX_SAFE_INTEGER; lia|lia].
  apply thirdTimeLuckyDouble_exact.
Defined.

(** C35. The console of the program holds numbers: whatever two numbers it
    multiplies and whatever the random source draws, when [trial] stops
    every number on the output is a value of the type, a double or one of
    the numbers that are no rationals, if those printed before were. *)
Theorem trialDouble_printsNumbers fuel a b u res :
  printsNumbers u → trialDouble fuel a b u = Some res → printsNumbers res.2.
Proof. apply preserves_forever, attemptDouble_printsNumbers. Qed.

Lemma trialDouble_printsNumbers_witness :
  printsNumbers (rounded (advance 3 [failed; failed; Stdout 60] thirdTimeLuckyDouble)).
Proof.
  apply (trialDouble_printsNumbers 5 (number 12) (number 5) (rounded thirdTimeLuckyDouble)
           (Normal tt, rounded (advance 3 [failed; failed; Stdout 60] thirdTimeLuckyDouble)));
    [by constructor|by vm_compute].
Defined.

(** Whatever numbers it multiplies, the program run on doubles has
    returned after some number of turns exactly when the program of
    [Retry.v] has, from states with the same draws ahead, which are
    doubles other than the double nearest to 0.205. *)
Theorem trialDouble_running fuel m n a b w u :
  (∀ i, double (random w i) ∧ ¬ (random w i == nearestThreshold)%Q) →
  random u = random w → drawn u = drawn w →
  is_Some (trialDouble fuel a b u) ↔ is_Some (trial fuel m n w).
Proof. intros Hw Hrandom Hdrawn. by apply trialDouble_sameDraws. Qed.

Lemma trialDouble_running_witness :
  is_Some (trialDouble 5 Infinity NaN (rounded thirdTimeLuckyDouble)) ↔
  is_Some (trial 5 0 0 thirdTimeLuckyDouble).
Proof.
  apply trialDouble_running; [|done..]. apply thirdTimeLuckyDouble_exact.
Defined.

(** C13. The program as it runs.  Whatever the random source draws and
    whatever the console holds, when [trial(12, 5)] computed on the numbers
    of the language stops, it has returned normally and printed the number
    60 last, after nothing but failures. *)
Theorem retryScriptDouble_prints_60 fuel (u0 : Runtime Number) o u :
  retryScriptDouble fuel u0 = Some (o, u) →
  o = Normal tt ∧ last (output u) = Some (Stdout (number 60)) ∧
  Forall (λ l, l = failed) (drop (length (output u0)) (removelast (output u))).
Proof.
  intros (j & _ & -> & ->)%trialDouble_ends. split; [done|].
  rw (Number_multiply_exact 12 5); [|rw /safeInteger /MAX_SAFE_INTEGER; lia|lia].
  rw /= app_assoc last_snoc removelast_last drop_app_length.
  split; [done|]. by apply Forall_replicate.
Qed.

Lemma retryScriptDouble_prints_60_witness :
  @Normal failure unit tt = Normal tt ∧
  last (output (rounded (advance 3 [failed; failed; Stdout 60] thirdTimeLuckyDouble))) =
    Some (Stdout (number 60)) ∧
  Forall (λ l, l = failed)
    (drop (length (output (rounded thirdTimeLuckyDouble)))
       (removelast (output (rounded (advance 3 [failed; failed; Stdout 60] thirdTimeLuckyDouble))))).
Proof.
  by apply (retryScriptDouble_prints_60 5 (rounded thirdTimeLuckyDouble)); vm_compute.
Defined.

(** C25. The test of the program, for every draw, whatever the engine: in
    the arithmetic of the language [Math.round(r * 100) <= 20] holds
    exactly when [r] is below [(20.5 - 2 ^ -49) / 100], half a unit in the
    last place of the product below the exact threshold 0.205; so the test
    of the program and the exact test differ exactly on the draws from
    that number up to 0.205, an interval of width [2 ^ -49 / 100]. *)
Theorem luckyDouble_threshold r :
  (luckyDouble r = true ↔ (r < doubleThreshold)%Q) ∧
  (luckyDouble r ≠ lucky r ↔ (doubleThreshold <= r < 41 # 200)%Q).
Proof. split; [apply luckyDouble_below|apply luckyDouble_differs]. Qed.

(** The two tests differ on a double: the double nearest to 0.205 is
    below 0.205, so the exact test succeeds on it, but its product with
    100 rounds to 20.5, which [Math.round] takes to 21. *)
Theorem luckyDouble_nearestThreshold :
  (nearestThreshold < 41 # 200)%Q ∧
  Number_multiply (Finite nearestThreshold) (number 100) = Finite (41 # 2) ∧
  lucky nearestThreshold = true ∧ luckyDouble nearestThreshold = false.
Proof. by vm_compute. Qed.

(** The program on the source that is lucky the third time: what
    [trial(12, 5)] prints; what it prints for [-1] and [0], the negative
    zero; and for twice [2 ^ 27 + 1], whose product is not a double. *)
Example trialDouble_examples :
  output <$> (snd <$> retryScriptDouble 5 (rounded thirdTimeLuckyDouble)) =
    Some [failed; failed; Stdout (number 60)] ∧
  output <$> (snd <$> trialDouble 5 (number (-1)) (number 0) (rounded thirdTimeLuckyDouble)) =
    Some [failed; failed; Stdout NegativeZero] ∧
  output <$> (snd <$> trialDouble 5 (number (2 ^ 27 + 1)) (number (2 ^ 27 + 1))
                        (rounded thirdTimeLuckyDouble)) =
    Some [failed; failed; Stdout (number (2 ^ 54 + 2 ^ 28))].
Proof. by vm_compute. Qed.
