(* ===== verification/RetryOdds.v ===== *)
(** * RetryOdds: how likely the retry loop of [retry.js] is to go on

    [Retry.v] runs the loop on one random source.  This file counts sources.
    [Math.random()] is taken to return one of the [N] numbers [0/N], ...,
    [(N-1)/N], each as likely as the others ([draws]); a run of [n] turns
    reads [n] of them, so there are [N ^ n] equally likely runs ([sources]).

    Of the [N] draws, [luckyDraws N], the [41 N / 200] rounded up, make
    [primitiveMultiply] succeed.  The loop is still running after [n] turns
    exactly on the sources whose [n] draws are all unlucky, and there are
    [(N - luckyDraws N) ^ n] of them ([trial_odds]): the share of the runs
    that have not returned shrinks by the factor [1 - luckyDraws N / N],
    which is 0.795 for [N = 1000], with every turn.

    The count is of the loop of [Retry.v], which computes its test exactly.
    When [N] divides [2 ^ 53], as it does for an engine that draws up to 53
    random bits, the draws are multiples of [2 ^ -53], and the loop that
    computes with doubles ([RetryDouble.trialDouble]) is still running on
    the same runs, whatever numbers it multiplies ([trialDouble_odds]). *)

From Stdlib Require Import QArith.
From stdpp Require Import ssreflect base tactics option list strings.
From S2P Require Import Prelude Exec Retry Double Number RetryDouble.

Implicit Types (N : positive) (n k : nat) (r : Q) (l : list Q) (a b : Z) (w : Runtime Z).

(** ** The finite random source *)

(** What [Math.random()] may return. *)
Definition draws N : list Q := (λ k : nat, Z.of_nat k # N) <$> seq 0 (Pos.to_nat N).

(** The sequences of [n] values of a list: here, of [n] draws. *)
Fixpoint words {A} (values : list A) n : list (list A) :=
  match n with
  | 0 => [[]]
  | S n => x ← values; (x ::.) <$> words values n
  end.

Definition sources N n : list (list Q) := words (draws N) n.

(** The runtime of a program that starts with the draws [l] ahead. *)
Definition runtimeOf {V} l : Runtime V :=
  {| random := λ i, default 0%Q (l !! i); drawn := 0; output := [] |}.

(** [trial(a, b)] has not returned after as many turns as [l] has draws. *)
Definition stillRunning a b l : bool :=
  match trial (length l) a b (runtimeOf l) with
  | None => true
  | Some _ => false
  end.

(** The same of the loop that computes with doubles. *)
Definition stillRunningDouble (x y : Number) l : bool :=
  match trialDouble (length l) x y (runtimeOf l) with
  | None => true
  | Some _ => false
  end.

(** ** Specification *)

(** The number of lucky draws among the [N]. *)
Definition luckyDraws N : nat := Z.to_nat ((41 * Z.pos N + 199) / 200).

Definition unluckyDraw r : bool := negb (lucky r).

(** How many elements of a list pass a test. *)
Definition count {A} (p : A → bool) (xs : list A) : nat := length (filter (λ x, p x) xs).

(** ** Lemmas: counting *)

Section count.
Context {A : Type}.
Implicit Types (p : A → bool) (x : A) (xs : list A) (ws : list (list A)).

Lemma count_nil p : count p [] = 0.
Proof. done. Qed.

Lemma count_cons p x xs : count p (x :: xs) = (if p x then 1 else 0) + count p xs.
Proof.
  rw /count. destruct (p x) eqn:Hx.
  - by rw filter_cons_True ?Hx.
  - rw filter_cons_False ?Hx //. by intros [].
Qed.

Lemma count_app p xs ys : count p (xs ++ ys) = count p xs + count p ys.
Proof. by rw /count filter_app length_app. Qed.

Lemma count_ext p1 p2 xs : (∀ x, x ∈ xs → p1 x = p2 x) → count p1 xs = count p2 xs.
Proof.
  induction xs as [|x xs IH]; intros Hp; [done|].
  rw !count_cons Hp; [|by left]. rw IH //. intros y Hy. apply Hp. by right.
Qed.

Lemma count_false xs : count (λ _, false) xs = 0.
Proof. induction xs as [|x xs IH]; [done|]. by rw count_cons IH. Qed.

Lemma count_true xs : count (λ _, true) xs = length xs.
Proof. induction xs as [|x xs IH]; [done|]. by rw count_cons IH. Qed.

End count.

Lemma count_fmap {A B} (f : B → A) (p : A → bool) (ys : list B) :
  count p (f <$> ys) = count (p ∘ f) ys.
Proof. induction ys as [|y ys IH]; [done|]. by rw fmap_cons !count_cons IH. Qed.

Section words.
Context {A : Type}.
Implicit Types (p : A → bool) (x : A) (xs : list A) (ws : list (list A)).

(** The words that start with a value of [xs] and go on with a word of
    [ws], all of whose elements pass the test. *)
Lemma count_prefixed p xs ws :
  count (forallb p) (x ← xs; (x ::.) <$> ws) = count p xs * count (forallb p) ws.
Proof.
  induction xs as [|x xs IH]; [done|].
  rw bind_cons count_app IH count_fmap !count_cons. destruct (p x) eqn:Hx.
  - rw (count_ext _ (forallb p)); [lia|]. intros w _. by rw /= Hx.
  - rw (count_ext _ (λ _, false)) ?count_false; [lia|]. intros w _. by rw /= Hx.
Qed.

Lemma count_words p xs n : count (forallb p) (words xs n) = count p xs ^ n.
Proof.
  induction n as [|n IH]; [done|]. by rw /= count_prefixed IH.
Qed.

Lemma length_prefixed xs ws : length (x ← xs; (x ::.) <$> ws) = length xs * length ws.
Proof.
  induction xs as [|x xs IH]; [done|]. by rw bind_cons length_app length_fmap IH.
Qed.

Lemma length_words xs n : length (words xs n) = length xs ^ n.
Proof. induction n as [|n IH]; [done|]. by rw /= length_prefixed IH. Qed.

Lemma words_length xs n (u : list A) : u ∈ words xs n → length u = n.
Proof.
  revert u. induction n as [|n IH]; intros u; simpl.
  - by intros ->%list_elem_of_singleton.
  - intros (x & (u' & -> & Hu')%list_elem_of_fmap & _)%list_elem_of_bind. by rw /= IH.
Qed.

(** A word is made of the values. *)
Lemma words_values xs n (u : list A) : u ∈ words xs n → Forall (.∈ xs) u.
Proof.
  revert u. induction n as [|n IH]; intros u; simpl.
  - by intros ->%list_elem_of_singleton.
  - intros (x & (u' & -> & Hu')%list_elem_of_fmap & Hx)%list_elem_of_bind. auto.
Qed.

End words.

(** The numbers below [m] among the first [n]. *)
Lemma count_below m n : m ≤ n → count (λ k, bool_decide (k < m)) (seq 0 n) = m.
Proof.
  induction n as [|n IH]; intros Hm.
  - by replace m with 0 by lia.
  - rw seq_S count_app count_cons count_nil /=. case_bool_decide.
    + rw (count_ext _ (λ _, true)) ?count_true ?length_seq; [lia|].
      intros k ?%elem_of_seq. apply bool_decide_eq_true. lia.
    + rw IH; lia.
Qed.

Lemma count_negb {A} (p : A → bool) (xs : list A) :
  count (negb ∘ p) xs = length xs - count p xs.
Proof.
  enough (count p xs + count (negb ∘ p) xs = length xs) by lia.
  induction xs as [|x xs IH]; [done|]. rw !count_cons /= -IH. destruct (p x); simpl; lia.
Qed.

(** ** Lemmas: the lucky draws *)

Lemma luckyDraws_le N : luckyDraws N ≤ Pos.to_nat N.
Proof. rw /luckyDraws. apply Nat2Z.inj_le. rw Z2Nat.id; Z.div_mod_to_equations; lia. Qed.

(** The lucky draws are the first ones: [k / N] is lucky exactly for [k]
    below [41 N / 200] rounded up. *)
Lemma lucky_draw N k : lucky (Z.of_nat k # N) = bool_decide (k < luckyDraws N).
Proof.
  apply eq_true_iff_eq. rw lucky_below bool_decide_eq_true /Qlt /= /luckyDraws.
  rw Nat2Z.inj_lt Z2Nat.id; Z.div_mod_to_equations; lia.
Qed.

Lemma count_lucky N : count lucky (draws N) = luckyDraws N.
Proof.
  rw /draws count_fmap (count_ext _ (λ k, bool_decide (k < luckyDraws N))).
  - apply count_below, luckyDraws_le.
  - intros k _. apply lucky_draw.
Qed.

Lemma count_unlucky N : count unluckyDraw (draws N) = Pos.to_nat N - luckyDraws N.
Proof. by rw /unluckyDraw (count_negb lucky) count_lucky /draws length_fmap length_seq. Qed.

(** ** Lemmas: the loop on the draws of a list *)

(** From a state with the draws [l] ahead, the loop is still running after
    [length l] turns exactly when all of them are unlucky. *)
Lemma trial_reads a b l : ∀ w,
  (∀ i r, l !! i = Some r → random w (drawn w + i) = r) →
  match trial (length l) a b w with None => true | Some _ => false end =
  forallb unluckyDraw l.
Proof.
  rw /trial /trialWith. induction l as [|r l IH]; intros w Hl; [done|].
  pose proof (Hl 0 r eq_refl) as Hr. rw Nat.add_0_r in Hr.
  rw /= /unluckyDraw. destruct (lucky r) eqn:Hlucky; rw -Hr in Hlucky.
  - by rw attempt_lucky.
  - rw attempt_unlucky //=. apply IH. intros i r' Hi.
    rw /= -Nat.add_assoc. by apply (Hl (S i)).
Qed.

Lemma stillRunning_unlucky a b l : stillRunning a b l = forallb unluckyDraw l.
Proof.
  apply trial_reads. intros i r Hi. by rw /= Hi.
Qed.

Lemma length_sources N n : length (sources N n) = Pos.to_nat N ^ n.
Proof. by rw /sources length_words /draws length_fmap length_seq. Qed.

Lemma count_stillRunning N n a b :
  count (stillRunning a b) (sources N n) = (Pos.to_nat N - luckyDraws N) ^ n.
Proof.
  rw (count_ext _ (forallb unluckyDraw)) ?count_words ?count_unlucky //.
  intros l _. apply stillRunning_unlucky.
Qed.

(** ** Lemmas: the draws of an engine *)

(** When [N] divides [2 ^ 53] the draws are multiples of [2 ^ -53]. *)
Lemma engineDraw_draws N r : (Z.pos N | 2 ^ 53)%Z → r ∈ draws N → engineDraw r.
Proof.
  intros [c Hc] (k & -> & Hk%elem_of_seq)%list_elem_of_fmap.
  assert (0 ≤ Z.of_nat k < Z.pos N)%Z as Hk' by lia.
  exists (Z.of_nat k * c)%Z. split; [nia|].
  rw /Qeq. change (Qden (_ # 2 ^ 53)) with (Z.to_pos (2 ^ 53)). rw Z2Pos.id // Hc /=. lia.
Qed.

Lemma engineSource_sources {V} N n l :
  (Z.pos N | 2 ^ 53)%Z → l ∈ sources N n → engineSource (runtimeOf (V:=V) l).
Proof.
  intros HN Hl%words_values i. simpl. destruct (l !! i) as [r|] eqn:Hi; simpl.
  - apply (engineDraw_draws N); [done|]. by apply (Forall_lookup_1 _ _ _ _ Hl Hi).
  - by exists 0%Z.
Qed.

Lemma stillRunningDouble_sources N n (x y : Number) l :
  (Z.pos N | 2 ^ 53)%Z → l ∈ sources N n → stillRunningDouble x y l = stillRunning 0 0 l.
Proof.
  intros HN Hl. rw /stillRunningDouble /stillRunning.
  pose proof (trialDouble_sameDraws (length l) 0 0 x y (runtimeOf l) (runtimeOf l)) as Hsome.
  destruct Hsome as [H1 H2]; [by split; [apply engineSource_exact, (engineSource_sources N n)|]|].
  destruct (trialDouble _ _ _ _), (trial _ _ _ _); try done; [by destruct H1|by destruct H2].
Qed.

Lemma luckyDraws_pos N : 0 < luckyDraws N.
Proof.
  rw /luckyDraws. apply Nat2Z.inj_lt. rw Z2Nat.id; Z.div_mod_to_equations; lia.
Qed.

(** Bernoulli's inequality, on natural numbers. *)
Lemma pow_add_ge x y n : x ^ S n + S n * y * x ^ n ≤ (x + y) ^ S n.
Proof.
  induction n as [|n IH]; [simpl; lia|].
  rw (Nat.pow_succ_r' (x + y)) (Nat.pow_succ_r' x (S n)). rw Nat.pow_succ_r' in IH |- *. nia.
Qed.

(** ** Properties *)

(** C29. The odds of the loop.  With [Math.random()] uniform on [N] values
    there are [N ^ n] runs of [n] turns, each as likely as the others, and
    [trial(a, b)] is still running at the end of [(N - luckyDraws N) ^ n] of
    them, where [luckyDraws N] is [41 N / 200] rounded up: the runs whose
    draws are all unlucky. *)
Theorem trial_odds N n a b :
  length (sources N n) = Pos.to_nat N ^ n ∧
  count (stillRunning a b) (sources N n) = (Pos.to_nat N - luckyDraws N) ^ n.
Proof. split; [apply length_sources|apply count_stillRunning]. Qed.

(** C31. [trial(a, b)] returns almost surely: whatever [N] and however
    small the share [1 / m], from some number of turns on fewer than that
    share of the runs are still going. *)
Theorem trial_almost_surely_returns N m a b :
  ∃ n0, ∀ n, n0 ≤ n →
    m * count (stillRunning a b) (sources N n) < length (sources N n).
Proof.
  exists (S (m * Pos.to_nat N)). intros [|n] Hn; [lia|].
  rw length_sources count_stillRunning.
  pose proof (luckyDraws_pos N) as Hpos. pose proof (luckyDraws_le N) as Hle.
  pose proof (pow_add_ge (Pos.to_nat N - luckyDraws N) (luckyDraws N) n) as Hpow.
  replace (Pos.to_nat N - luckyDraws N + luckyDraws N) with (Pos.to_nat N) in Hpow by lia.
  destruct (decide (Pos.to_nat N - luckyDraws N = 0)) as [->|Hrest].
  { rw Nat.pow_0_l // Nat.mul_0_r. apply Nat.neq_0_lt_0, Nat.pow_nonzero. lia. }
  assert (0 < (Pos.to_nat N - luckyDraws N) ^ n) as Hn0
    by by apply Nat.neq_0_lt_0, Nat.pow_nonzero.
  rw (Nat.pow_succ_r' (_ - _)) in Hpow |- *.
  eapply Nat.lt_le_trans; [|apply Hpow].
  assert (m * Pos.to_nat N + 1 ≤ S n * luckyDraws N) as Hturns by nia.
  apply (Nat.mul_le_mono_r _ _ ((Pos.to_nat N - luckyDraws N) ^ n)) in Hturns. nia.
Qed.

Lemma trial_almost_surely_returns_witness :
  ∃ n0, ∀ n, n0 ≤ n →
    3 * count (stillRunning 12 5) (sources 4 n) < length (sources 4 n).
Proof. apply (trial_almost_surely_returns 4 3 12 5). Defined.

(** C30. The odds of the program as it computes.  On an engine whose
    [Math.random()] is uniform on the [N] multiples of [1 / N] below 1, [N]
    a divisor of [2 ^ 53], the program run on the numbers of the language,
    whatever two numbers it multiplies, is still running after [n] turns on
    [(N - luckyDraws N) ^ n] of the [N ^ n] runs, as the program of
    [Retry.v] is. *)
Theorem trialDouble_odds N n (x y : Number) :
  (Z.pos N | 2 ^ 53)%Z →
  count (stillRunningDouble x y) (sources N n) = (Pos.to_nat N - luckyDraws N) ^ n.
Proof.
  intros HN. rw -(count_stillRunning N n 0 0). apply count_ext.
  intros l. by apply stillRunningDouble_sources.
Qed.

Lemma trialDouble_odds_witness :
  count (stillRunningDouble (number 12) (number 5)) (sources 8 2) =
  (Pos.to_nat 8 - luckyDraws 8) ^ 2.
Proof. apply trialDouble_odds. by exists (2 ^ 50)%Z. Defined.

(** With 53 random bits, 1846475847221904 of the [2 ^ 53] draws are lucky:
    a share of 0.205 and a little more. *)
Example luckyDraws_53 : Z.of_nat (luckyDraws (2 ^ 53)) = 1846475847221904%Z.
Proof. by rw /luckyDraws Z2Nat.id. Qed.

(** On a thousand values 205 are lucky: after [n] turns the loop is still
    running on [795 ^ n] runs of [1000 ^ n]. *)
Example trial_odds_1000 a b n :
  luckyDraws 1000 = 205 ∧
  count (stillRunning a b) (sources 1000 n) = 795 ^ n.
Proof. split; [done|]. by rw count_stillRunning. Qed.

(** The runs of two turns on four values, as they are counted. *)
Example trial_odds_4_2 :
  luckyDraws 4 = 1 ∧ length (sources 4 2) = 16 ∧
  count (stillRunning 12 5) (sources 4 2) = 9.
Proof. by vm_compute. Qed.
