(* ===== verification/RetryTree.v ===== *)
(** * RetryTree: the retry loop of [retry.js] without fuel

    [Retry.v] runs the endless loop of [trial] for a bounded number of turns.
    This file models the same function as an interaction tree, where
    [for (;;)] is the unbounded [ITree.iter], and shows that the two models
    agree: the tree returns exactly what the bounded run returns with enough
    fuel ([trialT_agrees]), and when no draw ahead is lucky it is the tree
    that makes silent steps for ever ([trialT_diverges]).

    The program acts on its environment in two ways: it draws a random number
    and it prints a line.  These are the events of [retryE]; [handle] gives
    them their meaning on a [Runtime], the state of [Retry.v]. *)

From Stdlib Require Import QArith.
From stdpp Require Import ssreflect base tactics option list strings.
From S2P Require Import Prelude Exec Retry.
From Paco Require Import paco.
From ITree Require Import ITree ITreeFacts Events.State Events.StateFacts.

Implicit Types (w : Runtime Z) (a b : Z) (fuel k : nat).

(** ** The program as a tree of events *)

(** [Math.random()] and [console.log]/[console.error]. *)
Variant retryE : Type → Type :=
  | Random : retryE Q
  | Print (l : line Z) : retryE unit.

(** The events on a [Runtime]: a draw takes the next number of the source, a
    print adds a line. *)
Definition handle : retryE ~> Monads.stateT (Runtime Z) (itree void1) :=
  λ _ ev w,
    match ev with
    | Random =>
        Ret ({| random := random w; drawn := S (drawn w); output := output w |},
             random w (drawn w))
    | Print l => Ret (print l w, tt)
    end.

(** [primitiveMultiply(a, b)]: the product, or the exception it throws. *)
Definition primitiveMultiplyT a b : itree retryE (failure + Z) :=
  ITree.bind (ITree.trigger Random) (λ r,
    if lucky r then Ret (inr (a * b)%Z)
    else Ret (inl (MultiplicatorUnitFailure "Failed to multiply"))).

(** One turn of the loop: [inl tt] to go on, [inr o] to leave it with [o]. *)
Definition attemptT a b : itree retryE (unit + Outcome failure unit) :=
  ITree.bind (primitiveMultiplyT a b) (λ x,
    match x with
    | inr result =>
        ITree.bind (ITree.trigger (Print (Stdout result))) (λ _, Ret (inr (Normal tt)))
    | inl e =>
        if instanceof_MultiplicatorUnitFailure e
        then ITree.bind (ITree.trigger (Print (Stderr e))) (λ _, Ret (inl tt))
        else Ret (inr (Throw e))
    end).

(** [trial(a, b)]: the loop, with no bound on its turns. *)
Definition trialT a b : itree retryE (Outcome failure unit) :=
  ITree.iter (λ _ : unit, attemptT a b) tt.

(** A tree run on a runtime. *)
Definition runT {A} (t : itree retryE A) w : itree void1 (Runtime Z * A) :=
  interp_state handle t w.

(** How a turn of [Retry.attempt] reads as the result of a turn of the tree. *)
Definition turn (r : Outcome failure Control * Runtime Z) : Runtime Z * (unit + Outcome failure unit) :=
  match r with
  | (Normal Break, w') => (w', inr (Normal tt))
  | (Normal Again, w') => (w', inl tt)
  | (Throw e, w') => (w', inr (Throw e))
  end.

(** [n] silent steps before a tree. *)
Fixpoint taus {E A} (n : nat) (t : itree E A) : itree E A :=
  match n with
  | 0 => t
  | S n => Tau (taus n t)
  end.

(** The states from which no draw ahead is lucky. *)
Definition unlucky w : Prop := ∀ i, lucky (random w (drawn w + i)) = false.

(** ** Lemmas *)

(** An event costs one silent step and does what [handle] says. *)
Lemma handle_trigger {A} (ev : retryE A) w :
  interp_state handle (ITree.trigger ev) w ≅ Tau (handle A ev w).
Proof. rw interp_state_trigger_eqit. by destruct ev; rw /= bind_ret_l. Qed.

(** One turn of the tree is one turn of [Retry.attempt], after the two
    silent steps of its events: the draw, and the line it prints. *)
Lemma attemptT_steps a b w :
  runT (attemptT a b) w ≅ taus 2 (Ret (turn (attempt primitiveMultiply a b w))).
Proof.
  rw /runT /attemptT /primitiveMultiplyT !interp_state_bind handle_trigger.
  rw /= !bind_tau !bind_ret_l /=.
  destruct (lucky (random w (drawn w))) eqn:Hr.
  - rw interp_state_ret bind_ret_l interp_state_bind handle_trigger.
    rw /= bind_tau bind_ret_l interp_state_ret attempt_lucky //.
    by rw /advance /= Nat.add_1_r.
  - rw interp_state_ret bind_ret_l /= interp_state_bind handle_trigger.
    rw /= bind_tau bind_ret_l interp_state_ret attempt_unlucky //.
    by rw /advance /= Nat.add_1_r.
Qed.

Lemma attemptT_run a b w :
  runT (attemptT a b) w ≳ Ret (turn (attempt primitiveMultiply a b w)).
Proof. rw attemptT_steps /=. do 2 setoid_rewrite tau_euttge. reflexivity. Qed.

Lemma attemptT_returns a b w :
  runT (attemptT a b) w ≈ Ret (turn (attempt primitiveMultiply a b w)).
Proof. apply euttge_sub_eutt, attemptT_run. Qed.

Lemma trialT_unfold a b w :
  runT (trialT a b) w ≅
  ITree.bind (runT (attemptT a b) w) (λ wr,
    match wr.2 with
    | inl _ => Tau (runT (trialT a b) wr.1)
    | inr o => Ret (wr.1, o)
    end).
Proof.
  rw /runT {1}/trialT unfold_iter interp_state_bind.
  apply eqit_bind; [reflexivity|]. intros [w' [[]|o]]; simpl.
  - by rw interp_state_tau.
  - by rw interp_state_ret.
Qed.

Lemma trialT_fuel fuel a b w o w' :
  trial fuel a b w = Some (o, w') → runT (trialT a b) w ≈ Ret (w', o).
Proof.
  rw /trial /trialWith. revert w.
  induction fuel as [|fuel IH]; intros w; [done|].
  rw forever_S trialT_unfold attemptT_returns bind_ret_l.
  destruct (attempt primitiveMultiply a b w) as [[[]|e] w1]; simpl.
  - by intros [= <- <-].
  - intros Hrun. rw tau_eutt. by apply IH.
  - by intros [= <- <-].
Qed.

(** A turn from an unlucky state asks for the next one and leaves such a state. *)
Lemma unlucky_advance ls w : unlucky w → unlucky (advance 1 ls w).
Proof. intros Hw i. rw /= -Nat.add_assoc. apply Hw. Qed.

Lemma spin_unfold {E R} : (ITree.spin : itree E R) ≅ Tau ITree.spin.
Proof. setoid_rewrite (itree_eta ITree.spin) at 1. reflexivity. Qed.

(** From an unlucky state the loop is the tree that only makes silent steps:
    each turn ends in an unlucky state and asks for the next one. *)
Lemma trialT_spin a b : ∀ w, unlucky w → runT (trialT a b) w ≈ ITree.spin.
Proof.
  einit. ecofix CIH. intros w Hw.
  rw trialT_unfold. setoid_rewrite attemptT_run. rw bind_ret_l attempt_unlucky /=.
  - rw spin_unfold. etau. ebase. right. apply CIHL. by apply unlucky_advance.
  - rw -(Nat.add_0_r (drawn w)). apply Hw.
Qed.

Lemma trialT_spins a b w r : unlucky w → ¬ runT (trialT a b) w ≈ Ret r.
Proof. intros Hw Hr. rw trialT_spin // in Hr. by apply eutt_spin_Ret_abs in Hr. Qed.

(** ** Lemmas: a run that returns has a number of steps *)

(** A tree that returns, up to silent steps, is a number of silent steps
    and the result. *)
Lemma eutt_Ret_taus {E A} (t : itree E A) (r : A) : t ≈ Ret r → ∃ n, t ≅ taus n (Ret r).
Proof.
  intros Hr. punfold Hr. red in Hr. cbn in Hr.
  remember (RetF r) as ot' eqn:Hot'. remember (observe t) as ot eqn:Hot. revert t Hot.
  induction Hr as [r1 r2 ->| | |t1 ot2 _ _ IH|]; intros t Hot; try discriminate.
  - exists 0. inversion Hot'; subst. rw (itree_eta t) -Hot. reflexivity.
  - destruct (IH Hot' t1 eq_refl) as [n Hn]. exists (S n).
    rw (itree_eta t) -Hot /=. by apply eqit_Tau.
Qed.

Lemma taus_Tau_inv {E A} n (t : itree E A) (r : A) :
  Tau t ≅ taus n (Ret r) → ∃ n', n = S n' ∧ t ≅ taus n' (Ret r).
Proof.
  destruct n as [|n]; simpl; intros Ht; [by apply eqit_inv in Ht|].
  exists n. split; [done|]. by apply eqit_inv_Tau in Ht.
Qed.

Lemma taus_Ret_inv {E A} n (r r' : A) :
  (Ret r : itree E A) ≅ taus n (Ret r') → n = 0 ∧ r = r'.
Proof.
  destruct n as [|n]; simpl; intros Hr; [|by apply eqit_inv in Hr].
  split; [done|]. by apply eqit_inv_Ret in Hr.
Qed.

(** The loop, one turn unfolded with its silent steps. *)
Lemma trialT_steps a b w :
  runT (trialT a b) w ≅
  taus 2 (match turn (attempt primitiveMultiply a b w) with
          | (w1, inl _) => Tau (runT (trialT a b) w1)
          | (w1, inr o) => Ret (w1, o)
          end).
Proof.
  rw trialT_unfold attemptT_steps /= !bind_tau bind_ret_l.
  by destruct (turn _) as [w1 [[]|o]].
Qed.

(** A run of the loop that returns after [n] steps is a bounded run: each
    turn that asks for another one has taken three of the steps. *)
Lemma trialT_bounded a b n : ∀ w w' o,
  runT (trialT a b) w ≅ taus n (Ret (w', o)) → ∃ fuel, trial fuel a b w = Some (o, w').
Proof.
  induction n as [n IH] using lt_wf_ind. intros w w' o. rw trialT_steps /=.
  intros (n1 & -> & (n2 & -> & Hrun)%taus_Tau_inv)%taus_Tau_inv.
  destruct (attempt primitiveMultiply a b w) as [[[]|e] w1] eqn:Hturn; simpl in Hrun.
  - apply taus_Ret_inv in Hrun as [_ [= <- <-]]. exists 1.
    by rw /trial /trialWith forever_S Hturn.
  - apply taus_Tau_inv in Hrun as (n3 & -> & Hrun).
    apply IH in Hrun as [fuel Hrun]; [|lia]. exists (S fuel).
    by rw /trial /trialWith forever_S Hturn.
  - apply taus_Ret_inv in Hrun as [_ [= <- <-]]. exists 1.
    by rw /trial /trialWith forever_S Hturn.
Qed.

(** The converse of [trialT_fuel]: the fuel is read off the run. *)
Lemma trialT_ends a b w w' o :
  runT (trialT a b) w ≈ Ret (w', o) → ∃ fuel, trial fuel a b w = Some (o, w').
Proof. intros [n Hn]%eutt_Ret_taus. by apply (trialT_bounded a b n). Qed.

(** Without any fuel: if the first lucky draw comes after [k] unlucky ones,
    the endless loop returns, having printed [k] failures and the product. *)
Lemma trialT_returns k a b w :
  firstLucky w k →
  runT (trialT a b) w ≈
  Ret (advance (S k) (replicate k failed ++ [Stdout (a * b)]) w, Normal tt).
Proof. intros Hk. apply (trialT_fuel (S k)), trial_firstLucky; [done|lia]. Qed.

(** ** Properties *)

(** C11. The bounded run and the endless loop agree: the loop without a bound
    on its turns returns an outcome and a final state exactly when [trial]
    returns them with some fuel. *)
Theorem trialT_agrees a b w w' o :
  runT (trialT a b) w ≈ Ret (w', o) ↔ ∃ fuel, trial fuel a b w = Some (o, w').
Proof. split; [apply trialT_ends|]. intros [fuel Hrun]. by apply (trialT_fuel fuel). Qed.

(** C23. When no draw ahead is lucky the endless loop diverges: its run is
    the tree that makes silent steps for ever, so it prints nothing more that
    could be waited for and never returns. *)
Theorem trialT_diverges a b w :
  (∀ i, lucky (random w (drawn w + i)) = false) → runT (trialT a b) w ≈ ITree.spin.
Proof. apply trialT_spin. Qed.

Lemma trialT_diverges_witness : runT (trialT 12 5) neverLucky ≈ ITree.spin.
Proof. by apply (trialT_diverges 12 5 neverLucky). Defined.
