(* ===== verification/Regex.v ===== *)
(** * Regex: regular expressions and a matcher for them

    [numbersAgain.js] tests strings against one regular expression.  This
    file holds what is needed to state what such a test answers: the syntax
    of the patterns the program uses (character classes, sequence,
    alternation, [*], [+], [?], the empty alternative), the language of a
    pattern as the relation [matches], and the matcher [accepts], which
    takes derivatives of the pattern along the string.

    [test r str] models [/^r$/.test(str)]: both anchors are present in the
    program's pattern, so the test asks whether the whole string is in the
    language of [r], which is what [accepts] decides ([accepts_matches]).
    The engine of the language searches by backtracking; [Backtrack.v]
    models it and proves that it gives the same answers.

    Characters are the 8-bit characters of [ascii]; the classes of the
    program's pattern hold ASCII characters only. *)

From Stdlib Require Import Ascii String.
From stdpp Require Import ssreflect base tactics option list strings.
From S2P Require Import Prelude.

(** ** Syntax *)

(** What matches one character: a literal (as in [\.]), a decimal digit
    ([\d]), or a bracketed class ([[+-]]). *)
Inductive charset : Type :=
  | Char (c : ascii)
  | Digit
  | OneOf (cs : list ascii).

Inductive regex : Type :=
  | Void
  | Eps
  | Atom (cs : charset)
  | Seq (r1 r2 : regex)
  | Alt (r1 r2 : regex)
  | Star (r : regex).

Implicit Types (c : ascii) (cs : charset) (r : regex) (s : list ascii).

(** [r+] and [r?]. *)
Definition Plus r : regex := Seq r (Star r).
Definition Opt r : regex := Alt r Eps.

(** ** The matcher *)

Definition isDigit c : bool :=
  bool_decide (48 ≤ nat_of_ascii c ≤ 57).

Definition member cs c : bool :=
  match cs with
  | Char d => bool_decide (c = d)
  | Digit => isDigit c
  | OneOf l => bool_decide (c ∈ l)
  end.

Fixpoint nullable r : bool :=
  match r with
  | Void | Atom _ => false
  | Eps | Star _ => true
  | Seq r1 r2 => nullable r1 && nullable r2
  | Alt r1 r2 => nullable r1 || nullable r2
  end.

Fixpoint derive c r : regex :=
  match r with
  | Void | Eps => Void
  | Atom cs => if member cs c then Eps else Void
  | Seq r1 r2 =>
      if nullable r1 then Alt (Seq (derive c r1) r2) (derive c r2)
      else Seq (derive c r1) r2
  | Alt r1 r2 => Alt (derive c r1) (derive c r2)
  | Star r => Seq (derive c r) (Star r)
  end.

Fixpoint accepts r s : bool :=
  match s with
  | [] => nullable r
  | c :: s => accepts (derive c r) s
  end.

(** [/^r$/.test(str)]. *)
Definition test r (str : string) : bool := accepts r (list_ascii_of_string str).

(** ** The language of a pattern *)

Inductive matches : regex → list ascii → Prop :=
  | matches_Eps : matches Eps []
  | matches_Atom cs c : member cs c = true → matches (Atom cs) [c]
  | matches_Seq r1 r2 s1 s2 :
      matches r1 s1 → matches r2 s2 → matches (Seq r1 r2) (s1 ++ s2)
  | matches_Alt_l r1 r2 s : matches r1 s → matches (Alt r1 r2) s
  | matches_Alt_r r1 r2 s : matches r2 s → matches (Alt r1 r2) s
  | matches_Star_nil r : matches (Star r) []
  | matches_Star_app r s1 s2 :
      matches r s1 → matches (Star r) s2 → matches (Star r) (s1 ++ s2).

#[export] Hint Constructors matches : js.

(** ** Inversion of [matches], one equivalence per constructor *)

Lemma matches_Void_iff s : matches Void s ↔ False.
Proof. split; [by intros H; inv H|done]. Qed.

Lemma matches_Eps_iff s : matches Eps s ↔ s = [].
Proof. split; [by intros H; inv H|intros ->; constructor]. Qed.

Lemma matches_Atom_iff cs s : matches (Atom cs) s ↔ ∃ c, s = [c] ∧ member cs c = true.
Proof. split; [intros H; inv H; eauto|intros (c & -> & ?); by constructor]. Qed.

Lemma matches_Seq_iff r1 r2 s :
  matches (Seq r1 r2) s ↔ ∃ s1 s2, s = s1 ++ s2 ∧ matches r1 s1 ∧ matches r2 s2.
Proof. split; [intros H; inv H; eauto|intros (s1 & s2 & -> & ? & ?); by constructor]. Qed.

Lemma matches_Alt_iff r1 r2 s : matches (Alt r1 r2) s ↔ matches r1 s ∨ matches r2 s.
Proof. split; [intros H; inv H; eauto|intros [?|?]; eauto with js]. Qed.

Lemma matches_Star_cons r c s :
  matches (Star r) (c :: s) ↔
  ∃ s1 s2, s = s1 ++ s2 ∧ matches r (c :: s1) ∧ matches (Star r) s2.
Proof.
  split.
  - intros H. remember (Star r) as r' eqn:Hr. remember (c :: s) as s' eqn:Hs.
    revert s Hs. induction H as [| | | | | |r0 s1 s2 H1 _ H2 IH2]; intros t Ht; simplify_eq.
    destruct s1 as [|c1 s1]; simplify_eq/=; eauto.
  - intros (s1 & s2 & -> & ? & ?). by apply (matches_Star_app r (c :: s1)).
Qed.

(** ** Membership in a class *)

Lemma member_Char d c : member (Char d) c = true ↔ c = d.
Proof. apply bool_decide_eq_true. Qed.

Lemma member_OneOf l c : member (OneOf l) c = true ↔ c ∈ l.
Proof. apply bool_decide_eq_true. Qed.

(** A string that matches a single class is one character of the class. *)
Lemma matches_Char_iff d s : matches (Atom (Char d)) s ↔ s = [d].
Proof.
  rw matches_Atom_iff. setoid_rewrite member_Char. naive_solver.
Qed.

Lemma matches_OneOf_iff l s : matches (Atom (OneOf l)) s ↔ ∃ c, s = [c] ∧ c ∈ l.
Proof. rw matches_Atom_iff. by setoid_rewrite member_OneOf. Qed.

(** ** The matcher decides the language *)

Lemma nullable_iff r : nullable r = true ↔ matches r [].
Proof.
  induction r as [| |cs|r1 IH1 r2 IH2|r1 IH1 r2 IH2|r IH]; simpl.
  - by rw matches_Void_iff.
  - by rw matches_Eps_iff.
  - rw matches_Atom_iff. naive_solver.
  - rw andb_true_iff IH1 IH2 matches_Seq_iff. split.
    + intros [??]. by exists [], [].
    + intros (s1 & s2 & [-> ->]%eq_sym%app_eq_nil & ? & ?). done.
  - by rw orb_true_iff IH1 IH2 matches_Alt_iff.
  - split; [constructor|done].
Qed.

Lemma matches_derive c r s : matches (derive c r) s ↔ matches r (c :: s).
Proof.
  revert s. induction r as [| |cs|r1 IH1 r2 IH2|r1 IH1 r2 IH2|r IH]; intros s; simpl.
  - by rw !matches_Void_iff.
  - by rw matches_Void_iff matches_Eps_iff.
  - rw matches_Atom_iff. destruct (member cs c) eqn:Hc.
    + rw matches_Eps_iff. split; [intros ->; eauto|by intros (c0 & ? & ?); simplify_eq].
    + rw matches_Void_iff. split; [done|intros (c0 & ? & ?); simplify_eq; congruence].
  - assert (matches (Seq (derive c r1) r2) s ↔
            ∃ s1 s2, s = s1 ++ s2 ∧ matches r1 (c :: s1) ∧ matches r2 s2) as Hseq.
    { rw matches_Seq_iff. by setoid_rewrite IH1. }
    rw (matches_Seq_iff r1 r2). destruct (nullable r1) eqn:Hn.
    + rw matches_Alt_iff Hseq IH2. apply nullable_iff in Hn. split.
      * intros [(s1 & s2 & -> & ? & ?)|?]; [by exists (c :: s1), s2|by exists [], (c :: s)].
      * intros ([|c1 s1] & s2 & Hs & ? & ?); simplify_eq/=; [by right|left; by exists s1, s2].
    + rw Hseq. split.
      * intros (s1 & s2 & -> & ? & ?). by exists (c :: s1), s2.
      * intros ([|c1 s1] & s2 & Hs & H1 & ?); simplify_eq/=; [|by exists s1, s2].
        apply nullable_iff in H1. congruence.
  - by rw !matches_Alt_iff IH1 IH2.
  - rw matches_Seq_iff matches_Star_cons. by setoid_rewrite IH.
Qed.

Lemma accepts_matches r s : accepts r s = true ↔ matches r s.
Proof.
  revert r. induction s as [|c s IH]; intros r; simpl.
  - apply nullable_iff.
  - by rw IH matches_derive.
Qed.

#[export] Instance matches_dec r s : Decision (matches r s).
Proof.
  refine (cast_if (decide (accepts r s = true))); by rw -accepts_matches.
Defined.

(** ** Repetition of a character class *)

Lemma matches_Opt_iff r s : matches (Opt r) s ↔ s = [] ∨ matches r s.
Proof. rw /Opt matches_Alt_iff matches_Eps_iff. tauto. Qed.

Lemma matches_Star_Atom cs s :
  matches (Star (Atom cs)) s ↔ Forall (λ c, member cs c = true) s.
Proof.
  induction s as [|c s IH].
  - split; [constructor|constructor].
  - rw matches_Star_cons Forall_cons -IH. setoid_rewrite matches_Atom_iff. split.
    + intros (s1 & s2 & -> & (c0 & ? & ?) & ?). by simplify_eq/=.
    + intros [??]. exists [], s. eauto.
Qed.

Lemma matches_Plus_Atom cs s :
  matches (Plus (Atom cs)) s ↔ s ≠ [] ∧ Forall (λ c, member cs c = true) s.
Proof.
  rw /Plus matches_Seq_iff. setoid_rewrite matches_Atom_iff.
  setoid_rewrite matches_Star_Atom. split.
  - intros (s1 & s2 & -> & (c & -> & ?) & ?). split; [done|by constructor].
  - intros [Hs Hall]. destruct Hall as [|c s Hc Hall]; [done|].
    exists [c], s. eauto.
Qed.

(** ** Properties of the matcher *)

(** C19. The matcher decides the language: [test r str] answers [true]
    exactly when the whole string [str] is in the language of [r]. *)
Theorem test_decides_language r str :
  test r str = true ↔ matches r (list_ascii_of_string str).
Proof. apply accepts_matches. Qed.
