(* ===== verification/Backtrack.v ===== *)
(** * Backtrack: the backtracking matcher behind [RegExp.prototype.test]

    The engine of the language does not take derivatives: it compiles a
    pattern to a matcher that is given the rest of the input and a
    continuation, tries the alternatives from left to right and the
    repetitions greedily, and backtracks when the continuation fails.  This
    file models that engine for the patterns of [Regex.v] and proves that it
    answers as [Regex.test] does, so that what is proved of [test] holds of
    the engine.

    - [matcher r k s] runs [r] at the front of [s] and hands what is left to
      [k];
    - [repeatMatcher m k n s] is the matcher of [r*] for the matcher [m] of
      [r]: one more iteration of [m] if it consumes input, else [k].  An
      iteration that consumes nothing is rejected, as the engine does, so
      every iteration shortens the input and [length s + 1] iterations are
      enough: [n] is never exhausted ([repeatMatcher_fuel]);
    - [testBacktracking r str] is [/^r$/.test(str)]: the match starts at the
      first character and the last continuation accepts the empty rest. *)

From Stdlib Require Import Ascii String.
From stdpp Require Import ssreflect base tactics option list strings.
From S2P Require Import Prelude Regex.

Implicit Types (c : ascii) (cs : charset) (r : regex) (s t : list ascii).
Implicit Types (k : list ascii → bool) (n : nat).
Implicit Types (m : (list ascii → bool) → list ascii → bool).

(** ** The engine *)

Fixpoint repeatMatcher m k n s : bool :=
  match n with
  | 0 => k s
  | S n =>
      m (λ s', bool_decide (length s' < length s) && repeatMatcher m k n s') s || k s
  end.

Fixpoint matcher r k s : bool :=
  match r with
  | Void => false
  | Eps => k s
  | Atom cs => match s with c :: s' => member cs c && k s' | [] => false end
  | Seq r1 r2 => matcher r1 (matcher r2 k) s
  | Alt r1 r2 => matcher r1 k s || matcher r2 k s
  | Star r1 => repeatMatcher (matcher r1) k (S (length s)) s
  end.

(** The continuation of [$]: the input is used up. *)
Definition atEnd s : bool := bool_decide (s = []).

Definition testBacktracking r (str : string) : bool :=
  matcher r atEnd (list_ascii_of_string str).

(** ** Specification *)

(** What a matcher for the language [L] answers: whether some prefix of the
    input is in [L] and the continuation accepts the rest. *)
Definition splits (L : list ascii → Prop) k s : Prop :=
  ∃ s1 s2, s = s1 ++ s2 ∧ L s1 ∧ k s2 = true.

Definition implements m (L : list ascii → Prop) : Prop :=
  ∀ k s, m k s = true ↔ splits L k s.

(** ** Lemmas *)

Lemma splits_nil (L : list ascii → Prop) k s : L [] → k s = true → splits L k s.
Proof. intros. by exists [], s. Qed.

(** The matcher of [r*], given one of [r] and enough iterations. *)
Lemma repeatMatcher_spec m r k n s :
  implements m (matches r) → length s < n →
  repeatMatcher m k n s = true ↔ splits (matches (Star r)) k s.
Proof.
  intros Hm. revert s. induction n as [|n IH]; intros s Hn; [lia|].
  rw /= orb_true_iff (Hm _ s). split.
  - intros [(s1 & t & -> & H1 & [Hlt Hrep]%andb_true_iff)|Hk].
    + apply bool_decide_eq_true in Hlt.
      apply IH in Hrep as (s2 & s3 & -> & H2 & Hk); [|lia].
      exists (s1 ++ s2), s3. rw app_assoc. eauto with js.
    + apply splits_nil; [constructor|done].
  - intros (s1 & s2 & -> & Hstar & Hk). destruct s1 as [|c s1]; [by right|left].
    apply matches_Star_cons in Hstar as (u & v & -> & H1 & Hv).
    exists (c :: u), (v ++ s2). split; [by rw /= -app_assoc|]. split; [done|].
    rw /= !length_app in Hn. apply andb_true_iff. split.
    + apply bool_decide_eq_true. rw /= !length_app. lia.
    + apply IH; [rw length_app; lia|by exists v, s2].
Qed.

Lemma matcher_spec r : implements (matcher r) (matches r).
Proof.
  induction r as [| |cs|r1 IH1 r2 IH2|r1 IH1 r2 IH2|r IH]; intros k s; simpl.
  - split; [done|]. by intros (s1 & s2 & _ & ?%matches_Void_iff & _).
  - split; [intros Hk; apply splits_nil; [constructor|done]|].
    by intros (s1 & s2 & -> & ->%matches_Eps_iff & ?).
  - destruct s as [|c s].
    + split; [done|]. by intros (s1 & s2 & ? & (c & -> & _)%matches_Atom_iff & _).
    + rw andb_true_iff. split.
      * intros [Hc Hk]. exists [c], s. eauto with js.
      * intros (s1 & s2 & ? & (c0 & -> & Hc)%matches_Atom_iff & Hk). by simplify_eq/=.
  - rw IH1. split.
    + intros (s1 & t & -> & H1 & (s2 & s3 & -> & H2 & Hk)%IH2).
      exists (s1 ++ s2), s3. rw app_assoc. eauto with js.
    + intros (s12 & s3 & -> & (s1 & s2 & -> & H1 & H2)%matches_Seq_iff & Hk).
      exists s1, (s2 ++ s3). rw -app_assoc. split; [done|]. split; [done|].
      apply IH2. by exists s2, s3.
  - rw orb_true_iff IH1 IH2. split.
    + intros [(s1 & s2 & -> & ? & ?)|(s1 & s2 & -> & ? & ?)]; exists s1, s2; eauto with js.
    + intros (s1 & s2 & -> & [?|?]%matches_Alt_iff & ?); [left|right]; by exists s1, s2.
  - apply (repeatMatcher_spec (matcher r) r k (S (length s)) s IH). lia.
Qed.

(** Any number of iterations above the length of the input gives the same
    answer: the bound of [repeatMatcher] is never the reason for a failure. *)
Lemma repeatMatcher_fuel m r k n1 n2 s :
  implements m (matches r) → length s < n1 → length s < n2 →
  repeatMatcher m k n1 s = repeatMatcher m k n2 s.
Proof.
  intros Hm H1 H2. apply eq_true_iff_eq.
  by rw !(repeatMatcher_spec m r).
Qed.

Lemma splits_atEnd (L : list ascii → Prop) s : splits L atEnd s ↔ L s.
Proof.
  split.
  - intros (s1 & s2 & -> & H1 & ->%bool_decide_eq_true). by rw app_nil_r.
  - intros H. exists s, []. by rw app_nil_r.
Qed.

Lemma matcher_atEnd r s : matcher r atEnd s = true ↔ matches r s.
Proof. by rw matcher_spec splits_atEnd. Qed.

Lemma matcher_accepts r s : matcher r atEnd s = accepts r s.
Proof. apply eq_true_iff_eq. by rw matcher_atEnd accepts_matches. Qed.

(** ** Properties *)

(** C18. The backtracking engine and the derivative matcher agree: on every
    pattern and every string, [testBacktracking] answers as [test] does. *)
Theorem testBacktracking_agrees r str : testBacktracking r str = test r str.
Proof. apply matcher_accepts. Qed.

(** The engine ends on a repetition of a repetition, the shape on which a
    matcher without the check for empty iterations loops, and finds no match
    where there is none. *)
Example testBacktracking_nested_star :
  testBacktracking (Star (Star (Atom Digit))) "2024x" = false ∧
  testBacktracking (Star (Star (Atom Digit))) "2024" = true ∧
  testBacktracking (Star (Opt (Atom Digit))) "" = true.
Proof. by vm_compute. Qed.
