(* ===== verification/Pattern.v ===== *)
(** * Pattern: the text of a regular expression

    The program writes its pattern as a regular expression literal.  This
    file reads such a text: [parsePattern] turns the characters between the
    slashes into a syntax tree, [printPattern] writes a tree back, and
    [desugar] gives the tree its meaning as a [regex] of [Regex.v].

    The grammar is the part of the grammar of the language that the
    program uses.  A pattern is a disjunction; a disjunction is one or more
    alternatives separated by [|]; an alternative is a sequence of terms,
    possibly empty; a term is one of the assertions [^] and [$], or an atom
    with an optional quantifier [*], [+] or [?]; an atom is a character
    that has no meaning in the syntax, a syntax character after a
    backslash, the class of digits (a backslash and [d]), a class of
    characters between brackets, or a disjunction between parentheses.
    Everything else ([.], braces, ranges and negation in a class, other
    escapes, lazy quantifiers, a quantifier after an assertion) is refused:
    [parsePattern] answers [None].

    A tree without assertions means a [regex]; [compile] recognises the
    patterns written between [^] and [$], as the pattern of the program is,
    and gives the [regex] between the two.  What the assertions mean where
    they stand is the matter of [Engine.v].

    The parser descends recursively with fuel; the length of the text plus
    one is enough, since every call that recurses has consumed a character. *)

From Stdlib Require Import Ascii String.
From stdpp Require Import ssreflect base tactics option list strings.
From S2P Require Import Prelude Regex.

(** ** Syntax trees *)

Inductive quantifier : Type :=
  | Once
  | ZeroOrMore
  | OneOrMore
  | ZeroOrOne.

(** The assertions [^] and [$] stand among the atoms; a term with one of
    them has the quantifier [Once] ([quantifiable]). *)
Inductive atom : Type :=
  | InputStart
  | InputEnd
  | PatternCharacter (c : ascii)
  | IdentityEscape (c : ascii)
  | DigitEscape
  | CharacterClass (cs : list ascii)
  | Group (d : list (list (atom * quantifier))).

#[local] Notation term := (atom * quantifier)%type.
#[local] Notation alternative := (list term).
#[local] Notation disjunction := (list alternative).

#[export] Instance quantifier_eq_dec : EqDecision quantifier.
Proof. solve_decision. Defined.

Implicit Types (c : ascii) (cs s rest : list ascii) (q : quantifier) (a : atom).
Implicit Types (t : term) (alt : alternative) (d : disjunction) (fuel : nat).

(** The characters with a meaning in the syntax. *)
Definition syntaxCharacter c : bool :=
  bool_decide (c ∈ ["^"; "$"; "\"; "."; "*"; "+"; "?"; "("; ")"; "["; "]"; "{"; "}"; "|"]%char).

(** A class the parser accepts: no bracket or backslash inside, no [^] in
    front (a negated class), no [-] between two characters (a range). *)
Definition classOk cs : bool :=
  bool_decide ("]"%char ∉ cs ∧ "\"%char ∉ cs ∧ head cs ≠ Some "^"%char ∧
               "-"%char ∉ tail (removelast cs)).

Definition assertion a : bool :=
  match a with
  | InputStart | InputEnd => true
  | _ => false
  end.

(** An assertion takes no quantifier. *)
Definition quantifiable a q : bool := negb (assertion a) || bool_decide (q = Once).

(** ** The printer *)

Definition printQuantifier q : list ascii :=
  match q with
  | Once => []
  | ZeroOrMore => ["*"%char]
  | OneOrMore => ["+"%char]
  | ZeroOrOne => ["?"%char]
  end.

(** The texts of the alternatives with a bar between them. *)
Fixpoint joinBar (texts : list (list ascii)) : list ascii :=
  match texts with
  | [] => []
  | [s] => s
  | s :: texts => s ++ "|"%char :: joinBar texts
  end.

Fixpoint printAtom a : list ascii :=
  match a with
  | InputStart => ["^"%char]
  | InputEnd => ["$"%char]
  | PatternCharacter c => [c]
  | IdentityEscape c => ["\"%char; c]
  | DigitEscape => ["\"%char; "d"%char]
  | CharacterClass cs => "["%char :: cs ++ ["]"%char]
  | Group d =>
      "("%char ::
      joinBar (map (λ alt, concat (map (λ t, printAtom t.1 ++ printQuantifier t.2) alt)) d)
      ++ [")"%char]
  end.

Definition printTerm t : list ascii := printAtom t.1 ++ printQuantifier t.2.
Definition printAlternative alt : list ascii := concat (map printTerm alt).
Definition printDisjunction d : list ascii := joinBar (map printAlternative d).
Definition printPattern d : list ascii := printDisjunction d.

(** ** The parser *)

Definition parseQuantifier s : quantifier * list ascii :=
  match s with
  | "*"%char :: s' => (ZeroOrMore, s')
  | "+"%char :: s' => (OneOrMore, s')
  | "?"%char :: s' => (ZeroOrOne, s')
  | _ => (Once, s)
  end.

(** The quantifier of the atom [a]: none is read after an assertion. *)
Definition parseQuantifierOf a s : quantifier * list ascii :=
  if assertion a then (Once, s) else parseQuantifier s.

(** The characters of a class, up to the closing bracket. *)
Fixpoint parseClassBody s : option (list ascii * list ascii) :=
  match s with
  | [] => None
  | c :: s' =>
      if decide (c = "]"%char) then Some ([], s')
      else '(cs, rest) ← parseClassBody s'; Some (c :: cs, rest)
  end.

Definition parseClass s : option (atom * list ascii) :=
  '(cs, rest) ← parseClassBody s;
  if classOk cs then Some (CharacterClass cs, rest) else None.

Definition parseEscape s : option (atom * list ascii) :=
  match s with
  | [] => None
  | c :: s' =>
      if decide (c = "d"%char) then Some (DigitEscape, s')
      else if syntaxCharacter c then Some (IdentityEscape c, s')
      else None
  end.

(** An atom that starts with the character [c], the rest of the text being
    [s]; [inside] parses the disjunction of a group. *)
Definition parseAtom (inside : list ascii → option (disjunction * list ascii)) c s :
    option (atom * list ascii) :=
  if decide (c = "^"%char) then Some (InputStart, s)
  else if decide (c = "$"%char) then Some (InputEnd, s)
  else if decide (c = "("%char) then
    '(d, s1) ← inside s;
    match s1 with
    | ")"%char :: s2 => Some (Group d, s2)
    | _ => None
    end
  else if decide (c = "["%char) then parseClass s
  else if decide (c = "\"%char) then parseEscape s
  else if syntaxCharacter c then None
  else Some (PatternCharacter c, s).

(** A disjunction, up to the end of the text or a closing parenthesis, which
    is left in the text. *)
Fixpoint parseDisjunction fuel s : option (disjunction * list ascii) :=
  match fuel with
  | 0 => None
  | S fuel =>
      match s with
      | [] => Some ([[]], [])
      | c :: s' =>
          if decide (c = ")"%char) then Some ([[]], s)
          else if decide (c = "|"%char) then
            '(d, rest) ← parseDisjunction fuel s'; Some ([] :: d, rest)
          else
            '(a, s1) ← parseAtom (parseDisjunction fuel) c s';
            let '(q, s2) := parseQuantifierOf a s1 in
            '(d, rest) ← parseDisjunction fuel s2;
            match d with
            | alt :: d' => Some (((a, q) :: alt) :: d', rest)
            | [] => None
            end
      end
  end.

(** A pattern: a disjunction that takes the whole text. *)
Definition parsePattern s : option disjunction :=
  '(d, rest) ← parseDisjunction (S (length s)) s;
  if decide (rest = []) then Some d else None.

(** ** The meaning of a syntax tree *)

Definition quantified q (r : regex) : regex :=
  match q with
  | Once => r
  | ZeroOrMore => Star r
  | OneOrMore => Plus r
  | ZeroOrOne => Opt r
  end.

(** A sequence or an alternation of the patterns of a list; the empty
    sequence is the empty pattern. *)
Fixpoint sequence (rs : list regex) : regex :=
  match rs with
  | [] => Eps
  | [r] => r
  | r :: rs => Seq r (sequence rs)
  end.

Fixpoint alternation (rs : list regex) : regex :=
  match rs with
  | [] => Void
  | [r] => r
  | r :: rs => Alt r (alternation rs)
  end.

(** The [regex] of a tree; there is none for a tree with an assertion in it,
    whose meaning depends on where in the input the match stands. *)
Fixpoint desugarAtom a : option regex :=
  match a with
  | InputStart | InputEnd => None
  | PatternCharacter c | IdentityEscape c => Some (Atom (Char c))
  | DigitEscape => Some (Atom Digit)
  | CharacterClass cs => Some (Atom (OneOf cs))
  | Group d =>
      alternation <$>
        mapM (λ alt, sequence <$> mapM (λ t, quantified t.2 <$> desugarAtom t.1) alt) d
  end.

Definition desugarTerm t : option regex := quantified t.2 <$> desugarAtom t.1.
Definition desugarAlternative alt : option regex := sequence <$> mapM desugarTerm alt.
Definition desugar d : option regex := alternation <$> mapM desugarAlternative d.

(** What stands between the assertions of a pattern of the form [^...$]
    with one alternative. *)
Definition anchored d : option alternative :=
  match d with
  | [(InputStart, Once) :: alt] =>
      match last alt with
      | Some (InputEnd, Once) => Some (removelast alt)
      | _ => None
      end
  | _ => None
  end.

(** [new RegExp(source)], for a pattern written between [^] and [$]: the
    [regex] between the two. *)
Definition compile (source : string) : option regex :=
  d ← parsePattern (list_ascii_of_string source);
  alt ← anchored d;
  desugarAlternative alt.

(** ** Well-formed trees *)

(** The trees the parser builds: a character written plainly has no meaning
    in the syntax, an escaped one has, a class is one the parser accepts, a
    disjunction has at least one alternative and no assertion has a
    quantifier. *)
Fixpoint wfAtom a : bool :=
  match a with
  | InputStart | InputEnd => true
  | PatternCharacter c => negb (syntaxCharacter c)
  | IdentityEscape c => syntaxCharacter c
  | DigitEscape => true
  | CharacterClass cs => classOk cs
  | Group d =>
      match d with
      | [] => false
      | _ => forallb (forallb (λ t, wfAtom t.1 && quantifiable t.1 t.2)) d
      end
  end.

Definition wfTerm t : bool := wfAtom t.1 && quantifiable t.1 t.2.
Definition wfAlternative alt : bool := forallb wfTerm alt.

Definition wfDisjunction d : bool :=
  match d with
  | [] => false
  | _ => forallb wfAlternative d
  end.

(** Where a disjunction may stop: at the end of the text or before a
    closing parenthesis. *)
Definition delimited rest : Prop :=
  match rest with
  | [] => True
  | c :: _ => c = ")"%char
  end.

(** A text that does not start with a quantifier: what follows a term in a
    printed disjunction. *)
Definition unquantified s : Prop := parseQuantifier s = (Once, s).

(** What a parser of disjunctions answers, when it answers: the tree whose
    text is what it consumed, well formed, and a rest that starts with a
    delimiter. *)
Definition reads (inside : list ascii → option (disjunction * list ascii)) : Prop :=
  ∀ s d rest, inside s = Some (d, rest) →
    s = printDisjunction d ++ rest ∧ wfDisjunction d = true ∧ delimited rest.

(** ** Induction on syntax trees *)

(** The induction principle of [atom] with a premise for the atoms inside a
    group. *)
Lemma atom_ind' (P : atom → Prop) :
  P InputStart → P InputEnd →
  (∀ c, P (PatternCharacter c)) → (∀ c, P (IdentityEscape c)) →
  P DigitEscape → (∀ cs, P (CharacterClass cs)) →
  (∀ d, Forall (Forall (λ t, P t.1)) d → P (Group d)) →
  ∀ a, P a.
Proof.
  intros Hstart Hend Hchar Hescape Hdigit Hclass Hgroup. fix IH 1.
  intros [| |c|c| |cs|d];
    [exact Hstart|exact Hend|exact (Hchar c)|exact (Hescape c)|exact Hdigit|exact (Hclass cs)|].
  apply Hgroup. induction d as [|alt d IHd]; constructor; [|exact IHd].
  induction alt as [|[a q] alt IHalt]; constructor; [exact (IH a)|exact IHalt].
Qed.

(** ** Lemmas: the printer *)

Lemma printAtom_Group d : printAtom (Group d) = "("%char :: printDisjunction d ++ [")"%char].
Proof. done. Qed.

Lemma printDisjunction_nil_cons alt d :
  printDisjunction ([] :: alt :: d) = "|"%char :: printDisjunction (alt :: d).
Proof. done. Qed.

Lemma printDisjunction_cons_cons t alt d :
  printDisjunction ((t :: alt) :: d) = printTerm t ++ printDisjunction (alt :: d).
Proof.
  rw /printDisjunction /printAlternative /=. destruct d; by rw /= -?app_assoc.
Qed.

Lemma wfDisjunction_cons_cons t alt d :
  wfDisjunction ((t :: alt) :: d) = wfTerm t && wfDisjunction (alt :: d).
Proof. by rw /wfDisjunction /= andb_assoc. Qed.

Lemma wfDisjunction_nil_cons alt d : wfDisjunction ([] :: alt :: d) = wfDisjunction (alt :: d).
Proof. done. Qed.

Lemma wfAtom_Group d : wfAtom (Group d) = wfDisjunction d.
Proof. done. Qed.

(** ** Lemmas: the parser on a printed tree *)

Lemma parseClassBody_app cs s :
  "]"%char ∉ cs → parseClassBody (cs ++ "]"%char :: s) = Some (cs, s).
Proof.
  induction cs as [|c cs IH]; intros Hcs; simpl; [done|].
  apply not_elem_of_cons in Hcs as [? ?]. rw decide_False // IH //.
Qed.

Lemma classOk_closed cs : classOk cs = true → "]"%char ∉ cs.
Proof. by intros [? _]%bool_decide_eq_true. Qed.

Lemma parseQuantifier_print q s :
  unquantified s → parseQuantifier (printQuantifier q ++ s) = (q, s).
Proof. by destruct q. Qed.

Lemma parseQuantifierOf_print a q s :
  quantifiable a q = true → unquantified s →
  parseQuantifierOf a (printQuantifier q ++ s) = (q, s).
Proof.
  rw /parseQuantifierOf /quantifiable. destruct (assertion a); simpl.
  - by intros ->%bool_decide_eq_true.
  - intros _. apply parseQuantifier_print.
Qed.

Lemma unquantified_delimited rest : delimited rest → unquantified rest.
Proof. destruct rest as [|c rest]; [done|]. by intros ->. Qed.

Lemma unquantified_printAtom a s : wfAtom a = true → unquantified (printAtom a ++ s).
Proof.
  destruct a as [| |c|c| |cs|d]; rw /unquantified /=; try done.
  rw negb_true_iff. intros Hc.
  by destruct c as [[] [] [] [] [] [] [] []].
Qed.

Lemma unquantified_printDisjunction d rest :
  wfDisjunction d = true → delimited rest → unquantified (printDisjunction d ++ rest).
Proof.
  destruct d as [|[|t alt] [|alt' d]]; try done.
  - intros _. apply unquantified_delimited.
  - rw wfDisjunction_cons_cons printDisjunction_cons_cons /printTerm -!app_assoc.
    intros [[? _]%andb_true_iff _]%andb_true_iff _. by apply unquantified_printAtom.
  - rw wfDisjunction_cons_cons printDisjunction_cons_cons /printTerm -!app_assoc.
    intros [[? _]%andb_true_iff _]%andb_true_iff _. by apply unquantified_printAtom.
Qed.

(** A character without a meaning in the syntax opens no construct. *)
Lemma plain_character c :
  syntaxCharacter c = false →
  c ≠ ")"%char ∧ c ≠ "|"%char ∧ c ≠ "^"%char ∧ c ≠ "$"%char ∧
  c ≠ "("%char ∧ c ≠ "["%char ∧ c ≠ "\"%char.
Proof.
  intros Hc%bool_decide_eq_false.
  repeat split; intros ->; apply Hc; by apply (bool_decide_unpack _).
Qed.

Lemma escaped_character c : syntaxCharacter c = true → c ≠ "d"%char.
Proof. by intros Hc ->. Qed.

(** The goals left once an atom is read: its first character is as the goal
    says, and it is neither a closing parenthesis nor a bar. *)
Ltac opens_atom := split; [done|]; split; [done|]; split; done.

(** A well-formed atom is read back from its text, provided the parser of
    disjunctions reads back the inside of a group. *)
Lemma parseAtom_print inside a s :
  wfAtom a = true →
  (∀ d, a = Group d → inside (printDisjunction d ++ ")"%char :: s) = Some (d, ")"%char :: s)) →
  ∃ c s', printAtom a ++ s = c :: s' ∧ c ≠ ")"%char ∧ c ≠ "|"%char ∧
          parseAtom inside c s' = Some (a, s).
Proof.
  destruct a as [| |c|c| |cs|d]; intros Hwf Hd; simpl in Hwf.
  - exists "^"%char, s. opens_atom.
  - exists "$"%char, s. opens_atom.
  - exists c, s. apply negb_true_iff in Hwf.
    destruct (plain_character c Hwf) as (? & ? & ? & ? & ? & ? & ?).
    by rw /parseAtom Hwf !decide_False.
  - exists "\"%char, (c :: s).
    rw /parseAtom /= Hwf decide_False; [|by apply escaped_character]. opens_atom.
  - exists "\"%char, ("d"%char :: s). rw /parseAtom /=. opens_atom.
  - exists "["%char, (cs ++ "]"%char :: s).
    rw /parseAtom /= /parseClass parseClassBody_app; [|by apply classOk_closed].
    rw /= Hwf -app_assoc. opens_atom.
  - exists "("%char, (printDisjunction d ++ ")"%char :: s).
    rw printAtom_Group /parseAtom /= (Hd d) // -app_assoc /=. opens_atom.
Qed.

Lemma printAtom_length a : 0 < length (printAtom a).
Proof. destruct a; simpl; lia. Qed.

Lemma parseDisjunction_print fuel d rest :
  wfDisjunction d = true → delimited rest →
  length (printDisjunction d ++ rest) < fuel →
  parseDisjunction fuel (printDisjunction d ++ rest) = Some (d, rest).
Proof.
  revert d rest. induction fuel as [|fuel IH]; intros d rest Hwf Hrest Hfuel; [lia|].
  destruct d as [|[|[a q] alt] d]; [done| |].
  - destruct d as [|alt d].
    + destruct rest as [|c rest]; [done|]. by rw /= decide_True.
    + rw printDisjunction_nil_cons /= IH //. rw printDisjunction_nil_cons /= in Hfuel. lia.
  - rw wfDisjunction_cons_cons in Hwf. apply andb_true_iff in Hwf as [[Ha Hq]%andb_true_iff Hwf].
    rw printDisjunction_cons_cons /printTerm /= -!app_assoc in Hfuel |- *.
    pose proof (printAtom_length a) as Hlen. rw !length_app in Hfuel.
    destruct (parseAtom_print (parseDisjunction fuel) a
                (printQuantifier q ++ printDisjunction (alt :: d) ++ rest) Ha)
      as (c & s' & -> & Hclose & Hbar & Hatom).
    { intros d0 ->. apply IH; [by rw -wfAtom_Group|done|].
      rw printAtom_Group /= !length_app /= in Hlen Hfuel. rw !length_app /= !length_app. lia. }
    rw /= decide_False // decide_False // Hatom /= parseQuantifierOf_print //.
    + rw IH //. rw length_app. lia.
    + by apply unquantified_printDisjunction.
Qed.

Lemma parsePattern_print d : wfDisjunction d = true → parsePattern (printPattern d) = Some d.
Proof.
  intros Hwf. rw /parsePattern /printPattern -{2}(app_nil_r (printDisjunction d)).
  rw parseDisjunction_print //. rw app_nil_r. lia.
Qed.

(** ** Lemmas: the printer on a parsed text *)

Lemma parseQuantifier_sound s q s' : parseQuantifier s = (q, s') → s = printQuantifier q ++ s'.
Proof.
  destruct s as [|c s]; [by intros [= <- <-]|]. rw /parseQuantifier.
  repeat case_match; by intros [= <- <-].
Qed.

Lemma parseQuantifierOf_sound a s q s' :
  parseQuantifierOf a s = (q, s') → s = printQuantifier q ++ s' ∧ quantifiable a q = true.
Proof.
  rw /parseQuantifierOf /quantifiable. destruct (assertion a); simpl.
  - by intros [= <- <-].
  - by intros ?%parseQuantifier_sound.
Qed.

Lemma parseClassBody_sound s cs rest :
  parseClassBody s = Some (cs, rest) → s = cs ++ "]"%char :: rest.
Proof.
  revert cs. induction s as [|c s IH]; intros cs; [done|]. simpl.
  case_decide; [by intros [= <- <-]; subst|].
  destruct (parseClassBody s) as [[cs' rest']|]; [|done].
  intros [= <- <-]. by rw /= -IH.
Qed.

Lemma parseAtom_sound inside c s a s1 :
  reads inside → parseAtom inside c s = Some (a, s1) →
  c :: s = printAtom a ++ s1 ∧ wfAtom a = true.
Proof.
  intros Hinside. rw /parseAtom. repeat case_decide; subst.
  - by intros [= <- <-].
  - by intros [= <- <-].
  - destruct (inside s) as [[d s2]|] eqn:Hd; [|done].
    apply Hinside in Hd as (-> & Hwf & _). destruct s2 as [|c s2]; [done|]. simpl.
    case_match; try done. repeat case_match; try done. intros [= <- <-].
    by rw printAtom_Group wfAtom_Group /= -app_assoc.
  - rw /parseClass. destruct (parseClassBody s) as [[cs rest]|] eqn:Hcs; [|done].
    apply parseClassBody_sound in Hcs as ->. simpl.
    destruct (classOk cs) eqn:Hok; [|done]. intros [= <- <-]. by rw /= -app_assoc.
  - rw /parseEscape. destruct s as [|c s]; [done|]. case_decide; subst.
    + by intros [= <- <-].
    + destruct (syntaxCharacter c) eqn:Hc; [|done]. by intros [= <- <-].
  - destruct (syntaxCharacter c) eqn:Hc; [done|]. intros [= <- <-]. by rw /= Hc.
Qed.

Lemma parseDisjunction_sound fuel : reads (parseDisjunction fuel).
Proof.
  induction fuel as [|fuel IH]; intros s d rest; [done|].
  destruct s as [|c s]; [by intros [= <- <-]|]. simpl.
  case_decide as Hclose; [by intros [= <- <-]|].
  case_decide as Hbar.
  - destruct (parseDisjunction fuel s) as [[d' rest']|] eqn:Hd; [|done].
    intros [= <- <-]. apply IH in Hd as (-> & Hwf & Hrest). subst c.
    by destruct d' as [|alt d'].
  - destruct (parseAtom _ c s) as [[a s1]|] eqn:Ha; [|done].
    apply (parseAtom_sound _ _ _ _ _ IH) in Ha as [Hs Hwfa]. simpl.
    destruct (parseQuantifierOf a s1) as [q s2] eqn:Hq.
    apply parseQuantifierOf_sound in Hq as [-> Hq].
    destruct (parseDisjunction fuel s2) as [[[|alt d'] rest']|] eqn:Hd; [done| |done].
    intros [= <- <-]. apply IH in Hd as (-> & Hwf & Hrest).
    by rw printDisjunction_cons_cons wfDisjunction_cons_cons /wfTerm /printTerm
          Hs Hwfa Hq Hwf -!app_assoc.
Qed.

Lemma parsePattern_sound s d :
  parsePattern s = Some d → s = printPattern d ∧ wfDisjunction d = true.
Proof.
  rw /parsePattern. destruct (parseDisjunction _ s) as [[d' rest]|] eqn:Hd; [|done]. simpl.
  case_decide; [|done]. intros [= <-]. subst rest.
  apply parseDisjunction_sound in Hd as (-> & Hwf & _). by rw app_nil_r.
Qed.

(** ** Lemmas: the meaning of sequences and alternations *)

Lemma anchored_Some d alt :
  anchored d = Some alt ↔ d = [(InputStart, Once) :: alt ++ [(InputEnd, Once)]].
Proof.
  split.
  - rw /anchored. repeat case_match; try done; subst. intros [= <-].
    by select (last _ = Some _) (fun H => apply last_Some in H as [alt' ->]; rw removelast_last).
  - intros ->. by rw /anchored last_snoc removelast_last.
Qed.

Lemma matches_sequence_cons r rs s :
  matches (sequence (r :: rs)) s ↔ matches (Seq r (sequence rs)) s.
Proof.
  destruct rs as [|r' rs]; [|done]. rw /= matches_Seq_iff. split.
  - intros Hr. exists s, []. by rw app_nil_r matches_Eps_iff.
  - intros (s1 & s2 & -> & Hr & ->%matches_Eps_iff). by rw app_nil_r.
Qed.

Lemma matches_alternation rs s : matches (alternation rs) s ↔ ∃ r, r ∈ rs ∧ matches r s.
Proof.
  induction rs as [|r [|r' rs] IH].
  - rw /= matches_Void_iff. split; [done|]. by intros (r & ?%elem_of_nil & _).
  - simpl. split; [intros Hr; exists r; by rw list_elem_of_singleton|].
    by intros (r' & ->%list_elem_of_singleton & ?).
  - change (alternation (r :: r' :: rs)) with (Alt r (alternation (r' :: rs))).
    rw matches_Alt_iff IH. setoid_rewrite (elem_of_cons (r' :: rs)). naive_solver.
Qed.

(** ** Properties *)

(** C17. The parser and the printer are inverse to each other: a text parses
    to a tree exactly when the tree is well formed and the text is the one
    the printer writes for it. *)
Theorem parsePattern_printPattern s d :
  parsePattern s = Some d ↔ wfDisjunction d = true ∧ s = printPattern d.
Proof.
  split; [by intros [??]%parsePattern_sound|]. intros [Hwf ->]. by apply parsePattern_print.
Qed.

(** What the parser refuses: the wildcard, braces, a range or a negation in
    a class, other escapes, a lazy quantifier, a quantifier after an
    assertion, a group left open or closed twice. *)
Example parsePattern_refuses :
  parsePattern <$> (list_ascii_of_string <$>
    ["."; "a{2}"; "[a-z]"; "[^a]"; "\w"; "a*?"; "^*"; "(a"; "a)"]%string) =
  replicate 9 None.
Proof. by vm_compute. Qed.

(** What [compile] refuses besides: a pattern that is not between the two
    assertions, one with a second alternative beside them, one with an
    assertion in the middle. *)
Example compile_refuses :
  compile <$> ["a"; "^a"; "a$"; "^a$|b"; "^a^b$"; "^(a$)$"]%string = replicate 6 None.
Proof. by vm_compute. Qed.
