(* ===== verification/Engine.v ===== *)
(** * Engine: patterns run on an input, with assertions and search

    [Backtrack.v] runs a [regex], a pattern without assertions, from the
    first character of the input to the last.  This file runs the syntax
    trees of [Pattern.v] the way the language defines
    [RegExp.prototype.test]:

    - [atomMatcher], [termMatcher], [alternativeMatcher] and
      [disjunctionMatcher] are the matchers of the four levels of the
      grammar, each given a continuation and the rest of the input.  The
      assertion [^] holds where the rest is the whole input, [$] where the
      rest is empty; a quantifier repeats the matcher of its atom as
      [Backtrack.repeatMatcher] does;
    - [regExpBuiltinExec d input] looks for a match from every index of the
      input, the first one first;
    - [RegExp_test source str] is [new RegExp(source).test(str)].

    What a tree means is stated apart from the engine, as a relation
    between the rest of the input where a match starts and the rest where
    it ends ([atomSpan] to [disjunctionSpan]); the engine realises that
    relation, whatever the continuation ([disjunctionMatcher_realises]).

    Other theorems relate the engine to the simpler models: on a tree
    without assertions it is [Backtrack.matcher] on the [regex] of the tree;
    on a pattern written between [^] and [$] the search is [Regex.test] on
    the [regex] between the two, which is how the other files read the
    pattern of the program; without assertions, the search finds the
    substrings in the language of the pattern. *)

From Stdlib Require Import Ascii String.
From stdpp Require Import ssreflect base tactics option list strings.
From S2P Require Import Prelude Regex Backtrack Pattern.

#[local] Notation term := (atom * quantifier)%type.
#[local] Notation alternative := (list term).
#[local] Notation disjunction := (list alternative).

Implicit Types (c : ascii) (s input : list ascii) (q : quantifier) (a : atom).
Implicit Types (t : term) (alt : alternative) (d : disjunction) (r : regex).
Implicit Types (k : list ascii → bool) (n : nat).
Implicit Types (m : (list ascii → bool) → list ascii → bool).

(** ** The engine *)

(** One character of a class. *)
Definition characterSetMatcher (cs : charset) k s : bool :=
  match s with
  | c :: s' => member cs c && k s'
  | [] => false
  end.

(** The matcher of an atom under its quantifier.  [*] repeats while an
    iteration consumes input; [+] is one iteration and then [*]; [?] is one
    iteration that consumes input, or none. *)
Definition quantifierMatcher q m k s : bool :=
  match q with
  | Once => m k s
  | ZeroOrMore => repeatMatcher m k (S (length s)) s
  | OneOrMore => m (λ s', repeatMatcher m k (S (length s')) s') s
  | ZeroOrOne => m (λ s', bool_decide (length s' < length s) && k s') s || k s
  end.

Section matchers.
(** The length of the whole input, which [^] compares the rest with. *)
Variable inputLength : nat.

Fixpoint atomMatcher a k s : bool :=
  match a with
  | InputStart => bool_decide (length s = inputLength) && k s
  | InputEnd => bool_decide (s = []) && k s
  | PatternCharacter c | IdentityEscape c => characterSetMatcher (Char c) k s
  | DigitEscape => characterSetMatcher Digit k s
  | CharacterClass cs => characterSetMatcher (OneOf cs) k s
  | Group d =>
      existsb (λ alt,
        foldr (λ t k', quantifierMatcher t.2 (atomMatcher t.1) k') k alt s) d
  end.

Definition termMatcher t k s : bool := quantifierMatcher t.2 (atomMatcher t.1) k s.
Definition alternativeMatcher alt k s : bool := foldr termMatcher k alt s.
Definition disjunctionMatcher d k s : bool := existsb (λ alt, alternativeMatcher alt k s) d.
End matchers.

(** The search: a match from index 0, or else from index 1, and so on up to
    the length of the input. *)
Definition regExpBuiltinExec d input : bool :=
  existsb (λ lastIndex, disjunctionMatcher (length input) d (λ _, true) (drop lastIndex input))
          (seq 0 (S (length input))).

(** [new RegExp(source).test(str)]; [None] where the parser refuses the
    source. *)
Definition RegExp_test (source str : string) : option bool :=
  d ← parsePattern (list_ascii_of_string source);
  Some (regExpBuiltinExec d (list_ascii_of_string str)).

(** ** Specification *)

(** A matcher that looks at its continuation only through its answers. *)
Definition extensional m : Prop :=
  ∀ k1 k2, (∀ s, k1 s = k2 s) → ∀ s, m k1 s = m k2 s.

(** The matcher of the atom [a] is the matcher of its [regex], when it has
    one. *)
Definition agrees n a : Prop :=
  ∀ r, desugarAtom a = Some r → ∀ k s, atomMatcher n a k s = matcher r k s.

(** A string of [L] occurs in [input]. *)
Definition occursIn (L : list ascii → Prop) input : Prop :=
  ∃ s1 s2 s3, input = s1 ++ s2 ++ s3 ∧ L s2.

(** *** What a match is

    The meaning of a tree, assertions included, is a relation between the
    rest of the input where a match starts and the rest where it ends.  It
    says nothing of continuations, of the order in which alternatives are
    tried or of backtracking. *)

#[local] Notation span := (list ascii → list ascii → Prop).

(** A match that consumes input. *)
Definition consuming (R : span) : span := λ s s', R s s' ∧ length s' < length s.

Definition characterSpan (cs : charset) : span :=
  λ s s', ∃ c, s = c :: s' ∧ member cs c = true.

(** Matches one after the other, and a match of one relation or another. *)
Definition thenSpan (R1 R2 : span) : span := λ s s', ∃ s1, R1 s s1 ∧ R2 s1 s'.
Definition orSpan (R1 R2 : span) : span := λ s s', R1 s s' ∨ R2 s s'.
Definition noSpan : span := λ _ _, False.

(** [*] is any number of matches that consume input, [+] is a match and
    then [*], [?] is a match that consumes input or none. *)
Definition quantifierSpan q (R : span) : span :=
  match q with
  | Once => R
  | ZeroOrMore => rtc (consuming R)
  | OneOrMore => thenSpan R (rtc (consuming R))
  | ZeroOrOne => λ s s', consuming R s s' ∨ s' = s
  end.

Section spans.
Variable inputLength : nat.

Fixpoint atomSpan a : span :=
  match a with
  | InputStart => λ s s', s' = s ∧ length s = inputLength
  | InputEnd => λ s s', s' = s ∧ s = []
  | PatternCharacter c | IdentityEscape c => characterSpan (Char c)
  | DigitEscape => characterSpan Digit
  | CharacterClass cs => characterSpan (OneOf cs)
  | Group d =>
      foldr (λ alt, orSpan
        (foldr (λ t, thenSpan (quantifierSpan t.2 (atomSpan t.1))) eq alt)) noSpan d
  end.

Definition termSpan t : span := quantifierSpan t.2 (atomSpan t.1).
Definition alternativeSpan alt : span := foldr (λ t, thenSpan (termSpan t)) eq alt.
Definition disjunctionSpan d : span := foldr (λ alt, orSpan (alternativeSpan alt)) noSpan d.
End spans.

(** A matcher for the relation [R]: it answers whether some match of [R]
    from the rest it is given ends where the continuation accepts. *)
Definition realises m (R : span) : Prop :=
  ∀ k s, m k s = true ↔ ∃ s', R s s' ∧ k s' = true.

(** ** Lemmas: the matchers of [Backtrack.v] *)

Lemma implements_extensional m (L : list ascii → Prop) : implements m L → extensional m.
Proof.
  intros Hm k1 k2 Hk s. apply eq_true_iff_eq. rw !Hm /splits. by setoid_rewrite Hk.
Qed.

Lemma matcher_extensional r : extensional (matcher r).
Proof. apply (implements_extensional _ (matches r)), matcher_spec. Qed.

Lemma repeatMatcher_ext m m' k k' n s :
  extensional m' → (∀ k s, m k s = m' k s) → (∀ s, k s = k' s) →
  repeatMatcher m k n s = repeatMatcher m' k' n s.
Proof.
  intros Hext Hm Hk. revert s. induction n as [|n IH]; intros s; simpl; [done|].
  rw Hm Hk. f_equal. apply Hext. intros s'. by rw IH.
Qed.

Lemma matcher_sequence rs k s : matcher (sequence rs) k s = foldr matcher k rs s.
Proof.
  revert k s. induction rs as [|r [|r' rs] IH]; intros k s; [done|done|].
  change (matcher r (matcher (sequence (r' :: rs)) k) s = matcher r (foldr matcher k (r' :: rs)) s).
  apply matcher_extensional, IH.
Qed.

Lemma matcher_alternation rs k s :
  matcher (alternation rs) k s = existsb (λ r, matcher r k s) rs.
Proof.
  induction rs as [|r [|r' rs] IH]; [done|by rw /= orb_false_r|].
  change (matcher r k s || matcher (alternation (r' :: rs)) k s =
          matcher r k s || existsb (λ r, matcher r k s) (r' :: rs)).
  by rw IH.
Qed.

(** An optional pattern may skip the check for an empty iteration: what an
    empty iteration would reach, skipping the pattern reaches. *)
Lemma matcher_optional r k s :
  matcher r (λ s', bool_decide (length s' < length s) && k s') s || k s =
  matcher (Opt r) k s.
Proof.
  apply eq_true_iff_eq. rw /= !orb_true_iff !matcher_spec. split.
  - intros [(s1 & s2 & -> & ? & [_ ?]%andb_true_iff)|?]; [left; by exists s1, s2|by right].
  - intros [(s1 & s2 & -> & H1 & Hk)|?]; [|by right].
    destruct s1 as [|c s1]; [by right|left]. exists (c :: s1), s2.
    rw andb_true_iff bool_decide_eq_true /= length_app. repeat split; [done|lia|done].
Qed.

(** ** Lemmas: a tree without assertions *)

Lemma quantifierMatcher_quantified q m r k s :
  (∀ k s, m k s = matcher r k s) →
  quantifierMatcher q m k s = matcher (quantified q r) k s.
Proof.
  intros Hm. destruct q; rw /quantifierMatcher /quantified.
  - apply Hm.
  - by apply (repeatMatcher_ext m (matcher r)); [apply matcher_extensional|..].
  - rw Hm. apply (matcher_extensional r). intros s'.
    by apply (repeatMatcher_ext m (matcher r)); [apply matcher_extensional|..].
  - by rw Hm matcher_optional.
Qed.

Section desugar.
Variable n : nat.
#[local] Notation agrees := (agrees n).

Lemma termMatcher_agrees t r k s :
  agrees t.1 → desugarTerm t = Some r → termMatcher n t k s = matcher r k s.
Proof.
  intros IH (ra & Ha & ->)%fmap_Some.
  apply quantifierMatcher_quantified, IH, Ha.
Qed.

Lemma alternativeMatcher_agrees alt r k s :
  Forall (λ t, agrees t.1) alt → desugarAlternative alt = Some r →
  alternativeMatcher n alt k s = matcher r k s.
Proof.
  intros IH (rs & Hrs%mapM_Some & ->)%fmap_Some. rw matcher_sequence.
  revert s. induction Hrs as [|t r alt rs Ht _ IHrs]; intros s; [done|].
  apply Forall_cons in IH as [IHt IH].
  rw /= (termMatcher_agrees t r) //. apply matcher_extensional, IHrs, IH.
Qed.

Lemma disjunctionMatcher_agrees d r k s :
  Forall (Forall (λ t, agrees t.1)) d → desugar d = Some r →
  disjunctionMatcher n d k s = matcher r k s.
Proof.
  intros IH (rs & Hrs%mapM_Some & ->)%fmap_Some. rw matcher_alternation.
  induction Hrs as [|alt r d rs Halt _ IHrs]; [done|].
  apply Forall_cons in IH as [IHalt IH].
  by rw /= (alternativeMatcher_agrees alt r) // IHrs.
Qed.

Lemma atomMatcher_agrees a : agrees a.
Proof.
  induction a as [| |c|c| |cs|d IH] using atom_ind'; intros r Hr k s;
    try by simplify_eq/=.
  by apply (disjunctionMatcher_agrees d r k s IH).
Qed.
End desugar.

Lemma alternativeMatcher_desugar n alt r k s :
  desugarAlternative alt = Some r → alternativeMatcher n alt k s = matcher r k s.
Proof.
  apply alternativeMatcher_agrees, Forall_forall. intros t _. apply atomMatcher_agrees.
Qed.

Lemma disjunctionMatcher_desugar n d r k s :
  desugar d = Some r → disjunctionMatcher n d k s = matcher r k s.
Proof.
  apply disjunctionMatcher_agrees, Forall_forall. intros alt _.
  apply Forall_forall. intros t _. apply atomMatcher_agrees.
Qed.

(** ** Lemmas: the search *)

Lemma existsb_cons {A} (f : A → bool) (x : A) (l : list A) :
  existsb f (x :: l) = f x || existsb f l.
Proof. done. Qed.

Lemma existsb_false {A} (f : A → bool) (l : list A) :
  Forall (λ x, f x = false) l → existsb f l = false.
Proof. induction 1 as [|x l Hx _ IH]; [done|]. by rw /= Hx IH. Qed.

Lemma alternativeMatcher_app n alt1 alt2 k s :
  alternativeMatcher n (alt1 ++ alt2) k s =
  alternativeMatcher n alt1 (alternativeMatcher n alt2 k) s.
Proof. by rw /alternativeMatcher foldr_app. Qed.

(** A pattern between [^] and [$] run on the rest [s] of the input: the
    rest is the whole input and the pattern between the two takes it all. *)
Lemma disjunctionMatcher_anchored n alt r s :
  desugarAlternative alt = Some r →
  disjunctionMatcher n [(InputStart, Once) :: alt ++ [(InputEnd, Once)]] (λ _, true) s =
  bool_decide (length s = n) && accepts r s.
Proof.
  intros Hr.
  change (bool_decide (length s = n) &&
            alternativeMatcher n (alt ++ [(InputEnd, Once)]) (λ _, true) s || false = 
          bool_decide (length s = n) && accepts r s).
  rw orb_false_r alternativeMatcher_app (alternativeMatcher_desugar n alt r) // -matcher_accepts.
  f_equal. apply matcher_extensional. intros s'. apply andb_true_r.
Qed.

(** The search for a pattern without assertions looks, at each index, for a
    prefix of the rest in the language of the pattern. *)
Lemma regExpBuiltinExec_splits d r input :
  desugar d = Some r →
  regExpBuiltinExec d input = true ↔
  ∃ i, i ≤ length input ∧ splits (matches r) (λ _, true) (drop i input).
Proof.
  intros Hr. rw /regExpBuiltinExec existsb_exists.
  split; intros (i & Hi & Hrun); exists i; rw in_seq (disjunctionMatcher_desugar _ d r) //
    matcher_spec in Hi Hrun |- *; (split; [lia|done]).
Qed.

Lemma regExpBuiltinExec_start d alt r input :
  anchored d = Some alt → desugarAlternative alt = Some r →
  regExpBuiltinExec d input = accepts r input.
Proof.
  intros ->%anchored_Some Hr. rw /regExpBuiltinExec -cons_seq existsb_cons drop_0.
  rw (disjunctionMatcher_anchored _ alt r) // bool_decide_true // existsb_false ?orb_false_r //.
  apply Forall_forall. intros i [Hi Hlt]%elem_of_seq.
  rw (disjunctionMatcher_anchored _ alt r) // length_drop bool_decide_false //. lia.
Qed.

Lemma RegExp_test_anchored source r str :
  compile source = Some r → RegExp_test source str = Some (test r str).
Proof.
  rw /compile /RegExp_test /test. destruct (parsePattern _) as [d|]; [|done]. simpl.
  destruct (anchored d) as [alt|] eqn:Hd; [|done]. simpl. intros Hr.
  by rw (regExpBuiltinExec_start d alt r).
Qed.

Lemma occursIn_splits (L : list ascii → Prop) input :
  occursIn L input ↔ ∃ i, i ≤ length input ∧ splits L (λ _, true) (drop i input).
Proof.
  split.
  - intros (s1 & s2 & s3 & -> & H2). exists (length s1).
    rw length_app drop_app_length. split; [lia|]. by exists s2, s3.
  - intros (i & _ & s2 & s3 & Hi & H2 & _). exists (take i input), s2, s3.
    by rw -Hi take_drop.
Qed.

(** ** Lemmas: the engine realises the meaning of a tree *)

Lemma realises_character cs : realises (characterSetMatcher cs) (characterSpan cs).
Proof.
  intros k [|c s]; simpl.
  - split; [done|]. by intros (s' & (c & ? & _) & _).
  - rw andb_true_iff. split.
    + intros [Hc Hk]. exists s. split; [by exists c|done].
    + by intros (s' & (c' & [= -> ->] & Hc) & Hk).
Qed.

Lemma realises_eq : realises (λ k, k) eq.
Proof. intros k s. split; [by exists s|by intros (s' & -> & ?)]. Qed.

Lemma realises_then m1 m2 (R1 R2 : span) :
  realises m1 R1 → realises m2 R2 → realises (λ k, m1 (m2 k)) (thenSpan R1 R2).
Proof.
  intros H1 H2 k s. rw H1. split.
  - intros (s1 & ? & (s' & ? & ?)%H2). exists s'. split; [by exists s1|done].
  - intros (s' & (s1 & ? & ?) & ?). exists s1. split; [done|]. apply H2. by exists s'.
Qed.

Lemma realises_or m1 m2 (R1 R2 : span) :
  realises m1 R1 → realises m2 R2 → realises (λ k s, m1 k s || m2 k s) (orSpan R1 R2).
Proof.
  intros H1 H2 k s. rw orb_true_iff H1 H2 /orSpan. naive_solver.
Qed.

Lemma realises_no : realises (λ _ _, false) noSpan.
Proof. intros k s. split; [done|]. by intros (s' & [] & _). Qed.

(** The matcher of [*] with enough iterations: any number of matches that
    consume input. *)
Lemma realises_repeat m (R : span) k n s :
  realises m R → length s < n →
  repeatMatcher m k n s = true ↔ ∃ s', rtc (consuming R) s s' ∧ k s' = true.
Proof.
  intros Hm. revert s. induction n as [|n IH]; intros s Hn; [lia|].
  rw /= orb_true_iff (Hm _ s). split.
  - intros [(s1 & H1 & [Hlt Hrep]%andb_true_iff)|Hk]; [|by exists s].
    apply bool_decide_eq_true in Hlt. apply IH in Hrep as (s' & Hstar & Hk); [|lia].
    exists s'. split; [|done]. by apply (rtc_l _ _ s1).
  - intros (s' & [->|(s1 & [H1 Hlt] & Hstar)]%rtc_inv & Hk); [by right|left].
    exists s1. split; [done|]. rw andb_true_iff bool_decide_eq_true. split; [done|].
    apply IH; [lia|by exists s'].
Qed.

Lemma realises_star m (R : span) :
  realises m R → realises (λ k s, repeatMatcher m k (S (length s)) s) (rtc (consuming R)).
Proof. intros Hm k s. apply realises_repeat; [done|lia]. Qed.

Lemma realises_optional m (R : span) :
  realises m R →
  realises (λ k s, m (λ s', bool_decide (length s' < length s) && k s') s || k s)
           (λ s s', consuming R s s' ∨ s' = s).
Proof.
  intros Hm k s. rw orb_true_iff Hm. split.
  - intros [(s' & H1 & [Hlt%bool_decide_eq_true Hk]%andb_true_iff)|Hk].
    + exists s'. split; [by left|done].
    + exists s. split; [by right|done].
  - intros (s' & [[H1 Hlt]| ->] & Hk); [left|by right].
    exists s'. by rw andb_true_iff bool_decide_eq_true.
Qed.

Lemma realises_quantifier q m (R : span) :
  realises m R → realises (quantifierMatcher q m) (quantifierSpan q R).
Proof.
  intros Hm. destruct q; rw /quantifierSpan.
  - done.
  - by apply realises_star.
  - by apply (realises_then m _ R), realises_star.
  - by apply realises_optional.
Qed.

Section realises.
Variable n : nat.

Lemma realises_alternative alt :
  Forall (λ t, realises (atomMatcher n t.1) (atomSpan n t.1)) alt →
  realises (alternativeMatcher n alt) (alternativeSpan n alt).
Proof.
  induction 1 as [|t alt Ht _ IH]; [apply realises_eq|].
  by apply (realises_then (termMatcher n t) (alternativeMatcher n alt)),
    IH; apply realises_quantifier.
Qed.

Lemma realises_disjunction d :
  Forall (Forall (λ t, realises (atomMatcher n t.1) (atomSpan n t.1))) d →
  realises (disjunctionMatcher n d) (disjunctionSpan n d).
Proof.
  induction 1 as [|alt d Halt _ IH]; [apply realises_no|].
  by apply (realises_or (alternativeMatcher n alt) (disjunctionMatcher n d)),
    IH; apply realises_alternative.
Qed.

Lemma realises_atom a : realises (atomMatcher n a) (atomSpan n a).
Proof.
  induction a as [| |c|c| |cs|d IH] using atom_ind'; try apply realises_character.
  - intros k s. rw /= andb_true_iff bool_decide_eq_true. naive_solver.
  - intros k s. rw /= andb_true_iff bool_decide_eq_true. naive_solver.
  - by apply (realises_disjunction d).
Qed.

Lemma realises_disjunctionMatcher d : realises (disjunctionMatcher n d) (disjunctionSpan n d).
Proof.
  apply realises_disjunction, Forall_forall. intros alt _.
  apply Forall_forall. intros t _. apply realises_atom.
Qed.

End realises.

(** Two relations that one matcher realises are the same relation. *)
Lemma realises_unique m (R1 R2 : span) s s' :
  realises m R1 → realises m R2 → R1 s s' ↔ R2 s s'.
Proof.
  intros H1 H2.
  assert (∀ R : span, realises m R →
            R s s' ↔ m (λ s1, bool_decide (s1 = s')) s = true) as Hm.
  { intros R HR. rw HR. split.
    - intros ?. exists s'. by rw bool_decide_eq_true.
    - by intros (s1 & ? & ->%bool_decide_eq_true). }
  by rw (Hm R1) // (Hm R2).
Qed.

(** Without assertions, a match from [s] to [s'] is a prefix of [s] in the
    language of the pattern, [s'] being what is left. *)
Lemma disjunctionSpan_matches n d r s s' :
  desugar d = Some r →
  disjunctionSpan n d s s' ↔ ∃ s1, s = s1 ++ s' ∧ matches r s1.
Proof.
  intros Hr.
  apply (realises_unique (disjunctionMatcher n d) _
           (λ s s', ∃ s1, s = s1 ++ s' ∧ matches r s1));
    [apply realises_disjunctionMatcher|].
  intros k s0. rw (disjunctionMatcher_desugar n d r) // matcher_spec /splits. naive_solver.
Qed.

(** The search finds a match of the pattern from some index. *)
Lemma regExpBuiltinExec_spans d input :
  regExpBuiltinExec d input = true ↔
  ∃ i s', i ≤ length input ∧ disjunctionSpan (length input) d (drop i input) s'.
Proof.
  rw /regExpBuiltinExec existsb_exists. split.
  - intros (i & Hi%in_seq & (s' & ? & _)%realises_disjunctionMatcher).
    exists i, s'. split; [lia|done].
  - intros (i & s' & Hi & Hspan). exists i. rw in_seq. split; [lia|].
    apply realises_disjunctionMatcher. by exists s'.
Qed.

(** ** Properties *)

(** C16. The engine realises the meaning of patterns, assertions included:
    run on a rest of the input with a continuation, the matcher of a
    disjunction answers [true] exactly when some match of the disjunction
    from that rest, as the relation [disjunctionSpan] defines it without
    continuations or backtracking, ends at a rest the continuation
    accepts. *)
Theorem disjunctionMatcher_realises n d k s :
  disjunctionMatcher n d k s = true ↔ ∃ s', disjunctionSpan n d s s' ∧ k s' = true.
Proof. apply realises_disjunctionMatcher. Qed.

(** On a pattern without assertions the engine on syntax trees is the
    backtracking matcher on the [regex] of the tree: whatever the
    continuation and the input, the two give the same answer. *)
Theorem disjunctionMatcher_matcher n d r k s :
  desugar d = Some r → disjunctionMatcher n d k s = matcher r k s.
Proof. apply disjunctionMatcher_desugar. Qed.

Lemma disjunctionMatcher_matcher_witness :
  disjunctionMatcher 3 [[(DigitEscape, OneOrMore)]; [(PatternCharacter "x", Once)]] atEnd
    (list_ascii_of_string "42") =
  matcher (Alt (Plus (Atom Digit)) (Atom (Char "x"))) atEnd (list_ascii_of_string "42").
Proof. by apply disjunctionMatcher_matcher. Defined.

(** C15. A pattern written between [^] and [$] tests the whole string:
    when [compile] reads the source as the [regex] [r] between the two
    assertions, [new RegExp(source).test(str)], which searches from every
    index and checks the assertions where they stand, answers what
    [Regex.test r str] answers. *)
Theorem RegExp_test_compile source r str :
  compile source = Some r → RegExp_test source str = Some (test r str).
Proof. apply RegExp_test_anchored. Qed.

Lemma RegExp_test_compile_witness :
  RegExp_test "^\d+(\.\d+)?$" "3.14" =
  Some (test (Seq (Plus (Atom Digit)) (Opt (Seq (Atom (Char ".")) (Plus (Atom Digit))))) "3.14").
Proof. by apply RegExp_test_compile. Defined.

(** C22. Without assertions [test] looks for an occurrence: the search
    answers [true] exactly when some substring of the input is in the
    language of the pattern. *)
Theorem regExpBuiltinExec_occurs d r input :
  desugar d = Some r →
  regExpBuiltinExec d input = true ↔ occursIn (matches r) input.
Proof. intros Hr. by rw occursIn_splits (regExpBuiltinExec_splits d r). Qed.

Lemma regExpBuiltinExec_occurs_witness :
  regExpBuiltinExec [[(DigitEscape, OneOrMore)]] (list_ascii_of_string "route 66") = true ↔
  occursIn (matches (Plus (Atom Digit))) (list_ascii_of_string "route 66").
Proof. by apply regExpBuiltinExec_occurs. Defined.

(** The assertions where they stand: [^] fails past the first index, [$]
    before the last, and an assertion in the middle of a pattern is checked
    there. *)
Example RegExp_test_assertions :
  RegExp_test "^a" <$> ["ab"; "ba"]%string = [Some true; Some false] ∧
  RegExp_test "a$" <$> ["ba"; "ab"]%string = [Some true; Some false] ∧
  RegExp_test "a|^b$" <$> ["xa"; "b"; "xb"]%string = [Some true; Some true; Some false] ∧
  RegExp_test "a^b" "ab" = Some false ∧
  RegExp_test "(^|x)a" <$> ["a"; "xa"; "ya"]%string = [Some true; Some true; Some false] ∧
  RegExp_test "(^|x)a$" <$> ["ya"; "yxa"]%string = [Some false; Some true].
Proof. by vm_compute. Qed.
