(* ===== verification/NumbersAgain.v ===== *)
(** * NumbersAgain: the number pattern of [numbersAgain.js]

    The program holds one regular expression, meant to match the number
    literals of the language, and prints what [test] answers on seven
    strings.  [expressionSource] is the text of the literal, [logTest] one
    line of the program, [console.log(expression.test(str))], and
    [numbersAgainScript] the seven lines, as statements of [Exec.v] on a
    console of booleans.  [expression] is the pattern between
    the two assertions of the literal, built from the constructors of
    [Regex] group by group; the literal parses to it
    ([expression_compiled]), so the engine answers on the literal what
    [Regex.test] answers on [expression] ([expression_test]).

    [numericLiteral] says in words of lists which strings the pattern is
    meant to accept: an optional sign, a mantissa, an optional exponent.
    [expression_language] proves that these are exactly the strings on
    which the literal of the program answers [true]. *)

From Stdlib Require Import Ascii String.
From stdpp Require Import ssreflect base tactics option list strings.
From S2P Require Import Prelude Exec Regex Pattern Engine.

Implicit Types (c : ascii) (s : list ascii).

#[local] Opaque Plus Opt.

(** ** The program *)

(** [[+-]], [\d], [\.] and [[eE]]. *)
Definition sign : regex := Atom (OneOf ["+"; "-"]%char).
Definition digit : regex := Atom Digit.
Definition dot : regex := Atom (Char ".").
Definition marker : regex := Atom (OneOf ["e"; "E"]%char).

(** The first group, with its four alternatives: one or more digits; one or
    more digits, a point and any number of digits; a point and one or more
    digits; nothing. *)
Definition mantissa : regex :=
  Alt (Plus digit)
      (Alt (Seq (Plus digit) (Seq dot (Star digit)))
           (Alt (Seq dot (Plus digit))
                Eps)).

(** The second group, without the [?] that follows it: an exponent marker,
    an optional sign and any number of digits. *)
Definition exponent : regex := Seq marker (Seq (Opt sign) (Star digit)).

(** The pattern of the program, between its anchors: an optional sign, the
    first group, and the second group made optional. *)
Definition expression : regex := Seq (Opt sign) (Seq mantissa (Opt exponent)).

(** The pattern as the program writes it, between the two slashes of the
    literal. *)
Definition expressionSource : string := "^[+-]?(\d+|\d+\.\d*|\.\d+|)([eE][+-]?\d*)?$".

(** What the program may throw: the error of a literal that is no
    pattern. *)
Inductive syntaxError : Type := SyntaxError (source : string).

(** The console of the program, on which it prints booleans. *)
#[export] Program Instance answers_console : Console (list bool) bool := {|
  printed := id;
  print answer answers := answers ++ [answer]
|}.
Next Obligation. done. Qed.

(** One line of the program: [console.log(expression.test(str))]. *)
Definition logTest (str : string) : Exec (list bool) syntaxError unit :=
  match RegExp_test expressionSource str with
  | Some answer => console_log answer
  | None => throw (SyntaxError expressionSource)
  end.

(** The seven lines of the program. *)
Definition numbersAgainScript : Exec (list bool) syntaxError unit :=
  logTest "1E10";;
  logTest "5e-10";;
  logTest "5.5";;
  logTest ".3";;
  logTest "-5e-4";;
  logTest "-70e";;
  logTest ".".

(** ** Specification *)

Definition digits s : Prop := Forall (λ c, isDigit c = true) s.

Definition optSign s : Prop := s = [] ∨ s = ["+"%char] ∨ s = ["-"%char].

(** One or more digits optionally followed by a point and digits; or a point
    followed by one or more digits; or nothing. *)
Definition mantissaSpec s : Prop :=
  (s ≠ [] ∧ digits s) ∨
  (∃ d1 d2, s = d1 ++ "."%char :: d2 ∧ d1 ≠ [] ∧ digits d1 ∧ digits d2) ∨
  (∃ d, s = "."%char :: d ∧ d ≠ [] ∧ digits d) ∨
  s = [].

(** Nothing, or an exponent marker, an optional sign and digits. *)
Definition optExponent s : Prop :=
  s = [] ∨
  ∃ m sg d, s = m :: sg ++ d ∧ (m = "e"%char ∨ m = "E"%char) ∧ optSign sg ∧ digits d.

Definition numericLiteral s : Prop :=
  ∃ sg m e, s = sg ++ m ++ e ∧ optSign sg ∧ mantissaSpec m ∧ optExponent e.

(** The characters a number literal is written with. *)
Definition literalChar c : Prop :=
  c ∈ ["+"; "-"; "."; "e"; "E"]%char ∨ isDigit c = true.

(** ** Lemmas: the language of each group *)

Lemma matches_sign s : matches sign s ↔ s = ["+"%char] ∨ s = ["-"%char].
Proof.
  rw /sign matches_OneOf_iff. set_solver.
Qed.

Lemma matches_optSign s : matches (Opt sign) s ↔ optSign s.
Proof. by rw matches_Opt_iff matches_sign. Qed.

Lemma matches_digits s : matches (Star digit) s ↔ digits s.
Proof. apply matches_Star_Atom. Qed.

Lemma matches_digits1 s : matches (Plus digit) s ↔ s ≠ [] ∧ digits s.
Proof. apply matches_Plus_Atom. Qed.

Lemma matches_dot s : matches dot s ↔ s = ["."%char].
Proof.
  apply matches_Char_iff.
Qed.

Lemma matches_marker s : matches marker s ↔ s = ["e"%char] ∨ s = ["E"%char].
Proof.
  rw /marker matches_OneOf_iff. set_solver.
Qed.

Lemma matches_decimal s :
  matches (Seq (Plus digit) (Seq dot (Star digit))) s ↔
  ∃ d1 d2, s = d1 ++ "."%char :: d2 ∧ d1 ≠ [] ∧ digits d1 ∧ digits d2.
Proof.
  rw (matches_Seq_iff (Plus digit)). setoid_rewrite (matches_Seq_iff dot).
  setoid_rewrite matches_dot. setoid_rewrite matches_digits1.
  setoid_rewrite matches_digits. split.
  - intros (d1 & ? & -> & [??] & ? & d2 & -> & -> & ?). by exists d1, d2.
  - intros (d1 & d2 & -> & ? & ? & ?). exists d1, ("."%char :: d2).
    do 2 (split; [done|]). by exists ["."%char], d2.
Qed.

Lemma matches_fraction s :
  matches (Seq dot (Plus digit)) s ↔ ∃ d, s = "."%char :: d ∧ d ≠ [] ∧ digits d.
Proof.
  rw (matches_Seq_iff dot). setoid_rewrite matches_dot.
  setoid_rewrite matches_digits1. split.
  - intros (? & d & -> & -> & ?). by exists d.
  - intros (d & -> & ?). by exists ["."%char], d.
Qed.

Lemma matches_mantissa s : matches mantissa s ↔ mantissaSpec s.
Proof.
  by rw /mantissa /mantissaSpec !matches_Alt_iff matches_Eps_iff matches_digits1
        matches_decimal matches_fraction.
Qed.

Lemma matches_exponent s :
  matches exponent s ↔
  ∃ m sg d, s = m :: sg ++ d ∧ (m = "e"%char ∨ m = "E"%char) ∧ optSign sg ∧ digits d.
Proof.
  rw /exponent (matches_Seq_iff marker). setoid_rewrite (matches_Seq_iff (Opt sign)).
  setoid_rewrite matches_marker. setoid_rewrite matches_optSign.
  setoid_rewrite matches_digits. split.
  - intros (? & ? & -> & Hm & sg & d & -> & ? & ?).
    destruct Hm as [->| ->]; eexists _, sg, d; eauto.
  - intros (m & sg & d & -> & Hm & ? & ?). exists [m], (sg ++ d).
    split; [done|]. split; [by destruct Hm as [->| ->]; eauto|]. by exists sg, d.
Qed.

Lemma matches_expression s : matches expression s ↔ numericLiteral s.
Proof.
  rw /expression /numericLiteral (matches_Seq_iff (Opt sign)).
  setoid_rewrite (matches_Seq_iff mantissa). setoid_rewrite matches_optSign.
  setoid_rewrite matches_mantissa. setoid_rewrite matches_Opt_iff.
  setoid_rewrite matches_exponent. split.
  - intros (sg & ? & -> & ? & m & e & -> & ? & ?). by exists sg, m, e.
  - intros (sg & m & e & -> & ? & ? & ?). exists sg, (m ++ e).
    do 2 (split; [done|]). by exists m, e.
Qed.

(** ** Lemmas: the alphabet *)

Lemma digits_literalChar s : digits s → Forall literalChar s.
Proof. intros Hs. eapply Forall_impl; [done|]. by right. Qed.

Lemma optSign_literalChar s : optSign s → Forall literalChar s.
Proof.
  intros [->|[->| ->]]; repeat constructor; left; set_solver.
Qed.

Lemma dot_literalChar : literalChar "."%char.
Proof. left. set_solver. Qed.

Lemma mantissaSpec_literalChar s : mantissaSpec s → Forall literalChar s.
Proof.
  intros [[_ ?]|[(d1 & d2 & -> & _ & ? & ?)|[(d & -> & _ & ?)| ->]]];
    rw ?Forall_app ?Forall_cons; auto 6 using digits_literalChar, dot_literalChar.
Qed.

Lemma optExponent_literalChar s : optExponent s → Forall literalChar s.
Proof.
  intros [->|(m & sg & d & -> & Hm & ? & ?)]; [constructor|].
  rw Forall_cons Forall_app. split; [left; set_solver|].
  auto using digits_literalChar, optSign_literalChar.
Qed.

(** ** Lemmas: the literal of the program *)

Lemma compile_expressionSource : compile expressionSource = Some expression.
Proof. by vm_compute. Qed.

(** The engine on the literal answers what [test] answers on [expression]. *)
Lemma expression_test str :
  RegExp_test expressionSource str = Some (test expression str).
Proof. apply RegExp_test_anchored, compile_expressionSource. Qed.

(** A line of the program prints what [test] answers on [expression], and
    never throws. *)
Lemma logTest_run str answers :
  logTest str answers = (Normal tt, answers ++ [test expression str]).
Proof. by rw /logTest expression_test. Qed.

Lemma numbersAgainScript_run answers :
  numbersAgainScript answers =
  (Normal tt, answers ++ [true; true; true; true; true; true; false]).
Proof.
  rw /numbersAgainScript. exec_unfold. rw !logTest_run /= -!app_assoc. done.
Qed.

(** ** Properties of the pattern *)

(** C14. The language of the pattern: [expression.test(str)], the literal of
    the program run by the engine, answers [true] exactly when [str] is an
    optional sign, followed by a mantissa (digits; digits, a point and
    digits; a point and digits; or nothing), followed by an optional
    exponent (a marker, an optional sign and digits). *)
Theorem expression_language str :
  RegExp_test expressionSource str = Some true ↔ numericLiteral (list_ascii_of_string str).
Proof.
  rw expression_test /test -matches_expression -accepts_matches. split; [by intros [= ->]|by intros ->].
Qed.

(** C20. The run of the program: whatever the console holds, the seven
    lines complete without a throw and print [true] six times and then
    [false], for the string that is a single point. *)
Theorem numbersAgainScript_output answers :
  numbersAgainScript answers =
  (Normal tt, answers ++ [true; true; true; true; true; true; false]).
Proof. apply numbersAgainScript_run. Qed.

(** C40. The pattern is loose: a string with no digit at all is accepted as
    soon as it is an optional sign followed by an optional exponent, so the
    empty string, a lone sign and a lone exponent marker are all accepted. *)
Theorem expression_accepts_no_digits sg e :
  optSign sg → optExponent e → accepts expression (sg ++ e) = true.
Proof.
  intros Hsg He. apply accepts_matches, matches_expression.
  exists sg, [], e. split; [done|]. split; [done|]. split; [|done]. by do 3 right.
Qed.

Lemma expression_accepts_no_digits_witness :
  accepts expression (["-"%char] ++ ["e"%char]) = true.
Proof.
  apply expression_accepts_no_digits; [by right; right|right].
  exists "e"%char, [], []. split; [done|]. split; [by left|]. split; [by left|constructor].
Defined.

(** Whatever the pattern accepts is written with signs, points,
    exponent markers and decimal digits only. *)
Theorem expression_alphabet str :
  test expression str = true → Forall literalChar (list_ascii_of_string str).
Proof.
  rw /test accepts_matches matches_expression.
  intros (sg & m & e & -> & ? & ? & ?). rw !Forall_app.
  auto using optSign_literalChar, mantissaSpec_literalChar, optExponent_literalChar.
Qed.

Lemma expression_alphabet_witness :
  Forall literalChar (list_ascii_of_string "-5e-4").
Proof. by apply expression_alphabet. Defined.

(** The pattern of the model is the pattern of the program: the text of
    the literal, as the program writes it, parses, and the tree it parses to
    means [expression]. *)
Theorem expression_compiled : compile expressionSource = Some expression.
Proof. apply compile_expressionSource. Qed.
