(* ===== verification/Scanner.v ===== *)
(** * Scanner: the number pattern as a single pass over the string

    The contract of the pattern of [numbersAgain.js] is a function from
    strings to booleans.  [isValidNumericLiteral] computes it without a
    regular expression: it walks over the string once, skipping an optional
    sign, a mantissa and an optional exponent, and accepts when nothing is
    left.  Each step takes as much as it can; this is right because what may
    follow a part of a number never starts like that part.

    The scanner answers exactly as the literal of the program does when
    the engine runs it ([isValidNumericLiteral_test]). *)

From Stdlib Require Import Ascii String.
From stdpp Require Import ssreflect base tactics option list strings.
From S2P Require Import Prelude Exec Regex Engine NumbersAgain.

Implicit Types (c : ascii) (s r d : list ascii).

(** ** The scanner *)

Definition isSign c : bool := bool_decide (c = "+"%char ∨ c = "-"%char).
Definition isMarker c : bool := bool_decide (c = "e"%char ∨ c = "E"%char).
Definition isPoint c : bool := bool_decide (c = "."%char).

Fixpoint skipDigits s : list ascii :=
  match s with
  | c :: s' => if isDigit c then skipDigits s' else s
  | [] => []
  end.

Definition skipSign s : list ascii :=
  match s with
  | c :: s' => if isSign c then s' else s
  | [] => []
  end.

(** After digits, a point and more digits if there is a point; a point
    counts without digits before it only when a digit follows. *)
Definition skipMantissa s : list ascii :=
  match s with
  | c :: s' =>
      if isDigit c then
        match skipDigits s' with
        | p :: s2 => if isPoint p then skipDigits s2 else p :: s2
        | [] => []
        end
      else if isPoint c then
        match s' with
        | c' :: s2 => if isDigit c' then skipDigits s2 else s
        | [] => s
        end
      else s
  | [] => []
  end.

Definition skipExponent s : list ascii :=
  match s with
  | c :: s' => if isMarker c then skipDigits (skipSign s') else s
  | [] => []
  end.

Definition scan s : list ascii := skipExponent (skipMantissa (skipSign s)).

Definition isValidNumericLiteral (str : string) : bool :=
  bool_decide (scan (list_ascii_of_string str) = []).

(** ** Specification *)

(** The first character of a string, if any, is of the given kind. *)
Definition starts (kind : ascii → bool) s : bool :=
  match s with
  | c :: _ => kind c
  | [] => false
  end.

(** ** Lemmas: each step takes a part of a number *)

Lemma skipDigits_prefix s : ∃ d, s = d ++ skipDigits s ∧ digits d.
Proof.
  assert (∃ d, s = d ++ s ∧ digits d) as Hnone by (exists []; split; [done|constructor]).
  induction s as [|c s IH]; [done|]. simpl.
  destruct (isDigit c) eqn:Hc; [|done]. destruct IH as (d & Hs & Hd); [by exists []; split; [|constructor]|].
  exists (c :: d). split; [by rw /= -Hs|by apply Forall_cons].
Qed.

Lemma skipSign_prefix s : ∃ sg, s = sg ++ skipSign s ∧ optSign sg.
Proof.
  destruct s as [|c s]; [by exists []; split; [|left]|]. simpl.
  destruct (isSign c) eqn:Hc; [|by exists []; split; [|left]].
  apply bool_decide_eq_true in Hc. exists [c]. split; [done|]. right. naive_solver.
Qed.

Lemma isPoint_true c : isPoint c = true → c = "."%char.
Proof. apply bool_decide_eq_true. Qed.

Lemma skipMantissa_prefix s : ∃ m, s = m ++ skipMantissa s ∧ mantissaSpec m.
Proof.
  assert (∃ m, s = m ++ s ∧ mantissaSpec m) as Hnone by (by exists []; split; [|do 3 right]).
  destruct s as [|c s]; [done|]. simpl. destruct (isDigit c) eqn:Hc.
  - destruct (skipDigits_prefix s) as (d1 & Hs & Hd1).
    destruct (skipDigits s) as [|p s2]; [|destruct (isPoint p) eqn:Hp].
    + exists (c :: d1). split; [by rw Hs|]. left. split; [done|by apply Forall_cons].
    + apply isPoint_true in Hp as ->. destruct (skipDigits_prefix s2) as (d2 & Hs2 & Hd2).
      exists ((c :: d1) ++ "."%char :: d2). split; [by rw /= -app_assoc /= -Hs2 -Hs|].
      right; left. exists (c :: d1), d2. split; [done|]. split; [done|]. by split; [apply Forall_cons|].
    + exists (c :: d1). split; [by rw Hs|]. left. split; [done|by apply Forall_cons].
  - destruct (isPoint c) eqn:Hp; [|done]. apply isPoint_true in Hp as ->.
    destruct s as [|c' s2]; [done|]. destruct (isDigit c') eqn:Hc'; [|done].
    destruct (skipDigits_prefix s2) as (d & Hs2 & Hd).
    exists ("."%char :: c' :: d). split; [by rw /= -Hs2|].
    right; right; left. exists (c' :: d). split; [done|]. split; [done|by apply Forall_cons].
Qed.

Lemma skipExponent_nil s : skipExponent s = [] → optExponent s.
Proof.
  destruct s as [|c s]; [by left|]. simpl. destruct (isMarker c) eqn:Hc; [|done].
  intros Hs. right. apply bool_decide_eq_true in Hc.
  destruct (skipSign_prefix s) as (sg & Hsg & ?).
  destruct (skipDigits_prefix (skipSign s)) as (d & Hd & ?). rw Hs app_nil_r in Hd.
  exists c, sg, d. split; [by rw -Hd -Hsg|done].
Qed.

Lemma scan_sound s : scan s = [] → numericLiteral s.
Proof.
  intros He%skipExponent_nil. destruct (skipSign_prefix s) as (sg & Hs & ?).
  destruct (skipMantissa_prefix (skipSign s)) as (m & Hm & ?).
  exists sg, m, (skipMantissa (skipSign s)). by rw -Hm -Hs.
Qed.

(** ** Lemmas: each step takes all of its part *)

Lemma skipDigits_stop r : starts isDigit r = false → skipDigits r = r.
Proof. destruct r as [|c r]; [done|]. simpl. by intros ->. Qed.

Lemma skipDigits_app d r : digits d → starts isDigit r = false → skipDigits (d ++ r) = r.
Proof.
  intros Hd Hr. induction Hd as [|c d Hc Hd IH]; [by apply skipDigits_stop|]. by rw /= Hc.
Qed.

Lemma skipSign_app sg r : optSign sg → starts isSign r = false → skipSign (sg ++ r) = r.
Proof.
  intros [->|[->| ->]] Hr; [|done..]. destruct r as [|c r]; [done|]. simpl in *. by rw Hr.
Qed.

(** What starts with a digit or a marker does not start with a sign, and so
    on: the parts of a number start differently. *)
Lemma starts_digits (kind : ascii → bool) d :
  digits d → (∀ c, isDigit c = true → kind c = false) → starts kind d = false.
Proof. intros [|c d' Hc _] Hkind; [done|]. by apply Hkind. Qed.

Lemma digit_not_sign c : isDigit c = true → isSign c = false.
Proof.
  intros Hc. apply bool_decide_eq_false. by intros [->| ->].
Qed.

Lemma digit_not_point c : isDigit c = true → isPoint c = false.
Proof. intros Hc. apply bool_decide_eq_false. by intros ->. Qed.

Lemma skipMantissa_app m r :
  mantissaSpec m → starts isDigit r = false → starts isPoint r = false →
  skipMantissa (m ++ r) = r.
Proof.
  intros [[Hm Hd]|[(d1 & d2 & -> & Hd1 & H1 & H2)|[(d & -> & Hd & H)| ->]]] Hdigit Hpoint.
  - destruct Hd as [|c d Hc Hd]; [done|]. rw /= Hc skipDigits_app //.
    destruct r as [|p r]; [done|]. simpl in Hpoint. by rw Hpoint.
  - destruct H1 as [|c d1 Hc H1]; [done|].
    by rw /= Hc -app_assoc skipDigits_app //= skipDigits_app.
  - destruct H as [|c d Hc H]; [done|]. by rw /= Hc skipDigits_app.
  - destruct r as [|c r]; [done|]. simpl in *. by rw Hdigit Hpoint.
Qed.

Lemma skipExponent_app e : optExponent e → skipExponent e = [].
Proof.
  intros [->|(m & sg & d & -> & Hm & Hsg & Hd)]; [done|].
  rw /= /isMarker bool_decide_true // skipSign_app //.
  - by rw -(app_nil_r d) skipDigits_app.
  - apply starts_digits; [done|apply digit_not_sign].
Qed.

Lemma marker_other c :
  isMarker c = true → isDigit c = false ∧ isPoint c = false ∧ isSign c = false.
Proof. by intros [->| ->]%bool_decide_eq_true. Qed.

Lemma starts_optExponent e :
  optExponent e →
  starts isDigit e = false ∧ starts isPoint e = false ∧ starts isSign e = false.
Proof.
  intros [->|(m & sg & d & -> & Hm & _)]; [done|].
  apply marker_other, bool_decide_eq_true, Hm.
Qed.

Lemma starts_mantissaSpec m e :
  mantissaSpec m → optExponent e → starts isSign (m ++ e) = false.
Proof.
  intros [[Hm Hd]|[(d1 & d2 & -> & Hd1 & H1 & _)|[(d & -> & _)| ->]]] He.
  - destruct Hd as [|c d Hc _]; [done|]. by apply digit_not_sign.
  - destruct H1 as [|c d1 Hc _]; [done|]. by apply digit_not_sign.
  - done.
  - by apply starts_optExponent.
Qed.

Lemma scan_complete s : numericLiteral s → scan s = [].
Proof.
  intros (sg & m & e & -> & Hsg & Hm & He).
  destruct (starts_optExponent e He) as (? & ? & ?).
  rw /scan skipSign_app //; [|by apply starts_mantissaSpec].
  by rw skipMantissa_app // skipExponent_app.
Qed.

Lemma scan_numericLiteral s : scan s = [] ↔ numericLiteral s.
Proof. split; [apply scan_sound|apply scan_complete]. Qed.

Lemma isValidNumericLiteral_accepts str :
  isValidNumericLiteral str = test expression str.
Proof.
  apply eq_true_iff_eq.
  by rw /isValidNumericLiteral bool_decide_eq_true scan_numericLiteral /test accepts_matches
        matches_expression.
Qed.

(** ** Properties *)

(** C21. The scanner and the pattern agree: on every string, the single pass
    of [isValidNumericLiteral] answers what [expression.test] answers, the
    literal of the program being parsed and run by the engine, with its
    search and its assertions. *)
Theorem isValidNumericLiteral_test str :
  RegExp_test expressionSource str = Some (isValidNumericLiteral str).
Proof. by rw expression_test isValidNumericLiteral_accepts. Qed.

(** The scanner on the seven strings of the program. *)
Example isValidNumericLiteral_script :
  numbersAgainScript [] =
  (Normal tt,
   isValidNumericLiteral <$> ["1E10"; "5e-10"; "5.5"; ".3"; "-5e-4"; "-70e"; "."]%string).
Proof. by rw numbersAgainScript_run. Qed.
